(** * LAMMPS start-up: partitioning, stream routing, variant selection
      and the life cycle of the top-level classes

    A shallow embedding of [src/lammps.cpp] (the constructor
    [LAMMPS::LAMMPS], [LAMMPS::create], [LAMMPS::post_create],
    [LAMMPS::init] and [LAMMPS::destroy]).  One process of the job is
    modelled: its state is threaded explicitly, every externally visible
    action (a [new], a [delete], an [fopen], an [fprintf], a call into the
    [Error] class, ...) is appended to a trace, and a call that does not
    return ends the run with a [Halt] outcome.

    The classes [Universe] and [Error] are declared in headers only; their
    bodies are modelled from the design document and marked as such. *)

From Stdlib Require Import ZArith List String Ascii Bool Lia DecimalString.
From Stdlib Require Import Sorted Permutation.
Import ListNotations.
Local Open Scope Z_scope.

(* ------------------------------------------------------------------ *)
(** ** Strings as the C code uses them *)

Notation "a +++ b" := (String.append a b) (at level 60, right associativity).

(** [strcmp(a,b) == 0] *)
Definition streq (a b : string) : bool := String.eqb a b.

(** [arg[iarg][0] == '-'] (the empty string holds only the terminator). *)
Definition starts_dash (s : string) : bool :=
  match s with
  | String c _ => Ascii.eqb c "-"%char
  | EmptyString => false
  end.

(** ["%d"] applied to an [int]. *)
Definition dec (z : Z) : string := NilZero.string_of_int (Z.to_int z).

Definition nl : string := String (ascii_of_nat 10) EmptyString.

(** A C [int] read as a condition. *)
Definition truthy (z : Z) : bool := negb (z =? 0).

(* ------------------------------------------------------------------ *)
(** ** What the process gets from its surroundings

    Everything the code reads but does not compute: the communicator it is
    handed, the file system, the build-time macros and type sizes of
    [lmptype.h], the capability flag of the [Cuda] class. *)

Record Env := mkEnv {
  (** [MPI_Comm_rank] and [MPI_Comm_size] of the universe communicator
      (after a [-reorder], of the reordered one) *)
  comm_rank : Z;
  comm_size : Z;
  (** [LAMMPS_VERSION] *)
  version : string;
  (** whether [fopen(path,mode)] yields a stream *)
  fopen_ok : string -> string -> bool;
  (** the world sizes one word after [-partition] declares *)
  directive_sizes : string -> list Z;
  (** [cuda->cuda_exists]: false for the dummy class *)
  cuda_exists : bool;
  (** build-time macros *)
  LMP_USER_OMP : bool;
  LAMMPS_SMALLBIG : bool;
  LAMMPS_BIGBIG : bool;
  LAMMPS_SMALLSMALL : bool;
  (** [sizeof] of the integer types, [MPI_Type_size] of their MPI twins *)
  sizeof_int : Z;
  sizeof_smallint : Z;
  sizeof_tagint : Z;
  sizeof_bigint : Z;
  mpi_size_tagint : Z;
  mpi_size_bigint : Z
}.

(* ------------------------------------------------------------------ *)
(** ** Streams, classes, pointers *)

(** A non-null [FILE *]. *)
Inductive FILE := stdout | stdin | opened (path : string).

(** A [FILE *]; [None] is [NULL]. *)
Definition stream := option FILE.

Definition is_null {A} (p : option A) : bool :=
  match p with None => true | Some _ => false end.

Definition non_null {A} (p : option A) : bool := negb (is_null p).

(** The variable an [fopen] result is stored in. *)
Inductive FileVar := v_uscreen | v_ulogfile | v_screen | v_logfile | v_infile.

(** The classes the file instantiates. *)
Inductive Class :=
| Memory | Error | Universe | Input | Cuda | CiteMe
| Comm | CommCuda | Neighbor | NeighborCuda
| Domain | DomainCuda | DomainOMP
| Atom | Group | Force | Modify | ModifyCuda | Output | Update | Timer.

(** The pointer members of class [LAMMPS]. *)
Inductive Ptr :=
| memory | error | universe | input | cuda | citeme
| comm | neighbor | domain | atom | group | force | modify | output
| update | timer.

Definition Ptr_eqb (a b : Ptr) : bool :=
  match a, b with
  | memory, memory | error, error | universe, universe | input, input
  | cuda, cuda | citeme, citeme | comm, comm | neighbor, neighbor
  | domain, domain | atom, atom | group, group | force, force
  | modify, modify | output, output | update, update | timer, timer => true
  | _, _ => false
  end.

(** The ten top-level classes of [create()]: the subsystem objects. *)
Definition is_subsystem (p : Ptr) : bool :=
  match p with
  | memory | error | universe | input | cuda | citeme => false
  | _ => true
  end.

(** Communicators: the universe's, or the one [MPI_Comm_split] made for a
    colour. *)
Inductive MPI_Comm := uworld | split_comm (color : Z).

(** Scopes of the error reporter. *)
Inductive Scope := Process | World | Pool.

(* ------------------------------------------------------------------ *)
(** ** The trace *)

Inductive Event :=
| EvNew (p : Ptr) (c : Class)            (* p = new C(this) *)
| EvDelete (p : Ptr) (c : Class)         (* delete p, p pointing at a C *)
| EvInit (p : Ptr)                       (* p->init() *)
| EvAccelerator                          (* cuda->accelerator(0,NULL) *)
| EvCreateAvec (style : string) (sfx : option string)
| EvInputOne (cmd : string)              (* input->one(cmd) *)
| EvReorder (a b : string)               (* universe->reorder(a,b) *)
| EvCommSplit (color : Z)                (* MPI_Comm_split *)
| EvFopen (v : FileVar) (path mode : string) (ok : bool)
| EvPrint (f : FILE) (text : string)     (* fprintf(f,...) *)
| EvHelp (f : stream)                    (* help_message(f) *)
| EvFatal (sc : Scope) (msg : string)
| EvWarning (sc : Scope) (msg : string)
| EvMessage (msg : string)
| EvDone.

(** How a run ends when it does not return. *)
Inductive Halt :=
| Fatal (sc : Scope) (msg : string)   (* a fatal call into Error *)
| Finished                            (* error->done(): success *)
| Undefined                           (* behaviour C leaves undefined *)
| OutOfFuel.                          (* the model's loop bound *)

Inductive Outcome (A : Type) :=
| Ret (a : A)
| Stop (h : Halt).
Arguments Ret {A} a.
Arguments Stop {A} h.

(* ------------------------------------------------------------------ *)
(** ** The universe *)

Module Universe.

(** Modelled from the spec: the data members of class [Universe]
    ([universe.h] is not part of the source).  The constructor of
    [LAMMPS] reads [me], [existflag], [nworlds], [iworld], [uscreen] and
    [ulogfile]; [worlds] is the ordered list of world sizes. *)
Record t := mk {
  me : Z;
  nprocs : Z;
  existflag : Z;
  worlds : list Z;
  iworld : Z;
  uscreen : stream;
  ulogfile : stream
}.

Definition nworlds (u : t) : Z := Z.of_nat (List.length (worlds u)).

Definition set_existflag (v : Z) (u : t) : t :=
  mk (me u) (nprocs u) v (worlds u) (iworld u) (uscreen u) (ulogfile u).
Definition set_worlds (ws : list Z) (i : Z) (u : t) : t :=
  mk (me u) (nprocs u) (existflag u) ws i (uscreen u) (ulogfile u).
Definition set_uscreen (f : stream) (u : t) : t :=
  mk (me u) (nprocs u) (existflag u) (worlds u) (iworld u) f (ulogfile u).
Definition set_ulogfile (f : stream) (u : t) : t :=
  mk (me u) (nprocs u) (existflag u) (worlds u) (iworld u) (uscreen u) f.

(** Modelled from the spec: the constructor [Universe::Universe].  The
    pool is the communicator's; no world and no partition flag yet; the
    interactive stream defaults to standard output, the log to none. *)
Definition create (E : Env) : t :=
  mk (comm_rank E) (comm_size E) 0 [] 0 (Some stdout) None.

(** Modelled from the spec: a world is an interval of pool ranks, the
    worlds follow one another from rank 0 in the order they were
    declared.  [world_of_from i root ws r] is the index of the world
    holding rank [r], when [ws] are the sizes of the worlds from index
    [i] on and [root] is the first rank of world [i]. *)
Fixpoint world_of_from (i root : Z) (ws : list Z) (r : Z) : Z :=
  match ws with
  | [] => i
  | n :: ws' =>
      if r <? root + n then i else world_of_from (i + 1) (root + n) ws' r
  end.

Definition world_of (ws : list Z) (r : Z) : Z := world_of_from 0 0 ws r.

(** Modelled from the spec: [Universe::add_world].  [NULL] declares the
    single implicit world spanning the pool; a word after [-partition]
    declares the worlds of the sizes it names.  The process's own world
    index is kept up to date. *)
Definition add_world (E : Env) (str : option string) (u : t) : t :=
  let ws := worlds u ++
            match str with
            | None => [nprocs u]
            | Some w => directive_sizes E w
            end in
  set_worlds ws (world_of ws (me u)) u.

Definition total (ws : list Z) : Z := fold_right Z.add 0 ws.

(** Modelled from the spec: [Universe::consistent].  "sum of procs in
    all worlds must equal total # of procs". *)
Definition consistent (u : t) : bool := total (worlds u) =? nprocs u.

(** [MPI_Comm_rank] of pool rank [r] in the communicator that
    [MPI_Comm_split(uworld, iworld, 0, &world)] gives it: all keys are
    equal, so the processes of one colour keep their pool order, and the
    rank is the number of lower pool ranks with the same colour. *)
Definition rank_in_split (ws : list Z) (r : Z) : Z :=
  Z.of_nat (List.length (filter
    (fun q => world_of ws q =? world_of ws r)
    (map Z.of_nat (seq 0 (Z.to_nat r))))).

Definition split_rank (u : t) : Z := rank_in_split (worlds u) (me u).

End Universe.

(* ------------------------------------------------------------------ *)
(** ** The state of a run *)

(** The local variables of the constructor that outlive the switch loop. *)
Record Locals := mkLocals {
  inflag : Z;
  screenflag : Z;
  logflag : Z;
  partscreenflag : Z;
  partlogflag : Z;
  cudaflag : Z;
  citeflag : Z;
  helpflag : Z
}.

Definition set_inflag (v : Z) (l : Locals) : Locals :=
  mkLocals v (screenflag l) (logflag l) (partscreenflag l) (partlogflag l)
           (cudaflag l) (citeflag l) (helpflag l).
Definition set_screenflag (v : Z) (l : Locals) : Locals :=
  mkLocals (inflag l) v (logflag l) (partscreenflag l) (partlogflag l)
           (cudaflag l) (citeflag l) (helpflag l).
Definition set_logflag (v : Z) (l : Locals) : Locals :=
  mkLocals (inflag l) (screenflag l) v (partscreenflag l) (partlogflag l)
           (cudaflag l) (citeflag l) (helpflag l).
Definition set_partscreenflag (v : Z) (l : Locals) : Locals :=
  mkLocals (inflag l) (screenflag l) (logflag l) v (partlogflag l)
           (cudaflag l) (citeflag l) (helpflag l).
Definition set_partlogflag (v : Z) (l : Locals) : Locals :=
  mkLocals (inflag l) (screenflag l) (logflag l) (partscreenflag l) v
           (cudaflag l) (citeflag l) (helpflag l).
Definition set_cudaflag (v : Z) (l : Locals) : Locals :=
  mkLocals (inflag l) (screenflag l) (logflag l) (partscreenflag l)
           (partlogflag l) v (citeflag l) (helpflag l).
Definition set_citeflag (v : Z) (l : Locals) : Locals :=
  mkLocals (inflag l) (screenflag l) (logflag l) (partscreenflag l)
           (partlogflag l) (cudaflag l) v (helpflag l).
Definition set_helpflag (v : Z) (l : Locals) : Locals :=
  mkLocals (inflag l) (screenflag l) (logflag l) (partscreenflag l)
           (partlogflag l) (cudaflag l) (citeflag l) v.

(** The data members of class [LAMMPS] the file uses.  [uni] is the state
    of the object [universe] points at; [ptr p] is the dynamic class of
    the object behind pointer [p], [None] for [NULL]. *)
Record Members := mkMembers {
  uni : Universe.t;
  screen : stream;
  logfile : stream;
  infile : stream;
  world : MPI_Comm;
  suffix : option string;
  suffix_enable : Z;
  ptr : Ptr -> option Class
}.

Definition set_uni (u : Universe.t) (m : Members) : Members :=
  mkMembers u (screen m) (logfile m) (infile m) (world m) (suffix m)
            (suffix_enable m) (ptr m).
Definition set_screen (f : stream) (m : Members) : Members :=
  mkMembers (uni m) f (logfile m) (infile m) (world m) (suffix m)
            (suffix_enable m) (ptr m).
Definition set_logfile (f : stream) (m : Members) : Members :=
  mkMembers (uni m) (screen m) f (infile m) (world m) (suffix m)
            (suffix_enable m) (ptr m).
Definition set_infile (f : stream) (m : Members) : Members :=
  mkMembers (uni m) (screen m) (logfile m) f (world m) (suffix m)
            (suffix_enable m) (ptr m).
Definition set_world (c : MPI_Comm) (m : Members) : Members :=
  mkMembers (uni m) (screen m) (logfile m) (infile m) c (suffix m)
            (suffix_enable m) (ptr m).
Definition set_suffix (s : option string) (m : Members) : Members :=
  mkMembers (uni m) (screen m) (logfile m) (infile m) (world m) s
            (suffix_enable m) (ptr m).
Definition set_suffix_enable (v : Z) (m : Members) : Members :=
  mkMembers (uni m) (screen m) (logfile m) (infile m) (world m) (suffix m)
            v (ptr m).
Definition set_ptr (p : Ptr) (c : option Class) (m : Members) : Members :=
  mkMembers (uni m) (screen m) (logfile m) (infile m) (world m) (suffix m)
            (suffix_enable m)
            (fun q => if Ptr_eqb q p then c else ptr m q).

Record State := mkState {
  lmp : Members;
  loc : Locals;
  trace : list Event
}.

(** The state before the constructor has run: no object, no event.  The
    constructor overwrites every member before it reads it. *)
Definition blank (E : Env) : State :=
  mkState
    (mkMembers (Universe.create E) None None None uworld None 0 (fun _ => None))
    (mkLocals 0 0 0 0 0 0 0 0)
    [].

(* ------------------------------------------------------------------ *)
(** ** The monad: state, trace, early exit *)

Definition M (A : Type) : Type := State -> Outcome A * State.

Definition ret {A} (a : A) : M A := fun s => (Ret a, s).

Definition bind {A B} (m : M A) (k : A -> M B) : M B :=
  fun s =>
    match m s with
    | (Ret a, s') => k a s'
    | (Stop h, s') => (Stop h, s')
    end.

Notation "x <- m ;; k" := (bind m (fun x => k))
  (at level 61, m at next level, right associativity).
Notation "m ;; k" := (bind m (fun _ => k))
  (at level 61, right associativity).

Definition halt {A} (h : Halt) : M A := fun s => (Stop h, s).

Definition gets {A} (f : State -> A) : M A := fun s => (Ret (f s), s).

Definition emit (e : Event) : M unit :=
  fun s => (Ret tt, mkState (lmp s) (loc s) (trace s ++ [e])).

Definition upd_lmp (f : Members -> Members) : M unit :=
  fun s => (Ret tt, mkState (f (lmp s)) (loc s) (trace s)).

Definition upd_loc (f : Locals -> Locals) : M unit :=
  fun s => (Ret tt, mkState (lmp s) (f (loc s)) (trace s)).

Definition upd_uni (f : Universe.t -> Universe.t) : M unit :=
  upd_lmp (fun m => set_uni (f (uni m)) m).

(** [if (c) m;] *)
Definition when (c : bool) (m : M unit) : M unit :=
  if c then m else ret tt.

(** What a run leaves behind. *)
Definition outcome {A} (r : Outcome A * State) : Outcome A := fst r.
Definition final {A} (r : Outcome A * State) : State := snd r.

(* ------------------------------------------------------------------ *)
(** ** The error reporter *)

Module Error.

(** Modelled from the spec: the methods of class [Error] ([error.cpp]
    is not part of the source), after section 4.4 of the design: a fatal
    call reports at its scope and does not return; the warning and the
    informational message return; [done] ends the run successfully. *)

(** pool-wide fatal, every process of the pool calls it *)
Definition universe_all (msg : string) : M unit :=
  emit (EvFatal Pool msg) ;; halt (Fatal Pool msg).

(** fatal, called by one process of the pool *)
Definition universe_one (msg : string) : M unit :=
  emit (EvFatal Process msg) ;; halt (Fatal Process msg).

(** pool-wide warning, returns *)
Definition universe_warn (msg : string) : M unit :=
  emit (EvWarning Pool msg).

(** world-collective fatal, every process of the world calls it *)
Definition all (msg : string) : M unit :=
  emit (EvFatal World msg) ;; halt (Fatal World msg).

(** fatal, called by one process of a world *)
Definition one (msg : string) : M unit :=
  emit (EvFatal Process msg) ;; halt (Fatal Process msg).

(** informational, returns *)
Definition message (msg : string) : M unit :=
  emit (EvMessage msg).

(** clean shutdown *)
Definition done : M unit :=
  emit EvDone ;; halt Finished.

End Error.

(* ------------------------------------------------------------------ *)
(** ** Class LAMMPS *)

Module LAMMPS.

Section Run.

Context (E : Env).

(** *** Primitive actions *)

(** [p = new C(this)] *)
Definition new (p : Ptr) (c : Class) : M unit :=
  emit (EvNew p c) ;; upd_lmp (set_ptr p (Some c)).

(** [delete p]: nothing happens on [NULL]; the pointer keeps its value.
    The state does not record that the object is gone: a second
    [delete] of the same pointer, undefined in the language, shows as a
    second event, and the results below are about runs in which each
    object is deleted once. *)
Definition delete (p : Ptr) : M unit :=
  o <- gets (fun s => ptr (lmp s) p) ;;
  match o with
  | Some c => emit (EvDelete p c)
  | None => ret tt
  end.

(** [p->init()]: calling through [NULL] is undefined *)
Definition call_init (p : Ptr) : M unit :=
  o <- gets (fun s => ptr (lmp s) p) ;;
  match o with
  | Some _ => emit (EvInit p)
  | None => halt Undefined
  end.

(** [input->one(cmd)] *)
Definition input_one (cmd : string) : M unit :=
  o <- gets (fun s => ptr (lmp s) input) ;;
  match o with
  | Some _ => emit (EvInputOne cmd)
  | None => halt Undefined
  end.

(** [v = fopen(path,mode)] *)
Definition fopen (v : FileVar) (path mode : string) : M stream :=
  let ok := fopen_ok E path mode in
  emit (EvFopen v path mode ok) ;;
  ret (if ok then Some (opened path) else None).

(** [sprintf(str,...)] into [char str[cap]]: the text and its terminator
    must fit *)
Definition sprintf (cap : Z) (text : string) : M string :=
  if Z.of_nat (String.length text) <? cap then ret text else halt Undefined.

(** [fprintf(f,...)] *)
Definition fprintf (f : FILE) (text : string) : M unit :=
  emit (EvPrint f text).

(** [if (f) ...] on a stream *)
Definition if_open (f : stream) (k : FILE -> M unit) : M unit :=
  match f with
  | Some h => k h
  | None => ret tt
  end.

(** [MPI_Comm_rank(world,&me)] *)
Definition MPI_Comm_rank_world : M Z :=
  gets (fun s =>
          match world (lmp s) with
          | uworld => Universe.me (uni (lmp s))
          | split_comm _ => Universe.split_rank (uni (lmp s))
          end).

Definition the_uni : M Universe.t := gets (fun s => uni (lmp s)).
Definition the_loc : M Locals := gets loc.

(** *** [LAMMPS::create] (lines 473-504) *)

Definition create : M unit :=
  c <- gets (fun s => ptr (lmp s) cuda) ;;
  (if non_null c then new comm CommCuda else new comm Comm) ;;
  (if non_null c then new neighbor NeighborCuda else new neighbor Neighbor) ;;
  (if non_null c then new domain DomainCuda
   else if LMP_USER_OMP E then new domain DomainOMP
   else new domain Domain) ;;
  new atom Atom ;;
  sfx <- gets (fun s => suffix (lmp s)) ;;
  emit (EvCreateAvec "atomic" sfx) ;;
  new group Group ;;
  new force Force ;;
  (if non_null c then new modify ModifyCuda else new modify Modify) ;;
  new output Output ;;
  new update Update ;;
  new timer Timer.

(** *** [LAMMPS::post_create] (lines 512-518) *)

Definition post_create : M unit :=
  sfx <- gets (fun s => suffix (lmp s)) ;;
  en <- gets (fun s => suffix_enable (lmp s)) ;;
  match sfx with
  | Some x =>
      when (truthy en)
        (when (streq x "gpu") (input_one "package gpu force/neigh 0 0 1") ;;
         when (streq x "omp") (input_one "package omp *"))
  | None => ret tt
  end.

(** *** [LAMMPS::init] (lines 525-541) *)

Definition init : M unit :=
  c <- gets (fun s => ptr (lmp s) cuda) ;;
  when (non_null c) (emit EvAccelerator) ;;
  call_init update ;;
  call_init force ;;
  call_init domain ;;
  call_init atom ;;
  call_init modify ;;
  call_init neighbor ;;
  call_init comm ;;
  call_init output.

(** *** [LAMMPS::destroy] (lines 548-566) *)

Definition destroy : M unit :=
  delete update ;;
  delete neighbor ;;
  delete comm ;;
  delete force ;;
  delete group ;;
  delete output ;;
  delete modify ;;
  delete domain ;;
  delete atom ;;
  delete timer ;;
  upd_lmp (set_ptr modify None).

(** *** The constructor [LAMMPS::LAMMPS] (lines 65-432) *)

Context (args : list string).

Definition narg : Z := Z.of_nat (List.length args).

(** [arg[i]]; a read outside [arg[0..narg-1]] is undefined *)
Definition arg (i : Z) : M string :=
  if (0 <=? i) && (i <? narg)
  then ret (nth (Z.to_nat i) args EmptyString)
  else halt Undefined.

(** lines 67-87 *)
Definition fundamental : M unit :=
  new memory Memory ;;
  new error Error ;;
  new universe Universe ;;
  upd_uni (fun _ => Universe.create E) ;;
  upd_lmp (set_ptr output None) ;;
  upd_lmp (set_screen None) ;;
  upd_lmp (set_logfile None) ;;
  upd_loc (fun _ => mkLocals 0 0 0 0 0 (-1) 1 0) ;;
  upd_lmp (set_suffix None) ;;
  upd_lmp (set_suffix_enable 0).

Definition invalid : M unit :=
  Error.universe_all "Invalid command-line argument".

Definition switch (a long short : string) : bool :=
  streq a long || streq a short.

(** lines 97-100: the words after [-partition], [rest] being
    [arg[iarg..narg-1]] *)
Fixpoint partition_words (rest : list string) (iarg : Z) : M Z :=
  match rest with
  | [] => ret iarg
  | w :: rest' =>
      if starts_dash w then ret iarg
      else upd_uni (Universe.add_world E (Some w)) ;;
           partition_words rest' (iarg + 1)
  end.

(** line 124: the further values of [-var] *)
Fixpoint var_words (rest : list string) (iarg : Z) : Z :=
  match rest with
  | [] => iarg
  | w :: rest' =>
      if starts_dash w then iarg else var_words rest' (iarg + 1)
  end.

(** lines 91-179: one turn of the switch loop; returns the new [iarg] *)
Definition parse_switch (iarg : Z) : M Z :=
  a <- arg iarg ;;
  if switch a "-partition" "-p" then
    upd_uni (Universe.set_existflag 1) ;;
    when (iarg + 2 >? narg) invalid ;;
    partition_words (skipn (Z.to_nat (iarg + 1)) args) (iarg + 1)
  else if switch a "-in" "-i" then
    when (iarg + 2 >? narg) invalid ;;
    upd_loc (set_inflag (iarg + 1)) ;;
    ret (iarg + 2)
  else if switch a "-screen" "-sc" then
    when (iarg + 2 >? narg) invalid ;;
    upd_loc (set_screenflag (iarg + 1)) ;;
    ret (iarg + 2)
  else if switch a "-log" "-l" then
    when (iarg + 2 >? narg) invalid ;;
    upd_loc (set_logflag (iarg + 1)) ;;
    ret (iarg + 2)
  else if switch a "-var" "-v" then
    when (iarg + 3 >? narg) invalid ;;
    ret (var_words (skipn (Z.to_nat (iarg + 3)) args) (iarg + 3))
  else if switch a "-echo" "-e" then
    when (iarg + 2 >? narg) invalid ;;
    ret (iarg + 2)
  else if switch a "-pscreen" "-ps" then
    when (iarg + 2 >? narg) invalid ;;
    upd_loc (set_partscreenflag (iarg + 1)) ;;
    ret (iarg + 2)
  else if switch a "-plog" "-pl" then
    when (iarg + 2 >? narg) invalid ;;
    upd_loc (set_partlogflag (iarg + 1)) ;;
    ret (iarg + 2)
  else if switch a "-cuda" "-c" then
    when (iarg + 2 >? narg) invalid ;;
    v <- arg (iarg + 1) ;;
    (if streq v "on" then upd_loc (set_cudaflag 1)
     else if streq v "off" then upd_loc (set_cudaflag 0)
     else invalid) ;;
    ret (iarg + 2)
  else if switch a "-suffix" "-sf" then
    when (iarg + 2 >? narg) invalid ;;
    v <- arg (iarg + 1) ;;
    upd_lmp (set_suffix (Some v)) ;;
    upd_lmp (set_suffix_enable 1) ;;
    ret (iarg + 2)
  else if switch a "-reorder" "-r" then
    when (iarg + 3 >? narg) invalid ;;
    u <- the_uni ;;
    when (truthy (Universe.existflag u))
      (Error.universe_all "Cannot use -reorder after -partition") ;;
    v1 <- arg (iarg + 1) ;;
    v2 <- arg (iarg + 2) ;;
    emit (EvReorder v1 v2) ;;
    ret (iarg + 3)
  else if switch a "-nocite" "-nc" then
    upd_loc (set_citeflag 0) ;;
    ret (iarg + 1)
  else if switch a "-help" "-h" then
    when (iarg + 1 >? narg) invalid ;;
    upd_loc (set_helpflag 1) ;;
    upd_loc (set_citeflag 0) ;;
    ret (iarg + 1)
  else
    invalid ;; ret iarg.

(** lines 89-180: [while (iarg < narg)] *)
Fixpoint switches (fuel : nat) (iarg : Z) : M unit :=
  if iarg <? narg then
    match fuel with
    | O => halt OutOfFuel
    | S fuel' => iarg' <- parse_switch iarg ;; switches fuel' iarg'
    end
  else ret tt.

(** lines 182-204 *)
Definition check_partition : M unit :=
  u0 <- the_uni ;;
  when (Universe.existflag u0 =? 0) (upd_uni (Universe.add_world E None)) ;;
  u <- the_uni ;;
  l <- the_loc ;;
  when (negb (Universe.consistent u))
    (Error.universe_all "Processor partitions are inconsistent") ;;
  when (truthy (Universe.existflag u) && (inflag l =? 0))
    (Error.universe_all "Must use -in switch with multiple partitions") ;;
  when ((Universe.existflag u =? 0) && truthy (partscreenflag l))
    (Error.universe_all "Can only use -pscreen with multiple partitions") ;;
  when ((Universe.existflag u =? 0) && truthy (partlogflag l))
    (Error.universe_all "Can only use -plog with multiple partitions").

(** lines 209-217: the universe screen, on pool rank 0 *)
Definition root_uscreen (l : Locals) : M unit :=
  if screenflag l =? 0 then
    upd_uni (Universe.set_uscreen (Some stdout))
  else
    a <- arg (screenflag l) ;;
    if streq a "none" then
      upd_uni (Universe.set_uscreen None)
    else
      f <- fopen v_uscreen a "w" ;;
      upd_uni (Universe.set_uscreen f) ;;
      when (is_null f)
        (Error.universe_one "Cannot open universe screen file").

(** lines 218-230: the universe log file, on pool rank 0 *)
Definition root_ulogfile (l : Locals) : M unit :=
  if logflag l =? 0 then
    when (helpflag l =? 0)
      (f <- fopen v_ulogfile "log.lammps" "w" ;;
       upd_uni (Universe.set_ulogfile f) ;;
       when (is_null f)
         (Error.universe_warn "Cannot open log.lammps for writing"))
  else
    a <- arg (logflag l) ;;
    if streq a "none" then
      upd_uni (Universe.set_ulogfile None)
    else
      f <- fopen v_ulogfile a "w" ;;
      upd_uni (Universe.set_ulogfile f) ;;
      when (is_null f)
        (Error.universe_one "Cannot open universe log file").

(** lines 206-237 *)
Definition universe_streams : M unit :=
  u <- the_uni ;;
  l <- the_loc ;;
  when (Universe.me u =? 0)
    (root_uscreen l ;; root_ulogfile l) ;;
  when (Universe.me u >? 0)
    ((if screenflag l =? 0
      then upd_uni (Universe.set_uscreen (Some stdout))
      else upd_uni (Universe.set_uscreen None)) ;;
     upd_uni (Universe.set_ulogfile None)).

Definition banner : string := "LAMMPS (" +++ version E +++ ")" +++ nl.

(** lines 245-263: no partition switch, the world is the universe *)
Definition single_world : M unit :=
  u <- the_uni ;;
  l <- the_loc ;;
  upd_lmp (set_screen (Universe.uscreen u)) ;;
  upd_lmp (set_logfile (Universe.ulogfile u)) ;;
  upd_lmp (set_world uworld) ;;
  upd_lmp (set_infile None) ;;
  when (Universe.me u =? 0)
    ((if inflag l =? 0 then upd_lmp (set_infile (Some stdin))
      else a <- arg (inflag l) ;;
           f <- fopen v_infile a "r" ;;
           upd_lmp (set_infile f)) ;;
     f <- gets (fun s => infile (lmp s)) ;;
     when (is_null f)
       (a <- arg (inflag l) ;;
        str <- sprintf 128 ("Cannot open input script " +++ a) ;;
        Error.one str)) ;;
  when (Universe.me u =? 0)
    (scr <- gets (fun s => screen (lmp s)) ;;
     if_open scr (fun f => fprintf f banner) ;;
     lg <- gets (fun s => logfile (lmp s)) ;;
     if_open lg (fun f => fprintf f banner)).

(** lines 275-297: the screen of a world *)
Definition world_screen (u : Universe.t) (l : Locals) (me : Z) : M unit :=
  if me =? 0 then
    if partscreenflag l =? 0 then
      if screenflag l =? 0 then
        str <- sprintf 32 ("screen." +++ dec (Universe.iworld u)) ;;
        f <- fopen v_screen str "w" ;;
        upd_lmp (set_screen f) ;;
        when (is_null f) (Error.one "Cannot open screen file")
      else
        a <- arg (screenflag l) ;;
        if streq a "none" then
          upd_lmp (set_screen None)
        else
          str <- sprintf 128 (a +++ "." +++ dec (Universe.iworld u)) ;;
          f <- fopen v_screen str "w" ;;
          upd_lmp (set_screen f) ;;
          when (is_null f) (Error.one "Cannot open screen file")
    else
      a <- arg (partscreenflag l) ;;
      if streq a "none" then
        upd_lmp (set_screen None)
      else
        str <- sprintf 128 (a +++ "." +++ dec (Universe.iworld u)) ;;
        f <- fopen v_screen str "w" ;;
        upd_lmp (set_screen f) ;;
        when (is_null f) (Error.one "Cannot open screen file")
  else
    upd_lmp (set_screen None).

(** lines 299-321: the log file of a world *)
Definition world_logfile (u : Universe.t) (l : Locals) (me : Z) : M unit :=
  if me =? 0 then
    if partlogflag l =? 0 then
      if logflag l =? 0 then
        str <- sprintf 32 ("log.lammps." +++ dec (Universe.iworld u)) ;;
        f <- fopen v_logfile str "w" ;;
        upd_lmp (set_logfile f) ;;
        when (is_null f) (Error.one "Cannot open logfile")
      else
        a <- arg (logflag l) ;;
        if streq a "none" then
          upd_lmp (set_logfile None)
        else
          str <- sprintf 128 (a +++ "." +++ dec (Universe.iworld u)) ;;
          f <- fopen v_logfile str "w" ;;
          upd_lmp (set_logfile f) ;;
          when (is_null f) (Error.one "Cannot open logfile")
    else
      a <- arg (partlogflag l) ;;
      if streq a "none" then
        upd_lmp (set_logfile None)
      else
        str <- sprintf 128 (a +++ "." +++ dec (Universe.iworld u)) ;;
        f <- fopen v_logfile str "w" ;;
        upd_lmp (set_logfile f) ;;
        when (is_null f) (Error.one "Cannot open logfile")
  else
    upd_lmp (set_logfile None).

(** lines 323-330: the input script of a world *)
Definition world_infile (l : Locals) (me : Z) : M unit :=
  if me =? 0 then
    a <- arg (inflag l) ;;
    f <- fopen v_infile a "r" ;;
    upd_lmp (set_infile f) ;;
    when (is_null f)
      (str <- sprintf 128 ("Cannot open input script " +++ a) ;;
       Error.one str)
  else
    upd_lmp (set_infile None).

(** lines 334-356: the identification lines *)
Definition world_banners (me : Z) : M unit :=
  u <- the_uni ;;
  when (Universe.me u =? 0)
    (let parts := "Running on " +++ dec (Universe.nworlds u)
                  +++ " partitions of processors" +++ nl in
     if_open (Universe.uscreen u)
       (fun f => fprintf f banner ;; fprintf f parts) ;;
     if_open (Universe.ulogfile u)
       (fun f => fprintf f banner ;; fprintf f parts)) ;;
  when (me =? 0)
    (let part := "Processor partition = " +++ dec (Universe.iworld u)
                 +++ nl in
     scr <- gets (fun s => screen (lmp s)) ;;
     if_open scr (fun f => fprintf f banner ;; fprintf f part) ;;
     lg <- gets (fun s => logfile (lmp s)) ;;
     if_open lg (fun f => fprintf f banner ;; fprintf f part)).

(** lines 270-357: the partition switch was given *)
Definition multi_world : M unit :=
  u <- the_uni ;;
  l <- the_loc ;;
  emit (EvCommSplit (Universe.iworld u)) ;;
  upd_lmp (set_world (split_comm (Universe.iworld u))) ;;
  me <- MPI_Comm_rank_world ;;
  world_screen u l me ;;
  world_logfile u l me ;;
  world_infile l me ;;
  world_banners me.

(** lines 239-357 *)
Definition world_streams : M unit :=
  u <- the_uni ;;
  if Universe.existflag u =? 0 then single_world else multi_world.

(** lines 359-389 *)
Definition check_datatypes : M unit :=
  when (negb (sizeof_smallint E =? sizeof_int E))
    (Error.all "Smallint setting in lmptype.h is invalid") ;;
  when (sizeof_tagint E <? sizeof_smallint E)
    (Error.all "Tagint setting in lmptype.h is invalid") ;;
  when (sizeof_bigint E <? sizeof_tagint E)
    (Error.all "Bigint setting in lmptype.h is invalid") ;;
  when (negb (mpi_size_tagint E =? sizeof_tagint E))
    (Error.all "MPI_LMP_TAGINT and tagint in lmptype.h are not compatible") ;;
  when (negb (mpi_size_bigint E =? sizeof_bigint E))
    (Error.all "MPI_LMP_BIGINT and bigint in lmptype.h are not compatible") ;;
  when (LAMMPS_SMALLBIG E)
    (when (negb (sizeof_smallint E =? 4) || negb (sizeof_tagint E =? 4)
           || negb (sizeof_bigint E =? 8))
       (Error.all "Small, tag, big integers are not sized correctly")) ;;
  when (LAMMPS_BIGBIG E)
    (when (negb (sizeof_smallint E =? 4) || negb (sizeof_tagint E =? 8)
           || negb (sizeof_bigint E =? 8))
       (Error.all "Small, tag, big integers are not sized correctly")) ;;
  when (LAMMPS_SMALLSMALL E)
    (when (negb (sizeof_smallint E =? 4) || negb (sizeof_tagint E =? 4)
           || negb (sizeof_bigint E =? 4))
       (Error.all "Small, tag, big integers are not sized correctly")).

(** lines 391-406 *)
Definition accelerator : M unit :=
  l <- the_loc ;;
  if cudaflag l =? 0 then
    upd_lmp (set_ptr cuda None)
  else if cudaflag l =? 1 then
    new cuda Cuda ;;
    when (negb (cuda_exists E))
      (Error.all "Cannot use -cuda on without USER-CUDA installed")
  else
    new cuda Cuda ;;
    when (negb (cuda_exists E))
      (delete cuda ;; upd_lmp (set_ptr cuda None)).

(** lines 408-410 *)
Definition notice : M unit :=
  me <- MPI_Comm_rank_world ;;
  c <- gets (fun s => ptr (lmp s) cuda) ;;
  when (non_null c && (me =? 0))
    (Error.message "USER-CUDA mode is enabled").

(** lines 412-419 *)
Definition cite_and_input : M unit :=
  l <- the_loc ;;
  (if truthy (citeflag l) then new citeme CiteMe
   else upd_lmp (set_ptr citeme None)) ;;
  new input Input.

(** lines 426-431 *)
Definition help : M unit :=
  l <- the_loc ;;
  when (truthy (helpflag l))
    (u <- the_uni ;;
     when (Universe.me u =? 0)
       (scr <- gets (fun s => screen (lmp s)) ;; emit (EvHelp scr)) ;;
     Error.done).

(** The stages of the constructor, in order. *)
Definition startup : M unit :=
  fundamental ;; switches (List.length args) 1.

Definition streams : M unit :=
  check_partition ;; universe_streams ;; world_streams.

Definition variant : M unit :=
  check_datatypes ;; accelerator ;; notice.

Definition top_level : M unit :=
  cite_and_input ;; create ;; post_create ;; help.

Definition LAMMPS : M unit :=
  startup ;; streams ;; variant ;; top_level.

End Run.

End LAMMPS.


(* ------------------------------------------------------------------ *)
(** ** The destructor [LAMMPS::~LAMMPS] (lines 442-465)

    Beside [delete], the destructor closes streams, frees the world's
    communicator and the suffix; its log holds these next to the events of
    the objects, in the order of the calls. *)

Inductive Release :=
| Fclose (v : FileVar) (f : FILE)       (* fclose(v), v holding f *)
| CommFree (c : MPI_Comm)               (* MPI_Comm_free(&world) *)
| DeleteSuffix (s : option string).     (* delete [] suffix *)

Inductive Action :=
| Obj (e : Event)
| Rel (r : Release).

Definition FILE_is_stdout (f : FILE) : bool :=
  match f with stdout => true | _ => false end.

Definition MPI_Comm_eqb (a b : MPI_Comm) : bool :=
  match a, b with
  | uworld, uworld => true
  | split_comm i, split_comm j => i =? j
  | _, _ => false
  end.

Module Destructor.

(** A run of the destructor: the state of the object and the log. *)
Definition D (A : Type) : Type :=
  State * list Action -> Outcome A * (State * list Action).

(** A piece of the class's own code: its events go to the log as well. *)
Definition obj {A} (m : M A) : D A :=
  fun st =>
    let r := m (fst st) in
    (outcome r,
     (final r,
      snd st ++ map Obj (skipn (List.length (trace (fst st)))
                               (trace (final r))))).

Definition rel (r : Release) : D unit :=
  fun st => (Ret tt, (fst st, snd st ++ [Rel r])).

Definition seq {A B} (m : D A) (k : D B) : D B :=
  fun st =>
    match m st with
    | (Ret _, st') => k st'
    | (Stop h, st') => (Stop h, st')
    end.

Definition skip : D unit := fun st => (Ret tt, st).

(** [if (f) fclose(f)] *)
Definition fclose_if_open (v : FileVar) (f : stream) : D unit :=
  match f with
  | Some h => rel (Fclose v h)
  | None => skip
  end.

(** lines 448-454 *)
Definition close_streams : D unit :=
  fun st =>
    let m := lmp (fst st) in
    (if Universe.nworlds (uni m) =? 1 then
       fclose_if_open v_logfile (logfile m)
     else
       seq (match screen m with
            | Some h => if FILE_is_stdout h then skip
                        else rel (Fclose v_screen h)
            | None => skip
            end)
      (seq (fclose_if_open v_logfile (logfile m))
           (fclose_if_open v_ulogfile (Universe.ulogfile (uni m))))) st.

(** line 456; [universe->uworld] is the communicator [uworld] *)
Definition free_world : D unit :=
  fun st =>
    let w := world (lmp (fst st)) in
    (if MPI_Comm_eqb w uworld then skip else rel (CommFree w)) st.

(** line 459 *)
Definition delete_suffix : D unit :=
  fun st => rel (DeleteSuffix (suffix (lmp (fst st)))) st.

Definition destructor : D unit :=
  seq (obj LAMMPS.destroy)
 (seq (obj (LAMMPS.delete citeme))
 (seq close_streams
 (seq free_world
 (seq (obj (LAMMPS.delete cuda))
 (seq delete_suffix
 (seq (obj (LAMMPS.delete input))
 (seq (obj (LAMMPS.delete universe))
 (seq (obj (LAMMPS.delete error))
      (obj (LAMMPS.delete memory)))))))))).

(** The destructor run on the object in state [s]. *)
Definition run (s : State) : Outcome unit * (State * list Action) :=
  destructor (s, []).

End Destructor.

(* ------------------------------------------------------------------ *)
(** ** The help message (lines 572-808) *)

(** [strcmp]: the sign of the first difference, the bytes read as
    [unsigned char]; a string that is a prefix of the other comes
    first. *)
Fixpoint strcmp (a b : string) : comparison :=
  match a, b with
  | EmptyString, EmptyString => Eq
  | EmptyString, String _ _ => Lt
  | String _ _, EmptyString => Gt
  | String c a', String d b' =>
      match N.compare (N_of_ascii c) (N_of_ascii d) with
      | Eq => strcmp a' b'
      | r => r
      end
  end.

(** lines 768-771 *)
Definition cmpstringp (p1 p2 : string) : comparison := strcmp p1 p2.

(** [qsort(base,num,size,cmp)]: the array in ascending order of [cmp].
    The C library leaves the method open; here by insertion. *)
Fixpoint insert (cmp : string -> string -> comparison) (x : string)
         (l : list string) : list string :=
  match l with
  | [] => [x]
  | y :: l' =>
      match cmp x y with
      | Gt => y :: insert cmp x l'
      | _ => x :: l
      end
  end.

Definition qsort (cmp : string -> string -> comparison) (l : list string)
  : list string :=
  fold_right (insert cmp) [] l.

(** [isupper] in the C locale *)
Definition isupper (c : ascii) : bool :=
  ((65 <=? N_of_ascii c) && (N_of_ascii c <=? 90))%N.

(** [s[0]]; of the empty string, the terminator *)
Definition first_char (s : string) : ascii :=
  match s with
  | String c _ => c
  | EmptyString => Ascii.zero
  end.

Fixpoint spaces (n : nat) : string :=
  match n with
  | O => EmptyString
  | S n' => String " " (spaces n')
  end.

(** ["%-ws"]: left-justified in a field of [w], never cut *)
Definition left_justify (w : nat) (s : string) : string :=
  s +++ spaces (w - String.length s).

(** lines 780-807: the loop over the sorted array, [pos] being the
    column; what is written, call by call *)
Fixpoint columns (pos : Z) (styles : list string) : list string :=
  match styles with
  | [] => []
  | s :: rest =>
      if isupper (first_char s) then columns pos rest
      else
        let len := Z.of_nat (String.length s) in
        let wrap := pos + len >? 80 in
        let pos' := if wrap then 0 else pos in
        let w := if len <? 16 then 16
                 else if len <? 32 then 32
                 else if len <? 48 then 48
                 else if len <? 64 then 64
                 else 80 in
        (if wrap then [nl] else [])
        ++ left_justify (Z.to_nat w) s :: columns (pos' + w) rest
  end.

(** lines 773-808 *)
Definition print_columns (styles : list string) : list string :=
  columns 80 (qsort cmpstringp styles).

(** What [help_message] reads from its surroundings: the environment
    variable, the shell, and the style tables of the [style_*.h] headers
    (the keys of each header in the order of its macro calls). *)
Record HelpEnv := mkHelpEnv {
  PAGER : option string;
  popen_ok : string -> bool;
  atom_styles : list string;
  integrate_styles : list string;
  minimize_styles : list string;
  pair_styles : list string;
  bond_styles : list string;
  angle_styles : list string;
  dihedral_styles : list string;
  improper_styles : list string;
  kspace_styles : list string;
  fix_styles : list string;
  compute_styles : list string;
  region_styles : list string;
  dump_styles : list string;
  command_styles : list string
}.

(** Where the text goes: a stream, or the pipe to the pager. *)
Inductive Target := to_stream (f : FILE) | to_pipe (cmd : string).

Inductive HelpEvent :=
| HvNewStyles                            (* new const char *[nmax] *)
| HvPopen (cmd : string) (ok : bool)     (* popen(pager,"w") *)
| HvPut (t : Target) (text : string)     (* fputs, fprintf *)
| HvDeleteStyles                         (* delete[] styles *)
| HvPclose (cmd : string).               (* pclose(fp) *)

Definition nmax : nat := 500.

(** The expansion of a style header under
    [#define XStyle(key,Class) if (n<nmax) {styles[n]=#key; ++n;}]:
    the array filled from [n] on. *)
Fixpoint collect (n : nat) (keys : list string) : list string :=
  match keys with
  | [] => []
  | k :: keys' =>
      if (n <? nmax)%nat then k :: collect (S n) keys'
      else collect n keys'
  end.

Definition unlines (l : list string) : string :=
  String.concat EmptyString (map (fun x => x +++ nl) l).

Definition usage_text : string :=
  nl +++ unlines
    [ "Usage example: lmp_g++ -v t 300 -log none -nc -echo screen -in in.alloy";
      "" ]%string.

Definition options_text : string :=
  unlines
    [ "List of command line options supported by this executable:";
      "-cuda on/off                : turn CUDA mode on or off (-c)";
      "-echo none/screen/log/both  : select how to echo input (-e)";
      "-in <filename>              : read input from file not stdin (-i)";
      "-help                       : print this help message (-h)";
      "-log none/<filename>        : where to send log output (-l)";
      "-nocite                     : disable writing log.cite file (-nc)";
      "-partition <partition size> : assign partition sizes (-p)";
      "-plog <basename>            : basename for partition logs (-pl)";
      "-pscreen <basename>         : basename for partition screens (-ps)";
      "-reorder <topology specs>   : processor reordering (-r)";
      "-screen none/<filename>     : where to send screen output (-sc)";
      "-suffix cuda/gpu/opt/omp    : style suffix to apply (-sf)";
      "-var <varname> <value>      : set index style variable (-v)"
    ]%string.

Definition styles_text : string :=
  nl +++ unlines
    [ "List of style options included in this executable:"; "" ]%string.

Definition nmax_warning : string :=
  nl +++ "WARNING: not showing all styles. Increase nmax.".

(** One block of lines 619-757: the title, the columns, the warning when
    the array is full, the blank line. *)
Definition style_section (title : string) (keys : list string)
  : list string :=
  let styles := collect 0 keys in
  [title] ++ print_columns styles
  ++ (if (List.length styles =? nmax)%nat then [nmax_warning] else [])
  ++ [nl +++ nl].

(** lines 598-757: everything written to [fp] *)
Definition help_text (H : HelpEnv) : list string :=
  [usage_text; options_text; styles_text]
  ++ style_section "* Atom styles:" (atom_styles H)
  ++ style_section "* Integrate styles:" (integrate_styles H)
  ++ style_section "* Minimize styles:" (minimize_styles H)
  ++ style_section "* Pair styles:" (pair_styles H)
  ++ style_section "* Bond styles:" (bond_styles H)
  ++ style_section "* Angle styles:" (angle_styles H)
  ++ style_section "* Dihedral styles:" (dihedral_styles H)
  ++ style_section "* Improper styles:" (improper_styles H)
  ++ style_section "* KSpace styles:" (kspace_styles H)
  ++ style_section "* Fix styles:" (fix_styles H)
  ++ style_section "* Compute styles:" (compute_styles H)
  ++ style_section "* Region styles:" (region_styles H)
  ++ style_section "* Dump styles:" (dump_styles H)
  ++ style_section "* Command styles (add-on input script commands):"
       (command_styles H).

(** lines 572-762 *)
Definition help_message (H : HelpEnv) (fp : stream) : list HelpEvent :=
  HvNewStyles ::
  match fp with
  | None => []
  | Some f =>
      let cmd := match PAGER H with Some p => p | None => "more"%string end in
      let piped := FILE_is_stdout f && popen_ok H cmd in
      let target := if piped then to_pipe cmd else to_stream f in
      (if FILE_is_stdout f then [HvPopen cmd (popen_ok H cmd)] else [])
      ++ map (HvPut target) (help_text H)
      ++ [HvDeleteStyles]
      ++ (if piped then [HvPclose cmd] else [])
  end.


(* ================================================================== *)
(** * Specification vocabulary *)

(** ** Runs of the constructor, stage by stage *)

(** Carry on with [k] where [r] returned; stay where [r] stopped. *)
Definition andthen {A} (r : Outcome unit * State) (k : M A)
  : Outcome A * State :=
  match r with
  | (Ret _, s) => k s
  | (Stop h, s) => (Stop h, s)
  end.

Section Stages.
Context (E : Env) (args : list string).

(** The whole constructor, from the blank state. *)
Definition run : Outcome unit * State := LAMMPS.LAMMPS E args (blank E).

(** The run up to the end of the switch loop, ... *)
Definition after_startup : Outcome unit * State :=
  LAMMPS.startup E args (blank E).
(** ... of the partition checks, ... *)
Definition after_partition : Outcome unit * State :=
  andthen after_startup (LAMMPS.check_partition E).
(** ... of the universe streams, ... *)
Definition after_universe : Outcome unit * State :=
  andthen after_partition (LAMMPS.universe_streams E args).
(** ... of the world streams (stream resolution is over), ... *)
Definition after_world : Outcome unit * State :=
  andthen after_universe (LAMMPS.world_streams E args).
(** ... of the datatype checks, ... *)
Definition after_datatypes : Outcome unit * State :=
  andthen after_world (LAMMPS.check_datatypes E).
(** ... of the choice of the accelerator (variant selection is over), *)
Definition after_accelerator : Outcome unit * State :=
  andthen after_datatypes (LAMMPS.accelerator E).
(** ... and of the notice. *)
Definition after_notice : Outcome unit * State :=
  andthen after_accelerator LAMMPS.notice.

(** The state the switch loop leaves, whether it returned or stopped. *)
Definition parsed : State := final after_startup.
End Stages.

(** The rank of the process in its world's communicator. *)
Definition world_rank (s : State) : Z :=
  match world (lmp s) with
  | uworld => Universe.me (uni (lmp s))
  | split_comm _ => Universe.split_rank (uni (lmp s))
  end.

(** ** Events *)

Definition is_fopen (e : Event) : bool :=
  match e with EvFopen _ _ _ _ => true | _ => false end.

(** an [fopen] for a pool-scope stream *)
Definition opens_universe (e : Event) : bool :=
  match e with
  | EvFopen v_uscreen _ _ _ | EvFopen v_ulogfile _ _ _ => true
  | _ => false
  end.

(** an [fopen] for a world-scope screen or log *)
Definition opens_world (e : Event) : bool :=
  match e with
  | EvFopen v_screen _ _ _ | EvFopen v_logfile _ _ _ => true
  | _ => false
  end.

Definition opens_ulogfile (e : Event) : bool :=
  match e with EvFopen v_ulogfile _ _ _ => true | _ => false end.

(** the construction of one of the ten top-level classes *)
Definition builds_subsystem (e : Event) : bool :=
  match e with EvNew p _ => is_subsystem p | _ => false end.

Definition builds (q : Ptr) (e : Event) : bool :=
  match e with EvNew p _ => Ptr_eqb p q | _ => false end.

(** a class of the accelerated variant *)
Definition accelerated (c : Class) : bool :=
  match c with
  | CommCuda | NeighborCuda | DomainCuda | ModifyCuda => true
  | _ => false
  end.

Definition builds_accelerated (e : Event) : bool :=
  match e with EvNew _ c => accelerated c | _ => false end.

Definition is_message (e : Event) : bool :=
  match e with EvMessage _ => true | _ => false end.

Definition is_fatal (e : Event) : bool :=
  match e with EvFatal _ _ => true | _ => false end.

(** The events of the start-up stage: the three fundamental classes, a
    reordering request, a pool-wide fatal error. *)
Definition quiet (e : Event) : Prop :=
  match e with
  | EvNew memory Memory | EvNew error Error | EvNew universe Universe => True
  | EvReorder _ _ => True
  | EvFatal Pool _ => True
  | _ => False
  end.

Definition pool_fatal (h : Halt) : Prop :=
  match h with Fatal Pool _ => True | _ => False end.

(** What [m] appends to the trace when started in [s]. *)
Definition emitted {A} (m : M A) (s : State) : list Event :=
  skipn (List.length (trace s)) (trace (final (m s))).

Definition delete_target (e : Event) : option Ptr :=
  match e with EvDelete p _ => Some p | _ => None end.

Definition new_target (e : Event) : option Ptr :=
  match e with EvNew p _ => Some p | _ => None end.

(** ** Messages *)

Definition cuda_missing : string :=
  "Cannot use -cuda on without USER-CUDA installed".
Definition cuda_notice : string := "USER-CUDA mode is enabled".
Definition log_warning : string := "Cannot open log.lammps for writing".

(** The pool-wide fatal errors of the constructor. *)
Definition pool_messages : list string :=
  [ "Invalid command-line argument";
    "Cannot use -reorder after -partition";
    "Processor partitions are inconsistent";
    "Must use -in switch with multiple partitions";
    "Can only use -pscreen with multiple partitions";
    "Can only use -plog with multiple partitions" ]%string.

(** ** The datatype settings *)

(** The MPI types do not have the sizes of [tagint] and [bigint]. *)
Definition mpi_mismatch (E : Env) : bool :=
  negb (mpi_size_tagint E =? sizeof_tagint E)
  || negb (mpi_size_bigint E =? sizeof_bigint E).

Definition sized (E : Env) (s t b : Z) : bool :=
  (sizeof_smallint E =? s) && (sizeof_tagint E =? t)
  && (sizeof_bigint E =? b).

(** All the tests of lines 359-389 pass. *)
Definition datatypes_ok (E : Env) : bool :=
  (sizeof_smallint E =? sizeof_int E)
  && negb (sizeof_tagint E <? sizeof_smallint E)
  && negb (sizeof_bigint E <? sizeof_tagint E)
  && negb (mpi_mismatch E)
  && (negb (LAMMPS_SMALLBIG E) || sized E 4 4 8)
  && (negb (LAMMPS_BIGBIG E) || sized E 4 8 8)
  && (negb (LAMMPS_SMALLSMALL E) || sized E 4 4 4).

Definition datatype_messages : list string :=
  [ "Smallint setting in lmptype.h is invalid";
    "Tagint setting in lmptype.h is invalid";
    "Bigint setting in lmptype.h is invalid";
    "MPI_LMP_TAGINT and tagint in lmptype.h are not compatible";
    "MPI_LMP_BIGINT and bigint in lmptype.h are not compatible";
    "Small, tag, big integers are not sized correctly" ]%string.

(** ** Invariants *)

(** A stream flag is unset or the index of a word after its switch. *)
Definition flag_ok (args : list string) (f : Z) : Prop :=
  f = 0 \/ 0 < f < LAMMPS.narg args.

Definition fundamental_ptr (p : Ptr) : option Class :=
  match p with
  | memory => Some Memory
  | error => Some Error
  | universe => Some Universe
  | _ => None
  end.

(** What holds of the locals once the switch loop is over. *)
Record LocalsInv (args : list string) (l : Locals) : Prop := {
  li_in : flag_ok args (inflag l);
  li_screen : flag_ok args (screenflag l);
  li_log : flag_ok args (logflag l);
  li_pscreen : flag_ok args (partscreenflag l);
  li_plog : flag_ok args (partlogflag l);
  li_help : helpflag l = 0 \/ helpflag l = 1 /\ citeflag l = 0;
  li_cite : citeflag l = 0 \/ citeflag l = 1;
  li_cuda : cudaflag l = -1 \/ cudaflag l = 0 \/ cudaflag l = 1;
  li_noin : Forall (fun a => LAMMPS.switch a "-in" "-i" = false) args ->
            inflag l = 0
}.

(** No stream is set, no communicator made, no class built beyond the
    fundamental three. *)
Record Untouched (s : State) : Prop := {
  un_uscreen : Universe.uscreen (uni (lmp s)) = Some stdout;
  un_ulogfile : Universe.ulogfile (uni (lmp s)) = None;
  un_screen : screen (lmp s) = None;
  un_logfile : logfile (lmp s) = None;
  un_infile : infile (lmp s) = None;
  un_world : world (lmp s) = uworld;
  un_ptr : forall p, ptr (lmp s) p = fundamental_ptr p
}.

(** What holds of the rest of the state during and after the switch
    loop: nothing but the partition has been touched. *)
Record StartupInv (E : Env) (args : list string) (s : State) : Prop := {
  si_loc : LocalsInv args (loc s);
  si_exist : Universe.existflag (uni (lmp s)) = 0
             /\ Universe.worlds (uni (lmp s)) = []
             \/ Universe.existflag (uni (lmp s)) = 1;
  si_me : Universe.me (uni (lmp s)) = comm_rank E;
  si_nprocs : Universe.nprocs (uni (lmp s)) = comm_size E;
  si_untouched : Untouched s;
  si_trace : Forall quiet (trace s)
}.

(** The part of the state that is settled once the partition has been
    checked. *)
Record Config := mkConfig {
  c_loc : Locals;
  c_me : Z;
  c_nprocs : Z;
  c_existflag : Z;
  c_worlds : list Z;
  c_iworld : Z
}.

Definition cfg (s : State) : Config :=
  let u := uni (lmp s) in
  mkConfig (loc s) (Universe.me u) (Universe.nprocs u) (Universe.existflag u)
           (Universe.worlds u) (Universe.iworld u).

(** What holds of it. *)
Record ConfigInv (E : Env) (args : list string) (c : Config) : Prop := {
  ci_loc : LocalsInv args (c_loc c);
  ci_me : c_me c = comm_rank E;
  ci_nprocs : c_nprocs c = comm_size E;
  ci_total : Universe.total (c_worlds c) = comm_size E;
  ci_exist : c_existflag c = 0 /\ c_worlds c = [comm_size E]
                /\ partscreenflag (c_loc c) = 0 /\ partlogflag (c_loc c) = 0
             \/ c_existflag c = 1 /\ inflag (c_loc c) <> 0
}.

(** ** Judgements on pieces of the program *)

Definition stopped {A} (o : Outcome A) : option Halt :=
  match o with Ret _ => None | Stop h => Some h end.

(** [traced proj R m]: whatever the start state, [m] leaves the projection
    [proj] of the state alone and only appends to the trace, and [R]
    relates what it appends to how it ends ([None]: it returns); [R] may
    look at the projection. *)
Definition traced {A C} (proj : State -> C)
           (R : C -> list Event -> option Halt -> Prop) (m : M A) : Prop :=
  forall s,
    proj (final (m s)) = proj s /\
    exists evs, trace (final (m s)) = trace s ++ evs /\
                R (proj s) evs (stopped (outcome (m s))).

(** The relations that go through sequencing. *)
Definition closed {C} (R : C -> list Event -> option Halt -> Prop) : Prop :=
  (forall c, R c [] None) /\
  (forall c e1 e2 o, R c e1 None -> R c e2 o -> R c (e1 ++ e2) o).

(** A relation that is only asked for at one value of the projection. *)
Definition given {C} (c0 : C) (R : C -> list Event -> option Halt -> Prop)
  : C -> list Event -> option Halt -> Prop :=
  fun c evs o => c = c0 -> R c evs o.

(** Every event satisfies [phi], a stop satisfies [eta]. *)
Definition each {C} (phi : C -> Event -> Prop) (eta : C -> Halt -> Prop)
  : C -> list Event -> option Halt -> Prop :=
  fun c evs o => Forall (phi c) evs /\ forall h, o = Some h -> eta c h.

Definition always {C X} : C -> X -> Prop := fun _ _ => True.

(** A fatal error is reported once, by the call that ends the run. *)
Definition fatal_once : unit -> list Event -> option Halt -> Prop :=
  fun _ evs o =>
    filter is_fatal evs =
    match o with
    | Some (Fatal sc msg) => [EvFatal sc msg]
    | _ => []
    end.

(** ** The rest of the constructor from each stage on, and its stretches
    between stages *)

Section Tails.
Context (E : Env) (args : list string).

Definition from_notice : M unit :=
  LAMMPS.notice ;; LAMMPS.top_level E.
Definition from_accelerator : M unit :=
  LAMMPS.accelerator E ;; from_notice.
Definition from_datatypes : M unit :=
  LAMMPS.check_datatypes E ;; from_accelerator.
Definition from_world : M unit :=
  LAMMPS.world_streams E args ;; from_datatypes.
Definition from_universe : M unit :=
  LAMMPS.universe_streams E args ;; from_world.

Definition to_world : M unit :=
  LAMMPS.universe_streams E args ;; LAMMPS.world_streams E args.
Definition to_datatypes : M unit :=
  to_world ;; LAMMPS.check_datatypes E.
Definition to_accelerator : M unit :=
  to_datatypes ;; LAMMPS.accelerator E.
End Tails.

(** ** The documented orders of the life cycle

    In the words of the design: communication layer [comm],
    neighbor-search engine [neighbor], spatial-domain manager [domain],
    particle-data store [atom], group registry [group], force-field
    registry [force], modifier/callback registry [modify], output-writer
    registry [output], time-integration driver [update], timing
    instrumentation [timer]. *)

Definition construction_order : list Ptr :=
  [comm; neighbor; domain; atom; group; force; modify; output; update; timer].

Definition initialization_order : list Ptr :=
  [update; force; domain; atom; modify; neighbor; comm; output].

Definition destruction_order : list Ptr :=
  [update; neighbor; comm; force; group; output; modify; domain; atom; timer].

(** The pointers set by the [new]s among some events, in order. *)
Definition built (evs : list Event) : list Ptr :=
  flat_map (fun e => match e with EvNew p _ => [p] | _ => [] end) evs.

Definition member (p : Ptr) (l : list Ptr) : bool := existsb (Ptr_eqb p) l.

(** ** Concrete runs *)

Module Examples.

(** A file system on which every [fopen] succeeds but for the paths of
    [bad]; a [-partition] word ["n"] for n = 1, 2, 3 declares one world
    of that size; a default build with 32-bit small and tag integers
    and 64-bit big integers. *)
Definition env (me n : Z) (bad : list string) (has_cuda : bool) : Env :=
  mkEnv me n "1 Feb 2014"
        (fun path _ => negb (existsb (String.eqb path) bad))
        (fun w => if String.eqb w "1" then [1]
                  else if String.eqb w "2" then [2]
                  else if String.eqb w "3" then [3]
                  else [0])
        has_cuda false true false false 4 4 4 8 4 8.

(** The same build with an MPI library whose tag integer type has eight
    bytes. *)
Definition env_mismatch (me n : Z) : Env :=
  mkEnv me n "1 Feb 2014" (fun _ _ => true) (fun _ => [1])
        false false true false false 4 4 4 8 8 8.

(** Command lines. *)
Definition bare : list string := ["lmp"]%string.
Definition help : list string := ["lmp"; "-help"]%string.
Definition cuda_on : list string := ["lmp"; "-cuda"; "on"]%string.
Definition cuda_off : list string := ["lmp"; "-cuda"; "off"]%string.
(** one world of two processes, two worlds of one process, one world of
    one process *)
Definition one_world_of_2 : list string :=
  ["lmp"; "-partition"; "2"; "-in"; "in.x"]%string.
Definition two_worlds_of_1 : list string :=
  ["lmp"; "-partition"; "1"; "1"; "-in"; "in.x"]%string.
Definition one_world_of_1 : list string :=
  ["lmp"; "-partition"; "1"; "-in"; "in.x"]%string.
(** a partition and no input script *)
Definition partition_no_in : list string :=
  ["lmp"; "-partition"; "2"; "-screen"; "none"]%string.
(** the help flag and two worlds of one process *)
Definition help_two_worlds_of_1 : list string :=
  ["lmp"; "-help"; "-partition"; "1"; "1"; "-in"; "in.x"]%string.

End Examples.

(** ** Five sentences of the specification, word for word

    Each is read on one run; the concrete runs at the end show where
    the constructor does otherwise. *)

Module AsStated.

(** "All other ranks receive null destinations for both": a process
    that has rank 0 neither in the pool nor in its world ends stream
    resolution with the four streams null. *)
Definition null_off_rank_0 (E : Env) (args : list string) : Prop :=
  forall s, after_world E args = (Ret tt, s) ->
    comm_rank E <> 0 -> world_rank s <> 0 ->
    Universe.uscreen (uni (lmp s)) = None /\
    Universe.ulogfile (uni (lmp s)) = None /\
    screen (lmp s) = None /\ logfile (lmp s) = None.

(** "failure to open the default log is a non-fatal warning": with no
    -log and no -plog switch, a log that cannot be opened is reported by
    a warning, and not by a fatal error. *)
Definition default_log_failure_is_warning (E : Env) (args : list string)
  : Prop :=
  logflag (loc (parsed E args)) = 0 ->
  partlogflag (loc (parsed E args)) = 0 ->
  forall v path,
    v = v_ulogfile \/ v = v_logfile ->
    In (EvFopen v path "w" false) (trace (final (run E args))) ->
    (exists sc msg, In (EvWarning sc msg) (trace (final (run E args)))) /\
    (forall sc msg, outcome (run E args) <> Stop (Fatal sc msg)).

(** "pool-rank-0 emits an informational notice", and no other
    process. *)
Definition notice_only_on_pool_rank_0 (E : Env) (args : list string)
  : Prop :=
  In (EvMessage cuda_notice) (trace (final (run E args))) ->
  comm_rank E = 0.

(** "datatype-size mismatches [...] always pool-wide fatal". *)
Definition mismatch_is_pool_fatal (E : Env) (args : list string) : Prop :=
  datatypes_ok E = false ->
  exists msg, outcome (run E args) = Stop (Fatal Pool msg).

(** "the default log file is never opened by any process": with -help
    and no -log and no -plog switch, the run opens no log, neither for
    the pool nor for a world. *)
Definition help_opens_no_default_log (E : Env) (args : list string)
  : Prop :=
  helpflag (loc (parsed E args)) <> 0 ->
  logflag (loc (parsed E args)) = 0 ->
  partlogflag (loc (parsed E args)) = 0 ->
  forall v path ok,
    v = v_ulogfile \/ v = v_logfile ->
    ~ In (EvFopen v path "w" ok) (trace (final (run E args))).

End AsStated.

(** ** Failures to open a file *)

Definition failed_open (e : Event) : bool :=
  match e with EvFopen _ _ _ false => true | _ => false end.

(** The open of the universe log when no -log was given: the default
    ["log.lammps"]. *)
Definition default_ulog (l : Locals) (e : Event) : bool :=
  match e with
  | EvFopen v_ulogfile _ _ _ => logflag l =? 0
  | _ => false
  end.

(** A failed open other than that of the default universe log. *)
Definition hard_failure (l : Locals) (e : Event) : bool :=
  failed_open e && negb (default_ulog l e).

Definition is_infile_open (e : Event) : bool :=
  match e with EvFopen v_infile _ _ _ => true | _ => false end.

(** How a run ends on a hard failure: by a fatal error of the process;
    for the input script the text of the message may before that overrun
    its buffer. *)
Definition dies_of (e : Event) (h : Halt) : Prop :=
  match h with
  | Fatal Process _ => True
  | Undefined => is_infile_open e = true
  | _ => False
  end.

(** No hard failure goes unnoticed. *)
Definition open_strict : Config -> list Event -> option Halt -> Prop :=
  fun c evs o =>
    match o with
    | None => Forall (fun e => hard_failure (c_loc c) e = false) evs
    | Some h =>
        forall e, In e evs -> hard_failure (c_loc c) e = true -> dies_of e h
    end.

(** ** The switch loop *)

(** The state with another partition. *)
Definition repartition (ws : list Z) (i : Z) (s : State) : State :=
  mkState (set_uni (Universe.set_worlds ws i (uni (lmp s))) (lmp s))
          (loc s) (trace s).


(** ** The columns of the help message *)

(** In ascending order of [cmp]. *)
Definition ascending (cmp : string -> string -> comparison)
  : list string -> Prop :=
  StronglySorted (fun a b => cmp a b <> Gt).

(** A style whose name starts with a capital is not shown. *)
Definition secret (s : string) : bool := isupper (first_char s).

(** What a sequence of calls writes. *)
Definition written (chunks : list string) : string :=
  fold_right String.append EmptyString chunks.

Definition is_newline (c : ascii) : bool := Ascii.eqb c (ascii_of_nat 10).
Definition is_blank (c : ascii) : bool := Ascii.eqb c " " || is_newline c.

(** A text without its spaces and newlines. *)
Fixpoint strip (s : string) : string :=
  match s with
  | EmptyString => EmptyString
  | String c s' => if is_blank c then strip s' else String c (strip s')
  end.

Fixpoint no_newline (s : string) : bool :=
  match s with
  | EmptyString => true
  | String c s' => negb (is_newline c) && no_newline s'
  end.

(** The lines of a text, [cur] being the line under way. *)
Fixpoint lines_from (cur s : string) : list string :=
  match s with
  | EmptyString => [cur]
  | String c s' =>
      if is_newline c then cur :: lines_from EmptyString s'
      else lines_from (cur +++ String c EmptyString) s'
  end.

Definition lines_of (s : string) : list string := lines_from EmptyString s.

(** A line without the spaces at its end. *)
Fixpoint rtrim (s : string) : string :=
  match s with
  | EmptyString => EmptyString
  | String c s' =>
      match rtrim s' with
      | EmptyString => if Ascii.eqb c " " then EmptyString
                       else String c EmptyString
      | r => String c r
      end
  end.

(** A line of the columns: whole fields of 16, 96 characters at most, the
    names within the first 80. *)
Definition line_ok (ln : string) : Prop :=
  (exists k, String.length ln = 16 * k)%nat /\
  (String.length ln <= 96)%nat /\
  (String.length (rtrim ln) <= 80)%nat.

(** What holds of the line under way [cur] and of the column [pos] at
    the head of the loop. *)
Definition at_column (cur : string) (pos : Z) : Prop :=
  no_newline cur = true /\
  (exists k, String.length cur = 16 * k)%nat /\
  Z.of_nat (String.length cur) <= pos /\
  (exists k, pos = 16 * k) /\
  0 <= pos <= 96 /\
  (String.length (rtrim cur) <= 80)%nat.

(** ** The protocol of the help message *)

Definition count_help (p : HelpEvent -> bool) (evs : list HelpEvent) : nat :=
  List.length (filter p evs).

Definition is_new_styles (e : HelpEvent) : bool :=
  match e with HvNewStyles => true | _ => false end.
Definition is_delete_styles (e : HelpEvent) : bool :=
  match e with HvDeleteStyles => true | _ => false end.
Definition is_popen (e : HelpEvent) : bool :=
  match e with HvPopen _ _ => true | _ => false end.
Definition is_popen_ok (e : HelpEvent) : bool :=
  match e with HvPopen _ true => true | _ => false end.
Definition is_pclose (e : HelpEvent) : bool :=
  match e with HvPclose _ => true | _ => false end.
Definition is_put (e : HelpEvent) : bool :=
  match e with HvPut _ _ => true | _ => false end.

(** The texts written, with where they went. *)
Definition puts (evs : list HelpEvent) : list (Target * string) :=
  flat_map (fun e => match e with HvPut t x => [(t, x)] | _ => [] end) evs.

(** The command of the pager. *)
Definition pager_command (H : HelpEnv) : string :=
  match PAGER H with Some p => p | None => "more"%string end.

(** The field a name is printed in: the least multiple of 16 above its
    length, 80 at most. *)
Definition field_width (s : string) : nat :=
  Nat.min 80 (16 * (String.length s / 16 + 1)).

Definition field (s : string) : string := left_justify (field_width s) s.

Definition is_nl_call (chunk : string) : bool := String.eqb chunk nl.

(** A name the columns are made for: 80 characters at most, on one
    line. *)
Definition name_ok (s : string) : Prop :=
  (String.length s <= 80)%nat /\ no_newline s = true.

(** ** Deletions *)

(** What [delete p] appends to the trace in state [s]. *)
Definition deleted_events (p : Ptr) (s : State) : list Event :=
  match ptr (lmp s) p with
  | Some c => [EvDelete p c]
  | None => []
  end.

(** ** The last stages of the constructor, event by event *)

(** The accelerator context stays: it was not switched off and the
    package is there. *)
Definition cuda_active (E : Env) (l : Locals) : bool :=
  negb (cudaflag l =? 0) && cuda_exists E.

(** [-cuda on] without the package. *)
Definition cuda_refused (E : Env) (l : Locals) : bool :=
  (cudaflag l =? 1) && negb (cuda_exists E).

Definition accelerator_events (E : Env) (l : Locals) : list Event :=
  if cudaflag l =? 0 then []
  else if cuda_exists E then [EvNew cuda Cuda]
  else if cudaflag l =? 1
       then [EvNew cuda Cuda; EvFatal World cuda_missing]
       else [EvNew cuda Cuda; EvDelete cuda Cuda].

(** The class behind each pointer, [acc] telling whether the accelerator
    context is there. *)
Definition class_of (E : Env) (acc : bool) (p : Ptr) : Class :=
  match p with
  | memory => Memory
  | error => Error
  | universe => Universe
  | input => Input
  | cuda => Cuda
  | citeme => CiteMe
  | comm => if acc then CommCuda else Comm
  | neighbor => if acc then NeighborCuda else Neighbor
  | domain => if acc then DomainCuda
              else if LMP_USER_OMP E then DomainOMP else Domain
  | atom => Atom
  | group => Group
  | force => Force
  | modify => if acc then ModifyCuda else Modify
  | output => Output
  | update => Update
  | timer => Timer
  end.

Definition create_events (E : Env) (acc : bool) (sfx : option string)
  : list Event :=
  [ EvNew comm (class_of E acc comm);
    EvNew neighbor (class_of E acc neighbor);
    EvNew domain (class_of E acc domain);
    EvNew atom Atom;
    EvCreateAvec "atomic" sfx;
    EvNew group Group;
    EvNew force Force;
    EvNew modify (class_of E acc modify);
    EvNew output Output;
    EvNew update Update;
    EvNew timer Timer ].

(** The commands a suffix stands for. *)
Definition package_commands (sfx : option string) (enable : Z)
  : list string :=
  match sfx with
  | Some x =>
      if truthy enable then
        (if streq x "gpu" then ["package gpu force/neigh 0 0 1"%string]
         else [])
        ++ (if streq x "omp" then ["package omp *"%string] else [])
      else []
  | None => []
  end.

Definition help_stage_events (l : Locals) (me : Z) (scr : stream) : list Event :=
  if truthy (helpflag l)
  then (if me =? 0 then [EvHelp scr] else []) ++ [EvDone]
  else [].

(** The events of [top_level], from what it reads: the locals, whether
    the accelerator context is there, the suffix, the rank in the pool
    and the screen. *)
Definition top_events (E : Env) (l : Locals) (acc : bool)
           (sfx : option string) (enable : Z) (me : Z) (scr : stream)
  : list Event :=
  (if truthy (citeflag l) then [EvNew citeme CiteMe] else [])
  ++ [EvNew input Input]
  ++ create_events E acc sfx
  ++ map EvInputOne (package_commands sfx enable)
  ++ help_stage_events l me scr.

Definition top_level_events (E : Env) (s : State) : list Event :=
  top_events E (loc s) (non_null (ptr (lmp s) cuda)) (suffix (lmp s))
    (suffix_enable (lmp s)) (Universe.me (uni (lmp s))) (screen (lmp s)).

(** The members other than the pointers to objects. *)
Definition settings (s : State) :=
  (uni (lmp s), screen (lmp s), logfile (lmp s), infile (lmp s),
   world (lmp s), suffix (lmp s), suffix_enable (lmp s)).

(** The pointers after [top_level] run in [s]. *)
Definition top_level_ptr (E : Env) (s : State) (p : Ptr) : option Class :=
  match p with
  | memory | error | universe | cuda => ptr (lmp s) p
  | citeme => if truthy (citeflag (loc s)) then Some CiteMe else None
  | _ => Some (class_of E (non_null (ptr (lmp s) cuda)) p)
  end.

(** The pointers after [accelerator] run in [s]. *)
Definition accelerator_ptr (E : Env) (s : State) (p : Ptr) : option Class :=
  match p with
  | cuda => if cudaflag (loc s) =? 0 then None
            else if cuda_exists E then Some Cuda
            else if cudaflag (loc s) =? 1 then Some Cuda else None
  | _ => ptr (lmp s) p
  end.

Definition is_alloc (e : Event) : bool :=
  match e with EvNew _ _ | EvDelete _ _ => true | _ => false end.

Definition deletes (q : Ptr) (e : Event) : bool :=
  match e with EvDelete p _ => Ptr_eqb p q | _ => false end.

Definition is_input_one (e : Event) : bool :=
  match e with EvInputOne _ => true | _ => false end.

Definition is_help (e : Event) : bool :=
  match e with EvHelp _ => true | _ => false end.

Definition is_done (e : Event) : bool :=
  match e with EvDone => true | _ => false end.

(** An event of the stages before the choice of the accelerator: no
    object comes or goes, no command is run, no help is given. *)
Definition silent (e : Event) : bool :=
  negb (is_alloc e || is_input_one e || is_help e || is_done e).

(** The first statements of the constructor. *)
Definition fundamental_events : list Event :=
  [EvNew memory Memory; EvNew error Error; EvNew universe Universe].

(** The events of a stage that are all silent, the stage not ending the
    run with success. *)
Definition silent_stage : unit -> list Event -> option Halt -> Prop :=
  each (fun _ e => silent e = true) (fun _ h => h <> Finished).

(** The pointers a constructor that returns leaves, from the locals. *)
Definition constructed (E : Env) (l : Locals) (p : Ptr) : option Class :=
  match p with
  | cuda => if cuda_active E l then Some Cuda else None
  | citeme => if truthy (citeflag l) then Some CiteMe else None
  | _ => Some (class_of E (cuda_active E l) p)
  end.

(** How the constructor ends once the datatypes have been checked. *)
Definition tail_outcome (E : Env) (l : Locals) : Outcome unit :=
  if cuda_refused E l then Stop (Fatal World cuda_missing)
  else if truthy (helpflag l) then Stop Finished
  else Ret tt.

(** ** Streams *)

(** Null, or a file that [fopen] gave. *)
Definition is_file (f : stream) : bool :=
  match f with
  | None | Some (opened _) => true
  | _ => false
  end.

(** The input of the process of world rank [me]: rank 0 reads the script
    named after [-in], or standard input without [-in]; the others read
    nothing. *)
Definition input_of (args : list string) (l : Locals) (me : Z) : stream :=
  if me =? 0 then
    if inflag l =? 0 then Some stdin
    else Some (opened (nth (Z.to_nat (inflag l)) args EmptyString))
  else None.

(** The rank in the world the state is about to be given. *)
Definition rank_to_be (s : State) : Z :=
  if Universe.existflag (uni (lmp s)) =? 0 then Universe.me (uni (lmp s))
  else Universe.split_rank (uni (lmp s)).

(** ** The destructor *)

(** The log of the destructor run on the object in state [s], and the
    state it leaves. *)
Definition destructor_log (s : State) : list Action :=
  snd (snd (Destructor.run s)).

Definition destructed (s : State) : State :=
  fst (snd (Destructor.run s)).

Definition releases (log : list Action) : list Release :=
  flat_map (fun a => match a with Rel r => [r] | Obj _ => [] end) log.

Definition object_events (log : list Action) : list Event :=
  flat_map (fun a => match a with Obj e => [e] | Rel _ => [] end) log.

Definition is_fclose (r : Release) : bool :=
  match r with Fclose _ _ => true | _ => false end.

Definition is_comm_free (r : Release) : bool :=
  match r with CommFree _ => true | _ => false end.

(** The pointers the destructor deletes, in the order of the calls:
    those of [destroy], then the rest. *)
Definition deletion_order : list Ptr :=
  destruction_order ++ [citeme; cuda; input; universe; error; memory].

(** [if (f) fclose(f)] *)
Definition closed_if_open (v : FileVar) (f : stream) : list Release :=
  match f with
  | Some h => [Fclose v h]
  | None => []
  end.

(** The streams the destructor closes in state [s]. *)
Definition closing (s : State) : list Release :=
  let m := lmp s in
  if Universe.nworlds (uni m) =? 1 then closed_if_open v_logfile (logfile m)
  else (match screen m with
        | Some h => if FILE_is_stdout h then [] else [Fclose v_screen h]
        | None => []
        end)
       ++ closed_if_open v_logfile (logfile m)
       ++ closed_if_open v_ulogfile (Universe.ulogfile (uni m)).

Definition freeing (s : State) : list Release :=
  if MPI_Comm_eqb (world (lmp s)) uworld then []
  else [CommFree (world (lmp s))].

(** The deletion of [p] when the constructor has returned. *)
Definition deletion (E : Env) (l : Locals) (p : Ptr) : list Event :=
  match constructed E l p with
  | Some c => [EvDelete p c]
  | None => []
  end.

(** ** The switch loop *)

Definition invalid_argument : string := "Invalid command-line argument".
Definition reorder_after_partition : string :=
  "Cannot use -reorder after -partition".

(** The ways a piece of the switch loop can stop, as the code is
    written. *)
Definition startup_halt (h : Halt) : Prop :=
  h = Fatal Pool invalid_argument \/
  h = Fatal Pool reorder_after_partition \/
  h = Undefined \/ h = OutOfFuel.

(** How the partition checks end without [-partition]. *)
Definition unpartitioned_outcome (l : Locals) : Outcome unit :=
  if truthy (partscreenflag l)
  then Stop (Fatal Pool "Can only use -pscreen with multiple partitions")
  else if truthy (partlogflag l)
       then Stop (Fatal Pool "Can only use -plog with multiple partitions")
       else Ret tt.


(* ================================================================== *)
(** * Proofs *)

(** ** Tactics *)

(** Boolean tests on integers, as propositions. *)
Ltac zb :=
  repeat match goal with
  | H : (_ && _) = true |- _ => apply andb_prop in H; destruct H
  | H : (_ || _) = false |- _ => apply orb_false_elim in H; destruct H
  | H : (_ >? _) = true |- _ => rewrite Z.gtb_ltb in H
  | H : (_ >? _) = false |- _ => rewrite Z.gtb_ltb in H
  | H : (_ <? _) = true |- _ => apply Z.ltb_lt in H
  | H : (_ <? _) = false |- _ => apply Z.ltb_ge in H
  | H : (_ <=? _) = true |- _ => apply Z.leb_le in H
  | H : (_ <=? _) = false |- _ => apply Z.leb_gt in H
  | H : (_ =? _) = true |- _ => apply Z.eqb_eq in H
  | H : (_ =? _) = false |- _ => apply Z.eqb_neq in H
  | H : negb _ = true |- _ => apply negb_true_iff in H
  | H : negb _ = false |- _ => apply negb_false_iff in H
  | H : truthy _ = true |- _ => unfold truthy in H
  | H : truthy _ = false |- _ => unfold truthy in H
  end.

(** Run the monadic code of the model on a state. *)
Ltac red_m :=
  lazy beta iota delta
    [bind ret halt gets emit upd_lmp upd_loc upd_uni when final outcome fst snd
     andthen
     LAMMPS.top_level LAMMPS.variant LAMMPS.streams LAMMPS.startup
     LAMMPS.help LAMMPS.cite_and_input LAMMPS.notice LAMMPS.accelerator
     LAMMPS.check_datatypes LAMMPS.world_streams LAMMPS.multi_world
     LAMMPS.world_banners LAMMPS.world_infile LAMMPS.world_logfile
     LAMMPS.world_screen LAMMPS.single_world LAMMPS.universe_streams
     LAMMPS.root_ulogfile LAMMPS.root_uscreen LAMMPS.check_partition
     LAMMPS.parse_switch LAMMPS.fundamental LAMMPS.invalid
     LAMMPS.destroy LAMMPS.init LAMMPS.post_create LAMMPS.create
     LAMMPS.the_uni LAMMPS.the_loc LAMMPS.MPI_Comm_rank_world
     LAMMPS.if_open LAMMPS.fprintf LAMMPS.sprintf LAMMPS.fopen
     LAMMPS.input_one LAMMPS.call_init LAMMPS.delete LAMMPS.new
     LAMMPS.arg
     Error.universe_all Error.universe_one Error.universe_warn
     Error.all Error.one Error.message Error.done
     lmp loc trace uni screen logfile infile world suffix suffix_enable ptr
     inflag screenflag logflag partscreenflag partlogflag cudaflag citeflag
     helpflag
     set_inflag set_screenflag set_logflag set_partscreenflag set_partlogflag
     set_cudaflag set_citeflag set_helpflag
     set_uni set_screen set_logfile set_infile set_world set_suffix
     set_suffix_enable set_ptr
     Universe.me Universe.nprocs Universe.existflag Universe.worlds
     Universe.iworld Universe.uscreen Universe.ulogfile
     Universe.set_existflag Universe.set_worlds Universe.set_uscreen
     Universe.set_ulogfile Universe.create
     is_null non_null].

(** Split on the test of a conditional of the goal, innermost first. *)
Ltac case_if :=
  match goal with
  | |- context [if ?c then _ else _] =>
      lazymatch c with
      | context [if _ then _ else _] => fail
      | _ => destruct c eqn:?
      end
  end.

(** The same for a test of a pointer against [NULL]. *)
Ltac case_option :=
  match goal with
  | |- context [match ?c with Some x => @?f x | None => _ end] =>
      lazymatch c with
      | context [if _ then _ else _] => fail
      | _ => destruct c eqn:?
      end
  end.

Ltac cases := repeat (first [case_if | case_option]; lazy beta iota zeta).

Ltac open_state s :=
  let me := fresh "u_me" in let np := fresh "u_nprocs" in
  let ex := fresh "u_exist" in let ws := fresh "u_worlds" in
  let iw := fresh "u_iworld" in let us := fresh "u_screen" in
  let ul := fresh "u_log" in
  let scr := fresh "w_screen" in let lg := fresh "w_log" in
  let inf := fresh "w_in" in let w := fresh "w_comm" in
  let sfx := fresh "sfx" in let en := fresh "sfx_on" in
  let p := fresh "objs" in
  let t := fresh "tr" in
  destruct s as [[[me np ex ws iw us ul] scr lg inf w sfx en p]
                 [? ? ? ? ? ? ? ?] t].

(** ** The monad *)

Lemma bind_andthen {A} (m : M unit) (k : M A) s :
  (m ;; k) s = andthen (m s) k.
Proof. unfold bind, andthen. destruct (m s) as [[[]|] ?]; reflexivity. Qed.

Lemma andthen_bind {A} r (m : M unit) (k : M A) :
  andthen r (m ;; k) = andthen (andthen r m) k.
Proof.
  destruct r as [[[]|h] s]; cbn; [apply bind_andthen | reflexivity].
Qed.

Lemma andthen_stop {A} r (k : M A) h :
  outcome r = Stop h -> andthen r k = (Stop h, final r).
Proof. destruct r as [[[]|h'] s]; cbn; [discriminate|]. now intros [= ->]. Qed.

Lemma andthen_ret {A} r (k : M A) :
  outcome r = Ret tt -> andthen r k = k (final r).
Proof. destruct r as [[[]|h'] s]; cbn; [reflexivity|discriminate]. Qed.

(** The constructor is the chain of its stages. *)
Lemma run_chain E args :
  run E args = andthen (after_notice E args) (LAMMPS.top_level E).
Proof.
  unfold run, LAMMPS.LAMMPS, LAMMPS.streams, LAMMPS.variant.
  rewrite bind_andthen. fold (after_startup E args).
  rewrite !andthen_bind. reflexivity.
Qed.

Lemma run_from_accelerator E args :
  run E args = andthen (after_accelerator E args) (from_notice E).
Proof. rewrite run_chain. unfold after_notice. now rewrite <- andthen_bind. Qed.

Lemma run_from_datatypes E args :
  run E args = andthen (after_datatypes E args) (from_accelerator E).
Proof.
  rewrite run_from_accelerator. unfold after_accelerator.
  now rewrite <- andthen_bind.
Qed.

Lemma run_from_world E args :
  run E args = andthen (after_world E args) (from_datatypes E).
Proof.
  rewrite run_from_datatypes. unfold after_datatypes.
  now rewrite <- andthen_bind.
Qed.

Lemma run_from_universe E args :
  run E args = andthen (after_universe E args) (from_world E args).
Proof.
  rewrite run_from_world. unfold after_world. now rewrite <- andthen_bind.
Qed.

Lemma run_from_partition E args :
  run E args = andthen (after_partition E args) (from_universe E args).
Proof.
  rewrite run_from_universe. unfold after_universe.
  now rewrite <- andthen_bind.
Qed.

Lemma after_world_eq E args :
  after_world E args = andthen (after_partition E args) (to_world E args).
Proof. unfold after_world, after_universe. now rewrite <- andthen_bind. Qed.

Lemma after_datatypes_eq E args :
  after_datatypes E args
  = andthen (after_partition E args) (to_datatypes E args).
Proof.
  unfold after_datatypes, to_datatypes. rewrite after_world_eq.
  now rewrite <- andthen_bind.
Qed.

Lemma after_accelerator_eq E args :
  after_accelerator E args
  = andthen (after_partition E args) (to_accelerator E args).
Proof.
  unfold after_accelerator, to_accelerator. rewrite after_datatypes_eq.
  now rewrite <- andthen_bind.
Qed.


(** ** The switch loop *)

Section Startup.
Context (E : Env) (args : list string).

Lemma fundamental_inv :
  LAMMPS.fundamental E (blank E)
  = (Ret tt, final (LAMMPS.fundamental E (blank E)))
  /\ StartupInv E args (final (LAMMPS.fundamental E (blank E))).
Proof.
  split; [reflexivity|].
  constructor; [constructor| |..]; cbn; unfold flag_ok; auto.
  - constructor; cbn; auto. intros []; reflexivity.
  - repeat constructor.
Qed.

Lemma repartition_id s :
  repartition (Universe.worlds (uni (lmp s)))
              (Universe.iworld (uni (lmp s))) s = s.
Proof. open_state s; reflexivity. Qed.

Lemma partition_words_run rest : forall iarg s,
  exists k ws i,
    LAMMPS.partition_words E rest iarg s
    = (Ret (iarg + Z.of_nat k), repartition ws i s).
Proof.
  induction rest as [|w rest IH]; intros iarg s; cbn.
  - exists 0%nat, (Universe.worlds (uni (lmp s))),
      (Universe.iworld (uni (lmp s))).
    rewrite repartition_id. unfold ret. do 2 f_equal. cbn. lia.
  - destruct (starts_dash w).
    + exists 0%nat, (Universe.worlds (uni (lmp s))),
        (Universe.iworld (uni (lmp s))).
      rewrite repartition_id. unfold ret. do 2 f_equal. cbn. lia.
    + unfold bind at 1. cbn.
      match goal with |- context [LAMMPS.partition_words E rest ?i ?s'] =>
        destruct (IH i s') as (k & ws & i' & ->) end.
      exists (S k), ws, i'. f_equal. f_equal. lia.
Qed.

Lemma repartition_inv ws i s :
  Universe.existflag (uni (lmp s)) = 1 ->
  StartupInv E args s -> StartupInv E args (repartition ws i s).
Proof.
  intros He [? ? ? ? [] ?]. constructor; cbn; auto. constructor; auto.
Qed.

Lemma var_words_ge rest : forall iarg, iarg <= LAMMPS.var_words rest iarg.
Proof.
  induction rest as [|w rest IH]; intro iarg; cbn; [lia|].
  destruct (starts_dash w); [lia|]. specialize (IH (iarg + 1)). lia.
Qed.

Lemma nth_arg_Forall (P : string -> Prop) i :
  0 <= i < LAMMPS.narg args -> Forall P args ->
  P (nth (Z.to_nat i) args EmptyString).
Proof.
  intros Hi HP. rewrite Forall_forall in HP. apply HP, nth_In.
  unfold LAMMPS.narg in Hi. lia.
Qed.

(** One turn of the loop keeps the invariant and either moves on or
    stops with a pool-wide fatal error: no word of [arg] is read out of
    range. *)
Lemma parse_switch_inv iarg s :
  1 <= iarg < LAMMPS.narg args ->
  StartupInv E args s ->
  let r := LAMMPS.parse_switch E args iarg s in
  StartupInv E args (final r) /\
  ((exists i', outcome r = Ret i' /\ iarg < i') \/
   (exists msg, outcome r = Stop (Fatal Pool msg))).
Proof.
  intros Hr Hi.
  pose proof (fun P => nth_arg_Forall P iarg) as Hnth.
  destruct Hi as [[] ? ? ? [] ?].
  open_state s.
  cbn in *. red_m.
  repeat case_if.
  all: cbv beta iota zeta.
  all: zb.
  all: try lia.
  all: try (split;
            [constructor; [constructor| |..]; cbn; unfold flag_ok; auto;
             try lia;
             try (constructor; cbn; auto; fail);
             try (apply Forall_app; split; [assumption|repeat constructor]);
             try (intro Hall; apply Hnth in Hall; [congruence|lia])
            | first [ left; eexists; split; [reflexivity|lia]
                    | right; eexists; reflexivity ] ]).
  - match goal with |- context [LAMMPS.partition_words E ?r ?i ?s] =>
      destruct (partition_words_run r i s) as (k & ws' & i' & ->) end.
    split; [|left; eexists; split; [reflexivity|lia]].
    apply repartition_inv; [reflexivity|].
    constructor; [constructor| |..]; cbn; auto. constructor; cbn; auto.
  - split; [constructor; [constructor| |..]; cbn; auto; constructor; cbn; auto|].
    left; eexists; split; [reflexivity|].
    match goal with |- context [LAMMPS.var_words ?r ?i] =>
      pose proof (var_words_ge r i) end.
    lia.
Qed.

(** The loop ends within [narg - iarg] turns. *)
Lemma switches_inv fuel : forall iarg s,
  1 <= iarg ->
  LAMMPS.narg args - iarg <= Z.of_nat fuel ->
  StartupInv E args s ->
  let r := LAMMPS.switches E args fuel iarg s in
  StartupInv E args (final r) /\
  (outcome r = Ret tt \/ exists msg, outcome r = Stop (Fatal Pool msg)).
Proof.
  induction fuel as [|fuel IH]; intros iarg s H1 Hf Hi; cbn.
  - destruct (iarg <? LAMMPS.narg args) eqn:Hlt; [|cbn; auto].
    apply Z.ltb_lt in Hlt. lia.
  - destruct (iarg <? LAMMPS.narg args) eqn:Hlt; [|cbn; auto].
    apply Z.ltb_lt in Hlt.
    destruct (parse_switch_inv iarg s) as (Hi' & Ho); [lia|assumption|].
    unfold bind.
    destruct (LAMMPS.parse_switch E args iarg s) as [[i'|h] s']; cbn in *.
    + destruct Ho as [(i2 & [= <-] & Hlt2)|(msg & [=])].
      apply IH; [lia|lia|assumption].
    + split; [assumption|]. right.
      destruct Ho as [(i2 & [=] & _)|(msg & [= ->])]. eauto.
Qed.

Lemma startup_inv :
  StartupInv E args (parsed E args) /\
  (outcome (after_startup E args) = Ret tt \/
   exists msg, outcome (after_startup E args) = Stop (Fatal Pool msg)).
Proof.
  unfold parsed, after_startup, LAMMPS.startup, bind.
  destruct (fundamental_inv) as (-> & Hi).
  apply switches_inv; [lia| |assumption].
  unfold LAMMPS.narg. lia.
Qed.

(** The partition checks: they stop pool-wide or settle the
    configuration, and touch nothing but the list of worlds. *)
Lemma check_partition_inv s :
  StartupInv E args s ->
  let r := LAMMPS.check_partition E s in
  loc (final r) = loc s /\
  Universe.existflag (uni (lmp (final r))) = Universe.existflag (uni (lmp s)) /\
  (Universe.existflag (uni (lmp s)) = 1 ->
     Universe.worlds (uni (lmp (final r))) = Universe.worlds (uni (lmp s))) /\
  Untouched (final r) /\
  Forall quiet (trace (final r)) /\
  ((exists msg, outcome r = Stop (Fatal Pool msg)) \/
   outcome r = Ret tt /\ ConfigInv E args (cfg (final r))).
Proof.
  intros [Hl Hex ? ? [] ?].
  open_state s. cbn in *. red_m.
  unfold Universe.add_world, Universe.consistent. red_m.
  repeat case_if.
  all: cbv beta iota zeta; cbn [app].
  all: zb.
  all: repeat split; cbn; auto.
  all: try (apply Forall_app; split; [assumption|repeat constructor]).
  all: try (left; eexists; reflexivity).
  all: try (right; split; [reflexivity|]).
  all: try (constructor; cbn; auto; try lia).
  all: try (intros; lia).
  all: unfold Universe.total in *; try congruence.
  all: destruct Hex as [[? ?]|?]; subst; cbn in *; zb; try lia.
  left; auto.
Qed.

(** Where the run stands when the partition has been checked. *)
Lemma prelude :
  StartupInv E args (parsed E args) /\
  let r := after_partition E args in
  loc (final r) = loc (parsed E args) /\
  Universe.existflag (uni (lmp (final r)))
    = Universe.existflag (uni (lmp (parsed E args))) /\
  Untouched (final r) /\
  Forall quiet (trace (final r)) /\
  ((exists msg, outcome r = Stop (Fatal Pool msg)) \/
   outcome r = Ret tt /\ ConfigInv E args (cfg (final r))).
Proof.
  destruct startup_inv as (Hi & Ho). split; [assumption|].
  unfold after_partition, parsed in *.
  destruct (after_startup E args) as [[[]|h] s]; cbn in *.
  - destruct (check_partition_inv s Hi) as (? & ? & ? & ? & ? & ?).
    cbv zeta. split; [|split; [|split; [|split]]]; assumption.
  - cbv zeta. split; [|split; [|split; [|split]]];
      try reflexivity; try apply Hi.
    destruct Ho as [[=]|?]; auto.
Qed.
End Startup.


(** ** The judgement [traced] *)

Lemma closed_given {C} (c0 : C) R : closed R -> closed (given c0 R).
Proof.
  intros [H0 H1]. split; unfold given; intros; auto.
Qed.

Lemma closed_each {C} (phi : C -> Event -> Prop) eta : closed (each phi eta).
Proof.
  split; unfold each.
  - intro c. split; [constructor|discriminate].
  - intros c e1 e2 o [H1 _] [H2 H3]. split; [apply Forall_app; auto|auto].
Qed.

Lemma closed_fatal_once : closed fatal_once.
Proof.
  split; unfold fatal_once.
  - reflexivity.
  - intros c e1 e2 o H1 H2. rewrite filter_app, H1, H2. reflexivity.
Qed.

Create HintDb closed_db.
#[export] Hint Resolve closed_given closed_each closed_fatal_once : closed_db.

Section Traced.
Context {C : Type} (proj : State -> C).
Implicit Type R : C -> list Event -> option Halt -> Prop.

Lemma tr_ret {A} R (a : A) : closed R -> traced proj R (ret a).
Proof.
  intros [H0 _] s; cbn. split; [reflexivity|].
  exists []. rewrite app_nil_r. auto.
Qed.

Lemma tr_halt {A} R h :
  (forall c, R c [] (Some h)) -> traced proj R (@halt A h).
Proof.
  intros H s; cbn. split; [reflexivity|].
  exists []. rewrite app_nil_r. auto.
Qed.

Lemma tr_bind {A B} R (m : M A) (k : A -> M B) :
  closed R ->
  traced proj R m -> (forall a, traced proj R (k a)) ->
  traced proj R (bind m k).
Proof.
  intros [_ Hc] Hm Hk s. unfold bind.
  destruct (Hm s) as (Hp & e1 & Ht & Hr).
  destruct (m s) as [[a|h] s1]; cbn in *.
  - destruct (Hk a s1) as (Hp2 & e2 & Ht2 & Hr2).
    rewrite Hp in *. split; [assumption|].
    exists (e1 ++ e2). rewrite Ht2, Ht, app_assoc. split; [reflexivity|].
    apply Hc; assumption.
  - split; [assumption|]. eauto.
Qed.

Lemma tr_at {A} R (m : M A) :
  (forall s0, exists m', m s0 = m' s0 /\
                traced proj (given (proj s0) R) m') ->
  traced proj R m.
Proof.
  intros H s. destruct (H s) as (m' & -> & Hm).
  destruct (Hm s) as (Hp & e & Ht & Hr).
  split; [assumption|]. exists e. split; [assumption|]. now apply Hr.
Qed.

Lemma tr_gets_bind {A B} R (f : State -> A) (k : A -> M B) :
  (forall s0, traced proj (given (proj s0) R) (k (f s0))) ->
  traced proj R (bind (gets f) k).
Proof.
  intros H. apply tr_at. intro s0. exists (k (f s0)). split; [reflexivity|].
  apply H.
Qed.

Lemma tr_ext {A} R (m m' : M A) :
  (forall s, m s = m' s) -> traced proj R m' -> traced proj R m.
Proof. intros He H s. rewrite He. apply H. Qed.

Lemma tr_bind_ret {A B} R (a : A) (k : A -> M B) :
  traced proj R (k a) -> traced proj R (bind (ret a) k).
Proof. apply tr_ext. reflexivity. Qed.

Lemma tr_bind_halt {A B} R h (k : A -> M B) :
  traced proj R (@halt B h) -> traced proj R (bind (halt h) k).
Proof. apply tr_ext. reflexivity. Qed.

Lemma tr_bind_assoc {A B D} R (m : M A) (k1 : A -> M B) (k2 : B -> M D) :
  traced proj R (bind m (fun a => bind (k1 a) k2)) ->
  traced proj R (bind (bind m k1) k2).
Proof.
  apply tr_ext. intro s. unfold bind.
  destruct (m s) as [[a|h] s1]; reflexivity.
Qed.

Lemma tr_bind_if {A B} R (b : bool) (m1 m2 : M A) (k : A -> M B) :
  (b = true -> traced proj R (bind m1 k)) ->
  (b = false -> traced proj R (bind m2 k)) ->
  traced proj R (bind (if b then m1 else m2) k).
Proof. destruct b; auto. Qed.

Lemma tr_if {A} R (b : bool) (m1 m2 : M A) :
  (b = true -> traced proj R m1) -> (b = false -> traced proj R m2) ->
  traced proj R (if b then m1 else m2).
Proof. destruct b; auto. Qed.

Lemma tr_when R (b : bool) (m : M unit) :
  closed R -> (b = true -> traced proj R m) -> traced proj R (when b m).
Proof. destruct b; cbn; auto using tr_ret. Qed.

Lemma tr_option {A B} R (o : option B) (m1 : B -> M A) (m2 : M A) :
  (forall b, o = Some b -> traced proj R (m1 b)) ->
  (o = None -> traced proj R m2) ->
  traced proj R (match o with Some b => m1 b | None => m2 end).
Proof. destruct o; auto. Qed.

Lemma tr_emit R e :
  (forall l c t t', proj (mkState l c t) = proj (mkState l c t')) ->
  (forall c, R c [e] None) -> traced proj R (emit e).
Proof.
  intros Hp H s; cbn. split.
  - destruct s; cbn. apply Hp.
  - exists [e]. split; [reflexivity|]. apply H.
Qed.

Lemma tr_upd_lmp R f :
  closed R ->
  (forall s, proj (mkState (f (lmp s)) (loc s) (trace s)) = proj s) ->
  traced proj R (upd_lmp f).
Proof.
  intros [H0 _] Hp s; cbn. split; [apply Hp|].
  exists []. rewrite app_nil_r. auto.
Qed.

Lemma tr_upd_loc R f :
  closed R ->
  (forall s, proj (mkState (lmp s) (f (loc s)) (trace s)) = proj s) ->
  traced proj R (upd_loc f).
Proof.
  intros [H0 _] Hp s; cbn. split; [apply Hp|].
  exists []. rewrite app_nil_r. auto.
Qed.

(** A fatal call: one event, then the stop. *)
Lemma tr_fatal R sc msg :
  (forall l c t t', proj (mkState l c t) = proj (mkState l c t')) ->
  (forall c, R c [EvFatal sc msg] (Some (Fatal sc msg))) ->
  traced proj R (emit (EvFatal sc msg) ;; @halt unit (Fatal sc msg)).
Proof.
  intros Hp H s; cbn. split.
  - destruct s; cbn. apply Hp.
  - exists [EvFatal sc msg]. split; [reflexivity|]. apply H.
Qed.

(** Along the chain of stages. *)
Lemma andthen_traced {A} R r (k : M A) :
  traced proj R k ->
  outcome r = Ret tt ->
  let r' := andthen r k in
  proj (final r') = proj (final r) /\
  exists evs, trace (final r') = trace (final r) ++ evs /\
              R (proj (final r)) evs (stopped (outcome r')).
Proof.
  intros Hk Hr. rewrite (andthen_ret _ _ Hr). apply Hk.
Qed.
End Traced.

Lemma each_emit {C} (phi : C -> Event -> Prop) eta c e :
  phi c e -> each phi eta c [e] None.
Proof. intro H. split; [repeat constructor; assumption|discriminate]. Qed.

Lemma each_halt {C} (phi : C -> Event -> Prop) (eta : C -> Halt -> Prop) c h :
  eta c h -> each phi eta c [] (Some h).
Proof. intro H. split; [constructor|]. now intros h' [= <-]. Qed.

Lemma each_fatal {C} (phi : C -> Event -> Prop) (eta : C -> Halt -> Prop)
      c sc msg :
  phi c (EvFatal sc msg) -> eta c (Fatal sc msg) ->
  each phi eta c [EvFatal sc msg] (Some (Fatal sc msg)).
Proof.
  intros H1 H2. split; [repeat constructor; assumption|]. now intros h' [= <-].
Qed.

(** In a partitioned run the rank in the world is the rank in the split
    communicator. *)
Lemma multi_world_eq E args s :
  LAMMPS.multi_world E args s =
  (let u := uni (lmp s) in
   let l := loc s in
   let me := Universe.split_rank u in
   emit (EvCommSplit (Universe.iworld u)) ;;
   upd_lmp (set_world (split_comm (Universe.iworld u))) ;;
   LAMMPS.world_screen E args u l me ;;
   LAMMPS.world_logfile E args u l me ;;
   LAMMPS.world_infile E args l me ;;
   LAMMPS.world_banners E me) s.
Proof. open_state s. reflexivity. Qed.

Ltac unfold_model :=
  unfold from_universe, from_world, from_datatypes, from_accelerator,
    from_notice, to_accelerator, to_datatypes, to_world,
    LAMMPS.top_level, LAMMPS.variant, LAMMPS.streams,
    LAMMPS.help, LAMMPS.cite_and_input, LAMMPS.notice, LAMMPS.accelerator,
    LAMMPS.check_datatypes, LAMMPS.world_streams,
    LAMMPS.world_banners, LAMMPS.world_infile, LAMMPS.world_logfile,
    LAMMPS.world_screen, LAMMPS.single_world, LAMMPS.universe_streams,
    LAMMPS.root_ulogfile, LAMMPS.root_uscreen, LAMMPS.check_partition,
    LAMMPS.invalid,
    LAMMPS.destroy, LAMMPS.init, LAMMPS.post_create, LAMMPS.create,
    LAMMPS.the_uni, LAMMPS.the_loc, LAMMPS.MPI_Comm_rank_world,
    LAMMPS.if_open, LAMMPS.fprintf, LAMMPS.sprintf, LAMMPS.fopen,
    LAMMPS.input_one, LAMMPS.call_init, LAMMPS.delete, LAMMPS.new,
    LAMMPS.arg,
    Error.universe_all, Error.universe_one, Error.universe_warn,
    Error.all, Error.one, Error.message, Error.done, upd_uni.

Ltac closedness := solve [auto 20 with closed_db].

Ltac at_leaf := unfold given; intros; subst.

(** One step of the decomposition of a program along its syntax; values
    are followed through [ret], the bounds tests of [arg] and [sprintf],
    and the result of [fopen]; a fatal call is taken as one piece. *)
Ltac tr_step :=
  cbv beta;
  lazymatch goal with
  | |- traced _ _ (LAMMPS.multi_world _ _) =>
      apply tr_at; intro; eexists; split; [apply multi_world_eq|];
      cbv zeta; unfold_model
  | |- traced _ _ (bind (gets _) _) => apply tr_gets_bind; intro
  | |- traced _ _ (bind (ret _) _) => apply tr_bind_ret
  | |- traced _ _ (bind (halt _) _) => apply tr_bind_halt
  | |- traced _ _ (bind (emit (EvFatal ?sc ?msg)) (fun _ => halt _)) =>
      apply tr_fatal; [reflexivity | at_leaf]
  | |- traced _ _ (bind (bind (emit (EvFatal ?sc ?msg)) (fun _ => halt _)) _) =>
      apply tr_bind; [closedness | | intro]
  | |- traced _ _ (bind (bind _ _) _) => apply tr_bind_assoc
  | |- traced _ _ (bind (if _ then ret _ else halt _) _) =>
      apply tr_bind_if; intro
  | |- traced _ _ (bind _ _) => apply tr_bind; [closedness | | intro]
  | |- traced _ _ (ret _) => apply tr_ret; closedness
  | |- traced _ _ (when _ _) => apply tr_when; [closedness | intro]
  | |- traced _ _ (match _ with Some x => @?f x | None => _ end) =>
      apply tr_option; intros
  | |- traced _ _ (if _ then _ else _) =>
      first [apply tr_if; intro | apply tr_option; intros]
  | |- traced _ _ (emit _) => apply tr_emit; [reflexivity | at_leaf]
  | |- traced _ _ (halt _) => apply tr_halt; at_leaf
  | |- traced _ _ (upd_lmp _) =>
      apply tr_upd_lmp;
      [closedness | let s := fresh "s" in intro s; open_state s; reflexivity]
  | |- traced _ _ (upd_loc _) =>
      apply tr_upd_loc;
      [closedness | let s := fresh "s" in intro s; open_state s; reflexivity]
  end.

Ltac tr_auto := unfold_model; repeat tr_step.

(** The leaves of an [each] judgement. *)
Ltac each_leaf :=
  lazymatch goal with
  | |- each _ _ _ [EvFatal _ _] (Some _) => apply each_fatal
  | |- each _ _ _ [_] None => apply each_emit
  | |- each _ _ _ [] (Some _) => apply each_halt
  end.


(** The stages up to the partition checks, for a relation that does not
    look at the state. *)
Section TracedPrelude.
Context (E : Env) (args : list string).
Context (R : unit -> list Event -> option Halt -> Prop).
Hypothesis R_closed : closed R.
Hypothesis R_new : forall p c, fundamental_ptr p = Some c ->
                               R tt [EvNew p c] None.
Hypothesis R_reorder : forall a b, R tt [EvReorder a b] None.
Hypothesis R_fatal :
  forall msg, In msg pool_messages ->
              R tt [EvFatal Pool msg] (Some (Fatal Pool msg)).
Hypothesis R_undefined : R tt [] (Some Undefined).
Hypothesis R_fuel : R tt [] (Some OutOfFuel).

Local Abbreviation proj := (fun _ : State => tt).

Lemma tr_partition_words rest : forall iarg,
  traced proj R (LAMMPS.partition_words E rest iarg).
Proof.
  induction rest as [|w rest IH]; intro iarg; cbn.
  - apply tr_ret; assumption.
  - destruct (starts_dash w); [apply tr_ret; assumption|].
    apply tr_bind; [assumption| |intro; apply IH].
    unfold upd_uni. apply tr_upd_lmp; [assumption|reflexivity].
Qed.

Ltac prelude_leaf :=
  try match goal with c : unit |- _ => destruct c end;
  first [ apply R_new; reflexivity
        | apply R_reorder
        | apply R_fatal; cbn; tauto
        | apply R_undefined
        | apply R_fuel ].

Lemma tr_parse_switch iarg :
  traced proj R (LAMMPS.parse_switch E args iarg).
Proof.
  unfold LAMMPS.parse_switch. unfold_model.
  repeat first
    [ apply tr_partition_words
    | tr_step ].
  all: prelude_leaf.
Qed.

Lemma tr_switches fuel : forall iarg,
  traced proj R (LAMMPS.switches E args fuel iarg).
Proof.
  induction fuel as [|fuel IH]; intro iarg; cbn.
  - destruct (iarg <? LAMMPS.narg args).
    + apply tr_halt. intros []. apply R_fuel.
    + apply tr_ret; assumption.
  - destruct (iarg <? LAMMPS.narg args).
    + apply tr_bind; [assumption|apply tr_parse_switch|intro; apply IH].
    + apply tr_ret; assumption.
Qed.

Lemma tr_startup : traced proj R (LAMMPS.startup E args).
Proof.
  unfold LAMMPS.startup.
  apply tr_bind; [assumption| |intro; apply tr_switches].
  unfold LAMMPS.fundamental. unfold_model. repeat tr_step.
  all: prelude_leaf.
Qed.

Lemma tr_check_partition : traced proj R (LAMMPS.check_partition E).
Proof.
  unfold LAMMPS.check_partition. unfold_model. repeat tr_step.
  all: prelude_leaf.
Qed.

(** What the trace holds when the partition has been checked. *)
Lemma prelude_traced :
  R tt (trace (final (after_partition E args)))
       (stopped (outcome (after_partition E args))).
Proof.
  unfold after_partition, after_startup. rewrite <- bind_andthen.
  destruct (tr_bind proj R (LAMMPS.startup E args)
              (fun _ => LAMMPS.check_partition E) R_closed tr_startup
              (fun _ => tr_check_partition) (blank E))
    as (_ & evs & Ht & Hr).
  cbn in Ht. rewrite Ht. exact Hr.
Qed.
End TracedPrelude.


(** ** The life cycle of the top-level classes *)

Lemma emitted_app {A} (m : M A) s evs :
  trace (final (m s)) = trace s ++ evs -> emitted m s = evs.
Proof.
  intro H. unfold emitted. rewrite H.
  rewrite skipn_app, skipn_all, Nat.sub_diag. reflexivity.
Qed.

(** What [create] does, whatever the state it starts in. *)
Lemma create_run E s :
  exists c1 c2 c3 c4,
    LAMMPS.create E s =
    (Ret tt,
     mkState
       (set_ptr timer (Some Timer) (set_ptr update (Some Update)
        (set_ptr output (Some Output) (set_ptr modify (Some c4)
        (set_ptr force (Some Force) (set_ptr group (Some Group)
        (set_ptr atom (Some Atom) (set_ptr domain (Some c3)
        (set_ptr neighbor (Some c2) (set_ptr comm (Some c1) (lmp s)))))))))))
       (loc s)
       (trace s ++
        [EvNew comm c1; EvNew neighbor c2; EvNew domain c3; EvNew atom Atom;
         EvCreateAvec "atomic" (suffix (lmp s));
         EvNew group Group; EvNew force Force; EvNew modify c4;
         EvNew output Output; EvNew update Update; EvNew timer Timer])).
Proof.
  open_state s. red_m.
  repeat case_if; do 4 eexists; rewrite <- !app_assoc; reflexivity.
Qed.

(** C3.  Run after [create], the destroy phase returns and deletes the ten
    top-level objects, and nothing else, in the order time-integration
    driver, neighbor-search engine, communication layer, force-field
    registry, group registry, output-writer registry, modifier/callback
    registry, spatial-domain manager, particle-data store, timing
    instrumentation; [create] builds them in the documented construction
    order, of which the destruction order is not the reverse; the
    [modify] pointer is then null. *)
Theorem destroy_order E s :
  let s1 := final (LAMMPS.create E s) in
  outcome (LAMMPS.create E s) = Ret tt /\
  built (emitted (LAMMPS.create E) s) = construction_order /\
  outcome (LAMMPS.destroy s1) = Ret tt /\
  map delete_target (emitted LAMMPS.destroy s1) = map Some destruction_order /\
  destruction_order <> rev construction_order /\
  ptr (lmp (final (LAMMPS.destroy s1))) modify = None.
Proof.
  destruct (create_run E s) as (c1 & c2 & c3 & c4 & Hc).
  cbv zeta. rewrite Hc. cbn [outcome final fst snd].
  split; [reflexivity|].
  split; [erewrite emitted_app by (rewrite Hc; reflexivity); reflexivity|].
  split; [reflexivity|].
  split; [|split; [discriminate|reflexivity]].
  erewrite emitted_app; [|cbn; rewrite <- !app_assoc; reflexivity].
  reflexivity.
Qed.

(** C4.  Run after [create], the init phase returns and, after the call
    into the accelerator when there is one, initializes in the order
    time-integration driver, force-field registry, spatial-domain manager,
    particle-data store, modifier/callback registry, neighbor-search
    engine, communication layer, output-writer registry, and nothing else;
    the construction order, also when cut down to these eight, is another
    order. *)
Theorem init_order E s :
  let s1 := final (LAMMPS.create E s) in
  outcome (LAMMPS.init s1) = Ret tt /\
  emitted LAMMPS.init s1 =
    (if non_null (ptr (lmp s) cuda) then [EvAccelerator] else [])
    ++ map EvInit initialization_order /\
  built (emitted (LAMMPS.create E) s) = construction_order /\
  initialization_order <> construction_order /\
  initialization_order
    <> filter (fun p => member p initialization_order) construction_order.
Proof.
  destruct (create_run E s) as (c1 & c2 & c3 & c4 & Hc).
  cbv zeta. rewrite Hc. cbn [outcome final fst snd].
  assert (Hi : forall s1, (forall p, is_subsystem p = true -> ptr (lmp s1) p <> None) ->
            LAMMPS.init s1 =
            (Ret tt, mkState (lmp s1) (loc s1)
               (trace s1 ++ (if non_null (ptr (lmp s1) cuda) then [EvAccelerator] else [])
                ++ map EvInit initialization_order))).
  { intros s1 Hp.
    pose proof (Hp update eq_refl). pose proof (Hp force eq_refl).
    pose proof (Hp domain eq_refl). pose proof (Hp atom eq_refl).
    pose proof (Hp modify eq_refl). pose proof (Hp neighbor eq_refl).
    pose proof (Hp comm eq_refl). pose proof (Hp output eq_refl).
    open_state s1. cbn in *. red_m.
    repeat (case_if; try congruence; lazy beta iota).
    all: cbn; rewrite <- ?app_assoc; reflexivity. }
  rewrite Hi.
  - cbn [outcome final fst snd]. split; [reflexivity|]. split.
    + erewrite emitted_app; [|rewrite Hi]. 
      * reflexivity.
      * reflexivity.
      * intros []; cbn; congruence.
    + split; [erewrite emitted_app by (rewrite Hc; reflexivity); reflexivity|].
      split; discriminate.
  - intros []; cbn; congruence.
Qed.


(** ** The constructor as a whole *)

(** Either the run stops pool-wide before the partition is settled, or it
    goes on from a settled configuration with the stretch [k]. *)
Lemma stage_split {C} (proj : State -> C) R E args (k : M unit) :
  traced proj R k ->
  let r := andthen (after_partition E args) k in
  let p := after_partition E args in
  (exists msg, outcome p = Stop (Fatal Pool msg) /\
               r = (Stop (Fatal Pool msg), final p)) \/
  (outcome p = Ret tt /\ ConfigInv E args (cfg (final p)) /\
   proj (final r) = proj (final p) /\
   exists evs, trace (final r) = trace (final p) ++ evs /\
               R (proj (final p)) evs (stopped (outcome r))).
Proof.
  intros Ht. cbv zeta.
  destruct (prelude E args) as (_ & _ & _ & _ & _ & [(msg & Hm)|(Hr & Hc)]).
  - left. exists msg. split; [assumption|]. apply andthen_stop; assumption.
  - right. split; [assumption|]. split; [assumption|].
    apply andthen_traced; assumption.
Qed.

Lemma run_split {C} (proj : State -> C) R E args :
  traced proj R (from_universe E args) ->
  let r := run E args in
  let p := after_partition E args in
  (exists msg, outcome p = Stop (Fatal Pool msg) /\
               r = (Stop (Fatal Pool msg), final p)) \/
  (outcome p = Ret tt /\ ConfigInv E args (cfg (final p)) /\
   proj (final r) = proj (final p) /\
   exists evs, trace (final r) = trace (final p) ++ evs /\
               R (proj (final p)) evs (stopped (outcome r))).
Proof.
  intros Ht. cbv zeta. rewrite run_from_partition.
  apply (stage_split proj R E args _ Ht).
Qed.

Lemma quiet_no_fopen e : quiet e -> is_fopen e = false.
Proof. destruct e; cbn; tauto. Qed.

Lemma quiet_no_subsystem e : quiet e -> builds_subsystem e = false.
Proof. destruct e as [[] []| | | | | | | | | | | | | |]; cbn; tauto. Qed.

(** After the partition checks nothing stops the run pool-wide. *)
Lemma no_pool_fatal_later E args :
  traced cfg (each always (fun _ h => ~ pool_fatal h)) (from_universe E args).
Proof.
  tr_auto. all: each_leaf. all: try exact I. all: intros [].
Qed.

(** C1.  For every command line: when the constructor stops with a
    pool-wide fatal error, no stream has been opened and no top-level
    class built; in every other case the sizes of the worlds sum to the
    pool size.  Without a -partition switch, a run that is not stopped
    pool-wide has the single world of the pool's size. *)
Theorem partition_consistent_or_pool_fatal E args :
  let r := run E args in
  match outcome r with
  | Stop (Fatal Pool _) =>
      Forall (fun e => is_fopen e = false /\ builds_subsystem e = false)
             (trace (final r))
  | _ =>
      Universe.total (Universe.worlds (uni (lmp (final r)))) = comm_size E /\
      Universe.nprocs (uni (lmp (final r))) = comm_size E /\
      (Universe.existflag (uni (lmp (parsed E args))) = 0 ->
       Universe.worlds (uni (lmp (final r))) = [comm_size E])
  end.
Proof.
  destruct (prelude E args) as (_ & _ & Hex & _ & Hq & _).
  destruct (run_split cfg _ E args (no_pool_fatal_later E args))
    as [(msg & Hp & ->)|(Hp & Hc & Hcfg & evs & Ht & _ & Hh)]; cbv zeta.
  - cbn. eapply Forall_impl; [|exact Hq].
    intros e He. split; [now apply quiet_no_fopen|now apply quiet_no_subsystem].
  - assert (Hgood :
      Universe.total (Universe.worlds (uni (lmp (final (run E args))))) = comm_size E /\
      Universe.nprocs (uni (lmp (final (run E args)))) = comm_size E /\
      (Universe.existflag (uni (lmp (parsed E args))) = 0 ->
       Universe.worlds (uni (lmp (final (run E args)))) = [comm_size E])).
    { destruct Hc as [_ _ Hn Htot Hexi].
      change (Universe.worlds (uni (lmp (final (run E args)))))
        with (c_worlds (cfg (final (run E args)))).
      change (Universe.nprocs (uni (lmp (final (run E args)))))
        with (c_nprocs (cfg (final (run E args)))).
      rewrite Hcfg. split; [assumption|]. split; [assumption|].
      intro H0. rewrite <- Hex in H0.
      change (Universe.existflag (uni (lmp (final (after_partition E args)))))
        with (c_existflag (cfg (final (after_partition E args)))) in H0.
      destruct Hexi as [(_ & Hw & _)|(H1 & _)]; [assumption|lia]. }
    destruct (outcome (run E args)) as [[]|[[] msg| | |]] eqn:Ho;
      try exact Hgood.
    exfalso. apply (Hh _ eq_refl). exact I.
Qed.

(** C8.  When the switch loop has seen -partition (the partition flag is
    set) and no -in (the index of the input file is 0), the constructor
    stops with a pool-wide fatal error, and no [fopen] has been made. *)
Theorem partition_without_in_is_pool_fatal E args :
  Universe.existflag (uni (lmp (parsed E args))) <> 0 ->
  inflag (loc (parsed E args)) = 0 ->
  (exists msg, outcome (run E args) = Stop (Fatal Pool msg)) /\
  Forall (fun e => is_fopen e = false) (trace (final (run E args))).
Proof.
  intros Hex Hin.
  destruct (prelude E args) as (_ & Hl & He & _ & Hq & _).
  destruct (run_split cfg _ E args (no_pool_fatal_later E args))
    as [(msg & Hp & ->)|(Hp & Hc & _)].
  - cbn. split; [eexists; reflexivity|]. eapply Forall_impl; [|exact Hq].
    intros e. apply quiet_no_fopen.
  - exfalso. destruct Hc as [_ _ _ _ [(H0 & _)|(_ & H1)]]; cbn in *.
    + congruence.
    + rewrite Hl in H1. contradiction.
Qed.

(** Two processes, a command line with -partition and without -in. *)
Lemma partition_without_in_witness :
  (exists msg,
     outcome (run (Examples.env 0 2 [] false) Examples.partition_no_in)
     = Stop (Fatal Pool msg)) /\
  Forall (fun e => is_fopen e = false)
         (trace (final (run (Examples.env 0 2 [] false)
                            Examples.partition_no_in))).
Proof.
  apply partition_without_in_is_pool_fatal.
  - vm_compute. discriminate.
  - vm_compute. reflexivity.
Defined.

(** The switch loop leaves the index of the input file at 0 when no word
    of the command line is -in or -i. *)
Lemma no_in_switch E args :
  Forall (fun a => LAMMPS.switch a "-in" "-i" = false) args ->
  inflag (loc (parsed E args)) = 0.
Proof.
  destruct (prelude E args) as ([[] _ _ _ _ _] & _). assumption.
Qed.


(** ** The default log, -help and the citation collaborator *)

(** Equalities between configurations, field by field. *)
Ltac cfg_inj :=
  repeat match goal with
  | H : cfg _ = cfg _ |- _ =>
      unfold cfg in H; injection H as ? ? ? ? ? ?
  end;
  cbn [cfg c_loc c_me c_nprocs c_existflag c_worlds c_iworld] in *.

Lemma c_loc_cfg s : c_loc (cfg s) = loc s.
Proof. reflexivity. Qed.

Lemma in_trace_app (e : Event) t evs : In e t -> In e (t ++ evs).
Proof. intro. apply in_or_app. now left. Qed.

(** The rest of the run only appends to the trace. *)
Lemma from_world_grows E args r :
  outcome r = Ret tt ->
  exists evs,
    trace (final (andthen r (from_world E args))) = trace (final r) ++ evs.
Proof.
  intro Hr. rewrite (andthen_ret _ _ Hr).
  assert (Ht : traced (fun _ : State => tt)
                      (each (fun _ _ => True) (fun _ _ => True))
                      (from_world E args)).
  { tr_auto. all: each_leaf. all: exact I. }
  destruct (Ht (final r)) as (_ & evs & He & _). eauto.
Qed.

(** On pool rank 0, without -help and -log, the universe streams open the
    default log unless the universe screen could not be opened. *)
Lemma universe_streams_default_log E args s :
  LocalsInv args (loc s) ->
  Universe.me (uni (lmp s)) = 0 ->
  logflag (loc s) = 0 -> helpflag (loc s) = 0 ->
  let r := LAMMPS.universe_streams E args s in
  outcome r = Stop (Fatal Process "Cannot open universe screen file") \/
  outcome r = Ret tt /\
  In (EvFopen v_ulogfile "log.lammps" "w" (fopen_ok E "log.lammps" "w"))
     (trace (final r)).
Proof.
  intros [] Hme Hlog Hhelp. unfold flag_ok in *.
  open_state s. cbn in *. subst. red_m.
  cases; zb; try lia; auto.
  all: right; split; [reflexivity|].
  all: rewrite <- ?app_assoc; apply in_or_app; right; cbn; auto 10.
Qed.

(** With -help and without -log no stage opens a universe log; with -help
    no stage builds the citation collector. *)
Lemma help_events E args :
  traced cfg
    (each (fun c e =>
             (helpflag (c_loc c) <> 0 -> logflag (c_loc c) = 0 ->
              opens_ulogfile e = false) /\
             (citeflag (c_loc c) = 0 -> builds citeme e = false))
          always)
    (from_universe E args).
Proof.
  tr_auto. all: each_leaf. all: try exact I.
  all: cfg_inj; zb; split; intros; try reflexivity; try congruence.
Qed.

Lemma quiet_no_ulog e : quiet e -> opens_ulogfile e = false.
Proof. destruct e; cbn; tauto. Qed.

Lemma quiet_no_citeme e : quiet e -> builds citeme e = false.
Proof. destruct e as [[] []| | | | | | | | | | | | | |]; cbn; tauto. Qed.


(** ** The accelerator directive *)

Lemma accelerator_forced_on E s :
  cudaflag (loc s) = 1 -> cuda_exists E = false ->
  outcome (LAMMPS.accelerator E s) = Stop (Fatal World cuda_missing).
Proof.
  intros Hc He. open_state s. cbn in *. subst. red_m. rewrite He.
  reflexivity.
Qed.

Lemma accelerator_fallback E s :
  cudaflag (loc s) = -1 -> cuda_exists E = false ->
  outcome (LAMMPS.accelerator E s) = Ret tt /\
  ptr (lmp (final (LAMMPS.accelerator E s))) cuda = None.
Proof.
  intros Hc He. open_state s. cbn in *. subst. red_m. rewrite He.
  split; reflexivity.
Qed.

(** No stage before the choice of the accelerator ends the run
    successfully. *)
Lemma no_finish_to_datatypes E args :
  traced cfg (each always (fun _ h => h <> Finished)) (to_datatypes E args).
Proof.
  tr_auto. all: each_leaf. all: try exact I. all: discriminate.
Qed.

(** Unless it is forced on, the missing accelerator stops no stage. *)
Lemma cuda_missing_only_forced E args :
  traced cfg
    (each (fun c e => cudaflag (c_loc c) <> 1 ->
                      forall sc, e <> EvFatal sc cuda_missing)
          (fun c h => cudaflag (c_loc c) <> 1 ->
                      forall sc, h <> Fatal sc cuda_missing))
    (from_universe E args).
Proof.
  tr_auto. all: each_leaf.
  all: try (intros; discriminate).
  all: cfg_inj; zb; congruence.
Qed.

(** Forced off, no stage builds the accelerator context. *)
Lemma forced_off_builds_none E args :
  traced cfg
    (each (fun c e => cudaflag (c_loc c) = 0 -> builds cuda e = false) always)
    (from_universe E args).
Proof.
  tr_auto. all: each_leaf. all: try exact I.
  all: try (intros; reflexivity).
  all: cfg_inj; zb; congruence.
Qed.

(** Up to the choice of the accelerator nothing is said about it and no
    class of the accelerated variant is built. *)
Lemma silent_to_accelerator E args :
  traced cfg
    (each (fun _ e => is_message e = false /\ builds_accelerated e = false)
          always)
    (to_accelerator E args).
Proof.
  tr_auto. all: each_leaf. all: try exact I. all: split; reflexivity.
Qed.

(** Nor is it afterwards, when the accelerator pointer is null. *)
Lemma silent_from_notice E :
  traced (fun s => ptr (lmp s) cuda)
    (each (fun pc e => pc = None ->
                       is_message e = false /\ builds_accelerated e = false)
          always)
    (from_notice E).
Proof.
  tr_auto. all: each_leaf. all: try exact I.
  all: try (intros; split; reflexivity).
  all: intros Hn.
  all: repeat match goal with
       | H : ptr (lmp ?a) cuda = ptr (lmp ?b) cuda |- _ =>
           rewrite H in *; clear H
       end.
  all: try (rewrite Hn in *; cbn in *; discriminate).
Qed.

Lemma quiet_silent e :
  quiet e -> is_message e = false /\ builds_accelerated e = false.
Proof. destruct e as [[] []| | | | | | | | | | | | | |]; cbn; tauto. Qed.

Lemma quiet_no_cuda e : quiet e -> builds cuda e = false.
Proof. destruct e as [[] []| | | | | | | | | | | | | |]; cbn; tauto. Qed.

(** The missing accelerator stops no stage up to the partition checks. *)
Lemma prelude_no_cuda_missing E args :
  each (fun _ e => forall sc, e <> EvFatal sc cuda_missing)
       (fun _ h => forall sc, h <> Fatal sc cuda_missing)
       tt (trace (final (after_partition E args)))
       (stopped (outcome (after_partition E args))).
Proof.
  apply prelude_traced.
  - apply closed_each.
  - intros. apply each_emit. discriminate.
  - intros. apply each_emit. discriminate.
  - intros msg Hm. apply each_fatal; intros sc Heq; cbn in Hm;
      intuition (subst; discriminate).
  - apply each_halt. discriminate.
  - apply each_halt. discriminate.
Qed.

Lemma stopped_stop {A} (o : Outcome A) h : o = Stop h -> stopped o = Some h.
Proof. intros ->. reflexivity. Qed.

(** The configuration is the same at the choice of the accelerator. *)
Lemma cfg_after_datatypes E args :
  outcome (after_datatypes E args) = Ret tt ->
  loc (final (after_datatypes E args)) = loc (parsed E args).
Proof.
  intro Hd. destruct (prelude E args) as (_ & Hl & _).
  rewrite after_datatypes_eq in *.
  destruct (stage_split cfg _ E args _ (no_finish_to_datatypes E args))
    as [(msg & Hp & Hr)|(Hp & Hc & Hcfg & _)].
  - rewrite Hr in Hd. discriminate Hd.
  - rewrite <- Hl, <- !c_loc_cfg. f_equal. exact Hcfg.
Qed.

(** C6.  Forced on ([-cuda on]) with the capability absent, the
    constructor neither completes nor ends successfully, and stops with
    the world-collective fatal error about the missing package as soon as
    the stages before the choice have returned.  On auto (no [-cuda]
    switch) no stage ever reports that error; with the capability absent
    no notice is given, no class of the accelerated variant is built, and
    the accelerator pointer is null once the choice is made.  Forced off
    ([-cuda off]), the accelerator context is never built. *)
Theorem accelerator_directive E args :
  let r := run E args in
  let l := loc (parsed E args) in
  (cudaflag l = 1 -> cuda_exists E = false ->
   outcome r <> Ret tt /\ outcome r <> Stop Finished /\
   (outcome (after_datatypes E args) = Ret tt ->
    outcome r = Stop (Fatal World cuda_missing))) /\
  (cudaflag l = -1 ->
   (forall sc, outcome r <> Stop (Fatal sc cuda_missing)) /\
   Forall (fun e => forall sc, e <> EvFatal sc cuda_missing)
          (trace (final r)) /\
   (cuda_exists E = false ->
    Forall (fun e => is_message e = false /\ builds_accelerated e = false)
           (trace (final r)) /\
    (outcome (after_accelerator E args) = Ret tt ->
     ptr (lmp (final (after_accelerator E args))) cuda = None))) /\
  (cudaflag l = 0 ->
   Forall (fun e => builds cuda e = false) (trace (final r))).
Proof.
  cbv zeta.
  destruct (prelude E args) as (_ & Hl & _ & _ & Hq & _).
  split; [|split].
  - (* forced on *)
    intros Hon Hno.
    assert (Hstop : outcome (after_datatypes E args) = Ret tt ->
                    outcome (run E args) = Stop (Fatal World cuda_missing)).
    { intro Hd. rewrite run_from_datatypes, (andthen_ret _ _ Hd).
      unfold from_accelerator. rewrite bind_andthen.
      erewrite andthen_stop; [reflexivity|].
      apply accelerator_forced_on; [|assumption].
      rewrite cfg_after_datatypes; assumption. }
    destruct (outcome (after_datatypes E args)) as [[]|h] eqn:Hd.
    + rewrite (Hstop eq_refl). repeat split; discriminate.
    + assert (Hr : outcome (run E args) = Stop h).
      { rewrite run_from_datatypes, (andthen_stop _ _ _ Hd). reflexivity. }
      rewrite Hr. split; [discriminate|]. split; [|discriminate].
      intros [= ->].
      rewrite after_datatypes_eq in Hd.
      destruct (stage_split cfg _ E args _ (no_finish_to_datatypes E args))
        as [(msg & Hp & Hr')|(Hp & Hc & Hcfg & evs & Ht & _ & Hh)].
      * rewrite Hr' in Hd. discriminate Hd.
      * apply (Hh Finished); [|reflexivity].
        apply stopped_stop. exact Hd.
  - (* auto *)
    intros Hauto.
    destruct (prelude_no_cuda_missing E args) as (Hpe & Hph).
    assert (Hne : cudaflag (loc (parsed E args)) <> 1) by lia.
    split; [|split].
    + intros sc Ho.
      destruct (run_split cfg _ E args (cuda_missing_only_forced E args))
        as [(msg & Hp & Hr)|(Hp & Hc & Hcfg & evs & Ht & _ & Hh)].
      * rewrite Hr in Ho. cbn in Ho.
        apply (Hph _ (stopped_stop _ _ Hp) sc). congruence.
      * apply (Hh _ (stopped_stop _ _ Ho)) with (sc := sc);
          [rewrite c_loc_cfg, Hl; assumption|reflexivity].
    + destruct (run_split cfg _ E args (cuda_missing_only_forced E args))
        as [(msg & Hp & Hr)|(Hp & Hc & Hcfg & evs & Ht & Hev & _)].
      * rewrite Hr. exact Hpe.
      * rewrite Ht. apply Forall_app. split; [exact Hpe|].
        eapply Forall_impl; [|exact Hev]. intros e He. apply He.
        rewrite c_loc_cfg, Hl; assumption.
    + intros Hno.
      assert (Hnull : outcome (after_accelerator E args) = Ret tt ->
                ptr (lmp (final (after_accelerator E args))) cuda = None).
      { unfold after_accelerator.
        destruct (outcome (after_datatypes E args)) as [[]|h] eqn:Hd.
        - rewrite (andthen_ret _ _ Hd). intros _.
          apply accelerator_fallback; [|assumption].
          rewrite cfg_after_datatypes; assumption.
        - rewrite (andthen_stop _ _ _ Hd). discriminate. }
      split; [|exact Hnull].
      assert (Hto : Forall (fun e => is_message e = false /\
                                     builds_accelerated e = false)
                           (trace (final (after_accelerator E args)))).
      { rewrite after_accelerator_eq.
        destruct (stage_split cfg _ E args _ (silent_to_accelerator E args))
          as [(msg & Hp & Hr)|(Hp & Hc & Hcfg & evs & Ht & Hev & _)].
        - rewrite Hr. eapply Forall_impl; [|exact Hq].
          intro; apply quiet_silent.
        - rewrite Ht. apply Forall_app. split; [|exact Hev].
          eapply Forall_impl; [|exact Hq]. intro; apply quiet_silent. }
      rewrite run_from_accelerator.
      destruct (outcome (after_accelerator E args)) as [[]|h] eqn:Ha.
      * destruct (andthen_traced _ _ _ _ (silent_from_notice E) Ha)
          as (_ & evs & Ht & Hev & _).
        rewrite Ht. apply Forall_app. split; [exact Hto|].
        eapply Forall_impl; [|exact Hev]. intros e He. apply He.
        apply Hnull. reflexivity.
      * rewrite (andthen_stop _ _ _ Ha). exact Hto.
  - (* forced off *)
    intros Hoff.
    destruct (run_split cfg _ E args (forced_off_builds_none E args))
      as [(msg & Hp & Hr)|(Hp & Hc & Hcfg & evs & Ht & Hev & _)].
    + rewrite Hr. eapply Forall_impl; [|exact Hq]. intro; apply quiet_no_cuda.
    + rewrite Ht. apply Forall_app. split.
      * eapply Forall_impl; [|exact Hq]. intro; apply quiet_no_cuda.
      * eapply Forall_impl; [|exact Hev]. intros e He. apply He.
        rewrite c_loc_cfg, Hl; assumption.
Qed.


(** ** The datatype checks *)

Lemma mpi_mismatch_not_ok E : mpi_mismatch E = true -> datatypes_ok E = false.
Proof.
  intro H. unfold datatypes_ok. rewrite H. cbn.
  rewrite !andb_false_r. reflexivity.
Qed.

(** With a wrong setting the checks stop the world, with one report. *)
Lemma check_datatypes_stops E s :
  datatypes_ok E = false ->
  exists msg,
    In msg datatype_messages /\
    LAMMPS.check_datatypes E s
    = (Stop (Fatal World msg),
       mkState (lmp s) (loc s) (trace s ++ [EvFatal World msg])).
Proof.
  intro Hok. unfold datatypes_ok, mpi_mismatch, sized in Hok.
  open_state s. red_m. cases.
  all: try (eexists; split; [|reflexivity]; cbn; tauto).
  all: exfalso.
  all: repeat match goal with
         | H : negb ?c = false |- _ => apply negb_false_iff in H
         | H : (?a || ?b) = false |- _ =>
             apply orb_false_elim in H; destruct H
         end.
  all: revert Hok.
  all: repeat match goal with
         | H : ?c = ?b |- _ => rewrite H; clear H
         end.
  all: cbn; discriminate.
Qed.

Lemma no_message_filter evs :
  Forall (fun e => is_message e = false) evs -> filter is_message evs = [].
Proof.
  induction 1 as [|e l He _ IH]; cbn; [reflexivity|]. now rewrite He.
Qed.

(** No top-level class and no accelerator context is built, and the run
    does not end successfully, before the datatype checks. *)
Lemma nothing_built_to_world E args :
  traced cfg
    (each (fun _ e => builds_subsystem e = false /\ builds cuda e = false)
          (fun _ h => h <> Finished))
    (to_world E args).
Proof.
  tr_auto. all: each_leaf. all: try (split; reflexivity). all: discriminate.
Qed.

Lemma fatal_once_to_world E args :
  traced (fun _ => tt) fatal_once (to_world E args).
Proof. tr_auto. all: reflexivity. Qed.

Lemma fatal_once_prelude E args :
  fatal_once tt (trace (final (after_partition E args)))
             (stopped (outcome (after_partition E args))).
Proof.
  apply prelude_traced; try reflexivity.
  apply closed_fatal_once.
Qed.

Lemma quiet_builds_nothing e :
  quiet e -> builds_subsystem e = false /\ builds cuda e = false.
Proof. destruct e as [[] []| | | | | | | | | | | | | |]; cbn; tauto. Qed.

(** C9, as amended.  When a datatype setting is wrong (in particular when
    an MPI type has not the size of its integer type), the constructor
    never builds a top-level class nor the accelerator context and neither
    completes nor ends successfully; once stream resolution has returned,
    it stops with a world-collective fatal error, one of the datatype
    messages, and that is the only fatal report of the run. *)
Theorem datatype_mismatch_is_world_fatal E args :
  datatypes_ok E = false ->
  let r := run E args in
  Forall (fun e => builds_subsystem e = false /\ builds cuda e = false)
         (trace (final r)) /\
  outcome r <> Ret tt /\ outcome r <> Stop Finished /\
  (outcome (after_world E args) = Ret tt ->
   exists msg,
     In msg datatype_messages /\
     outcome r = Stop (Fatal World msg) /\
     filter is_fatal (trace (final r)) = [EvFatal World msg]).
Proof.
  intros Hbad. cbv zeta.
  destruct (prelude E args) as (_ & _ & _ & _ & Hq & _).
  assert (Hw : Forall (fun e => builds_subsystem e = false /\
                                builds cuda e = false)
                      (trace (final (after_world E args))) /\
               forall h, outcome (after_world E args) = Stop h ->
                         h <> Finished).
  { rewrite after_world_eq.
    destruct (stage_split cfg _ E args _ (nothing_built_to_world E args))
      as [(msg & Hp & Hr)|(Hp & Hc & Hcfg & evs & Ht & Hev & Hh)].
    - rewrite Hr. split.
      + eapply Forall_impl; [|exact Hq]. intro; apply quiet_builds_nothing.
      + intros h [= <-]. discriminate.
    - split.
      + rewrite Ht. apply Forall_app. split; [|exact Hev].
        eapply Forall_impl; [|exact Hq]. intro; apply quiet_builds_nothing.
      + intros h Hs. apply Hh. apply stopped_stop. exact Hs. }
  destruct Hw as (Hw & Hwh).
  rewrite run_from_world.
  destruct (outcome (after_world E args)) as [[]|h] eqn:Ho.
  - rewrite (andthen_ret _ _ Ho). unfold from_datatypes.
    rewrite bind_andthen.
    destruct (check_datatypes_stops E (final (after_world E args)) Hbad)
      as (msg & Hin & Hs).
    rewrite Hs. cbn [andthen outcome final fst snd trace].
    split; [|split; [discriminate|split; [discriminate|]]].
    + apply Forall_app. split; [exact Hw|]. repeat constructor.
    + intros _. exists msg. split; [exact Hin|]. split; [reflexivity|].
      rewrite filter_app. cbn.
      assert (Hnone : filter is_fatal (trace (final (after_world E args))) = []).
      { rewrite after_world_eq. rewrite after_world_eq in Ho.
        pose proof (fatal_once_prelude E args) as Hp1.
        destruct (outcome (after_partition E args)) as [[]|h] eqn:Hp.
        - destruct (andthen_traced _ _ _ _ (fatal_once_to_world E args) Hp)
            as (_ & evs & Ht & Hf).
          unfold fatal_once in Hf, Hp1. rewrite Ho in Hf. cbn in Hf, Hp1.
          rewrite Ht, filter_app, Hp1, Hf. reflexivity.
        - rewrite (andthen_stop _ _ _ Hp) in Ho. discriminate Ho. }
      rewrite Hnone. reflexivity.
  - rewrite (andthen_stop _ _ _ Ho). cbn [outcome final fst snd].
    split; [exact Hw|]. split; [discriminate|]. split.
    + intros [= ->]. apply (Hwh Finished); reflexivity.
    + discriminate.
Qed.


(** ** The notice about the accelerator *)

(** The notice is given or not, and nothing else happens. *)
Lemma notice_run s :
  LAMMPS.notice s =
  (Ret tt,
   mkState (lmp s) (loc s)
     (trace s ++
      if non_null (ptr (lmp s) cuda) && (world_rank s =? 0)
      then [EvMessage cuda_notice] else [])).
Proof.
  open_state s. unfold world_rank. red_m. cbn [lmp world uni ptr].
  destruct w_comm; cbn [Universe.me].
  - destruct (objs cuda); cbn; [|rewrite app_nil_r; reflexivity].
    destruct (_ =? 0); [reflexivity|rewrite app_nil_r; reflexivity].
  - destruct (objs cuda); cbn; [|rewrite app_nil_r; reflexivity].
    destruct (_ =? 0); [reflexivity|rewrite app_nil_r; reflexivity].
Qed.

Lemma top_level_no_message E :
  traced (fun _ : State => tt)
         (each (fun _ e => is_message e = false) always)
         (LAMMPS.top_level E).
Proof. tr_auto. all: each_leaf. all: try exact I. all: reflexivity. Qed.

(** The communicator and the universe are settled after the world
    streams. *)
Lemma world_kept E :
  traced (fun s => (uni (lmp s), world (lmp s))) (each always always)
         (LAMMPS.check_datatypes E ;; LAMMPS.accelerator E).
Proof. tr_auto. all: each_leaf. all: exact I. Qed.

(** Without the partition switch the world is the universe. *)
Lemma single_world_comm E args s :
  Universe.existflag (uni (lmp s)) = 0 ->
  world (lmp (final (LAMMPS.world_streams E args s))) = uworld.
Proof.
  intro He. open_state s. cbn in He. subst.
  unfold LAMMPS.world_streams.
  lazy beta iota delta [bind gets LAMMPS.the_uni lmp uni Universe.existflag].
  change (0 =? 0) with true. lazy iota.
  red_m. cases. all: reflexivity.
Qed.

Lemma universe_streams_cfg E args :
  traced cfg (each always always) (LAMMPS.universe_streams E args).
Proof. tr_auto. all: each_leaf. all: exact I. Qed.

Lemma to_accelerator_cfg E args :
  traced cfg (each always always) (to_accelerator E args).
Proof. tr_auto. all: each_leaf. all: exact I. Qed.

Lemma after_accelerator_from_world E args :
  after_accelerator E args
  = andthen (after_world E args)
            (LAMMPS.check_datatypes E ;; LAMMPS.accelerator E).
Proof.
  unfold after_accelerator, after_datatypes. now rewrite <- andthen_bind.
Qed.

Lemma ret_andthen {A} r (k : M A) a :
  outcome (andthen r k) = Ret a -> outcome r = Ret tt.
Proof. destruct r as [[[]|h] s]; cbn; [reflexivity|discriminate]. Qed.

(** In a run without the partition switch the rank in the world is the
    rank in the pool. *)
Lemma world_rank_unpartitioned E args :
  outcome (after_accelerator E args) = Ret tt ->
  Universe.existflag (uni (lmp (final (after_accelerator E args)))) = 0 ->
  world_rank (final (after_accelerator E args)) = comm_rank E.
Proof.
  intros Ha He.
  assert (Hw : outcome (after_world E args) = Ret tt).
  { rewrite after_accelerator_from_world in Ha.
    apply (ret_andthen _ _ _ Ha). }
  assert (Hu : outcome (after_universe E args) = Ret tt).
  { unfold after_world in Hw. apply (ret_andthen _ _ _ Hw). }
  assert (Hp : outcome (after_partition E args) = Ret tt).
  { unfold after_universe in Hu. apply (ret_andthen _ _ _ Hu). }
  (* the configuration *)
  destruct (stage_split cfg _ E args _ (to_accelerator_cfg E args))
    as [(msg & Hp' & _)|(_ & Hc & Hcfg & _)];
    [rewrite Hp in Hp'; discriminate Hp'|].
  rewrite <- after_accelerator_eq in Hcfg.
  destruct (andthen_traced _ _ _ _ (universe_streams_cfg E args) Hp)
    as (Hcu & _).
  fold (after_universe E args) in Hcu.
  (* the communicator *)
  destruct (andthen_traced _ _ _ _ (world_kept E) Hw) as (Hk & _).
  rewrite <- after_accelerator_from_world in Hk.
  apply pair_equal_spec in Hk. destruct Hk as [Huni Hworld].
  unfold world_rank. rewrite Hworld.
  unfold after_world. rewrite (andthen_ret _ _ Hu).
  rewrite single_world_comm.
  - change (Universe.me (uni (lmp (final (after_accelerator E args)))))
      with (c_me (cfg (final (after_accelerator E args)))).
    rewrite Hcfg. exact (ci_me _ _ _ Hc).
  - change (Universe.existflag (uni (lmp (final (after_universe E args)))))
      with (c_existflag (cfg (final (after_universe E args)))).
    rewrite Hcu, <- Hcfg. exact He.
Qed.

(** C7, as amended.  When the choice of the accelerator has returned, the
    notice is given exactly when the accelerator context is there and the
    process has rank 0 in its world, and then once; no other message is
    ever given; in a run without the partition switch that rank is the
    rank in the pool. *)
Theorem notice_by_world_rank_0 E args :
  let r := run E args in
  let a := after_accelerator E args in
  (outcome a = Ret tt ->
   filter is_message (trace (final r)) =
     if non_null (ptr (lmp (final a)) cuda) && (world_rank (final a) =? 0)
     then [EvMessage cuda_notice] else []) /\
  (outcome a <> Ret tt -> filter is_message (trace (final r)) = []) /\
  (outcome a = Ret tt ->
   Universe.existflag (uni (lmp (final a))) = 0 ->
   world_rank (final a) = comm_rank E).
Proof.
  cbv zeta.
  destruct (prelude E args) as (_ & _ & _ & _ & Hq & _).
  assert (Hto : filter is_message (trace (final (after_accelerator E args)))
                = []).
  { apply no_message_filter. rewrite after_accelerator_eq.
    destruct (stage_split cfg _ E args _ (silent_to_accelerator E args))
      as [(msg & Hp & Hr)|(Hp & Hc & Hcfg & evs & Ht & Hev & _)].
    - rewrite Hr. eapply Forall_impl; [|exact Hq].
      intros e He. apply (quiet_silent e He).
    - rewrite Ht. apply Forall_app. split.
      + eapply Forall_impl; [|exact Hq]. intros e He. apply (quiet_silent e He).
      + eapply Forall_impl; [|exact Hev]. intros e He. apply He. }
  split; [|split].
  - intro Ha. rewrite run_chain. unfold after_notice.
    rewrite (andthen_ret _ _ Ha), notice_run.
    match goal with
    | |- context [andthen (Ret tt, ?s) _] =>
        destruct (top_level_no_message E s) as (_ & evs & Ht & Hev & _)
    end.
    cbn [andthen]. rewrite Ht. cbn [final snd trace].
    rewrite !filter_app, Hto, (no_message_filter evs Hev), app_nil_r.
    destruct (non_null _ && _); reflexivity.
  - intro Ha. rewrite run_from_accelerator.
    destruct (outcome (after_accelerator E args)) as [[]|h] eqn:Ho;
      [contradiction|].
    rewrite (andthen_stop _ _ _ Ho). exact Hto.
  - apply world_rank_unpartitioned.
Qed.


(** ** Who opens which stream *)

(** Only pool rank 0 opens a universe stream; a world stream is opened
    only in a partitioned run, by the process of rank 0 in the world. *)
Lemma opens_by_rank E args :
  traced cfg
    (each (fun c e =>
             (c_me c <> 0 -> opens_universe e = false) /\
             (c_existflag c = 0 \/
              Universe.rank_in_split (c_worlds c) (c_me c) <> 0 ->
              opens_world e = false))
          always)
    (from_universe E args).
Proof.
  tr_auto. all: each_leaf. all: try exact I.
  all: try (split; intros; reflexivity).
  all: unfold Universe.split_rank in *; cfg_inj; zb.
  all: split; intros; try reflexivity; try congruence.
  all: intuition congruence.
Qed.

Lemma quiet_opens_nothing e :
  quiet e -> opens_universe e = false /\ opens_world e = false.
Proof. destruct e; cbn; tauto. Qed.

(** Off pool rank 0 the universe streams are set without any event. *)
Lemma universe_streams_nonroot E args s :
  0 < Universe.me (uni (lmp s)) ->
  LAMMPS.universe_streams E args s =
  (Ret tt,
   mkState
     (set_uni (Universe.set_ulogfile None
                 (Universe.set_uscreen
                    (if screenflag (loc s) =? 0 then Some stdout else None)
                    (uni (lmp s))))
              (lmp s))
     (loc s) (trace s)).
Proof.
  intro Hme. open_state s. cbn in Hme.
  assert (H0 : (u_me =? 0) = false) by (apply Z.eqb_neq; lia).
  assert (H1 : (u_me >? 0) = true) by (rewrite Z.gtb_ltb; apply Z.ltb_lt; lia).
  red_m. rewrite H0, H1. lazy beta iota. cases; reflexivity.
Qed.

(** The world streams leave the universe alone. *)
Lemma world_streams_uni E args :
  traced (fun s => uni (lmp s)) (each always always)
         (LAMMPS.world_streams E args).
Proof. tr_auto. all: each_leaf. all: exact I. Qed.

(** Without the partition switch the world takes the streams of the
    universe, whether the stage returns or stops. *)
Lemma single_world_streams E args s :
  Universe.existflag (uni (lmp s)) = 0 ->
  let s' := final (LAMMPS.world_streams E args s) in
  world (lmp s') = uworld /\
  screen (lmp s') = Universe.uscreen (uni (lmp s)) /\
  logfile (lmp s') = Universe.ulogfile (uni (lmp s)).
Proof.
  intro He. open_state s. cbn in He. subst.
  unfold LAMMPS.world_streams.
  lazy beta iota delta [bind gets LAMMPS.the_uni lmp uni Universe.existflag].
  change (0 =? 0) with true. lazy iota.
  red_m. cases. all: repeat split; reflexivity.
Qed.

(** What follows the split of the communicator keeps the communicator. *)
Lemma after_split_comm E args u l me :
  traced (fun s => world (lmp s)) (each always always)
    (LAMMPS.world_screen E args u l me ;;
     LAMMPS.world_logfile E args u l me ;;
     LAMMPS.world_infile E args l me ;;
     LAMMPS.world_banners E me).
Proof. tr_auto. all: each_leaf. all: exact I. Qed.

(** With the partition switch the world is the split communicator. *)
Lemma multi_world_comm E args s :
  Universe.existflag (uni (lmp s)) <> 0 ->
  world (lmp (final (LAMMPS.world_streams E args s)))
  = split_comm (Universe.iworld (uni (lmp s))).
Proof.
  intro He.
  assert (Hw : LAMMPS.world_streams E args s = LAMMPS.multi_world E args s).
  { unfold LAMMPS.world_streams, bind, LAMMPS.the_uni, gets.
    apply Z.eqb_neq in He. rewrite He. reflexivity. }
  rewrite Hw, multi_world_eq. cbv zeta.
  unfold bind at 1. unfold emit at 1.
  unfold bind at 1. unfold upd_lmp at 1.
  match goal with
  | |- world (lmp (final (?k ?s1))) = _ =>
      destruct (after_split_comm E args (uni (lmp s)) (loc s)
                  (Universe.split_rank (uni (lmp s))) s1) as (Hp & _)
  end.
  cbn beta in Hp. rewrite Hp. reflexivity.
Qed.

(** There, off rank 0 of the world, no world stream is set. *)
Lemma multi_world_nonroot E args s :
  Universe.existflag (uni (lmp s)) <> 0 ->
  Universe.split_rank (uni (lmp s)) <> 0 ->
  let s' := final (LAMMPS.world_streams E args s) in
  screen (lmp s') = None /\ logfile (lmp s') = None.
Proof.
  intros He Hr. open_state s. cbn [uni lmp Universe.existflag] in He, Hr.
  apply Z.eqb_neq in He, Hr.
  red_m. rewrite He. lazy beta iota.
  unfold Universe.split_rank in *. cbn [Universe.worlds Universe.me] in *.
  rewrite Hr. lazy beta iota.
  cases. all: split; reflexivity.
Qed.

Lemma to_world_cfg E args :
  traced cfg (each always always) (to_world E args).
Proof. tr_auto. all: each_leaf. all: exact I. Qed.

Lemma outcome_of {A} (r : Outcome A * State) o s : r = (o, s) -> outcome r = o.
Proof. intros ->. reflexivity. Qed.

Lemma final_of {A} (r : Outcome A * State) o s : r = (o, s) -> final r = s.
Proof. intros ->. reflexivity. Qed.

(** C2, as amended.  A process that is not pool rank 0 opens no universe
    stream.  When stream resolution has returned: a process whose rank in
    its world is not 0 opens no world screen or log; off pool rank 0 the
    universe log is null and the universe screen is standard output, or
    null when -screen was given; in a partitioned run the world is the
    split communicator and, off its rank 0, the world screen and log are
    null; in a run without partition the world is the universe, its
    screen and log are those of the universe, and no world stream is
    opened by anyone. *)
Theorem stream_resolution E args :
  let r := run E args in
  (comm_rank E <> 0 ->
   Forall (fun e => opens_universe e = false) (trace (final r))) /\
  (forall s, after_world E args = (Ret tt, s) ->
     let u := uni (lmp s) in
     (world_rank s <> 0 ->
      Forall (fun e => opens_world e = false) (trace (final r))) /\
     (0 < comm_rank E ->
      Universe.ulogfile u = None /\
      Universe.uscreen u
      = if screenflag (loc s) =? 0 then Some stdout else None) /\
     (Universe.existflag u <> 0 ->
      world (lmp s) = split_comm (Universe.iworld u) /\
      (world_rank s <> 0 -> screen (lmp s) = None /\ logfile (lmp s) = None)) /\
     (Universe.existflag u = 0 ->
      world (lmp s) = uworld /\
      screen (lmp s) = Universe.uscreen u /\
      logfile (lmp s) = Universe.ulogfile u /\
      Forall (fun e => opens_world e = false) (trace (final r)))).
Proof.
  cbv zeta.
  destruct (prelude E args) as (_ & _ & _ & _ & Hq & _).
  (* the events of the whole run *)
  assert (Hev : (comm_rank E <> 0 ->
                 Forall (fun e => opens_universe e = false)
                        (trace (final (run E args)))) /\
                (outcome (after_partition E args) = Ret tt ->
                 (c_existflag (cfg (final (after_partition E args))) = 0 \/
                  Universe.rank_in_split
                    (c_worlds (cfg (final (after_partition E args))))
                    (c_me (cfg (final (after_partition E args)))) <> 0) ->
                 Forall (fun e => opens_world e = false)
                        (trace (final (run E args))))).
  { destruct (run_split cfg _ E args (opens_by_rank E args))
      as [(msg & Hp & Hr)|(Hp & Hc & Hcfg & evs & Ht & Hev & _)].
    - rewrite Hr. cbn [final snd]. split.
      + intros _. eapply Forall_impl; [|exact Hq].
        intros e He. apply (quiet_opens_nothing e He).
      + intros _ _. eapply Forall_impl; [|exact Hq].
        intros e He. apply (quiet_opens_nothing e He).
    - rewrite Ht. split.
      + intro Hme. apply Forall_app. split.
        * eapply Forall_impl; [|exact Hq].
          intros e He. apply (quiet_opens_nothing e He).
        * eapply Forall_impl; [|exact Hev]. intros e He. apply He.
          rewrite (ci_me _ _ _ Hc). exact Hme.
      + intros _ Hrk. apply Forall_app. split.
        * eapply Forall_impl; [|exact Hq].
          intros e He. apply (quiet_opens_nothing e He).
        * eapply Forall_impl; [|exact Hev]. intros e He. apply He. exact Hrk. }
  destruct Hev as (Huniv & Hworld).
  split; [exact Huniv|].
  intros s Hs.
  pose proof (outcome_of _ _ _ Hs) as Hw.
  pose proof (final_of _ _ _ Hs) as Hfs.
  assert (Hu : outcome (after_universe E args) = Ret tt).
  { unfold after_world in Hw. apply (ret_andthen _ _ _ Hw). }
  assert (Hp : outcome (after_partition E args) = Ret tt).
  { unfold after_universe in Hu. apply (ret_andthen _ _ _ Hu). }
  (* the configuration *)
  destruct (stage_split cfg _ E args _ (to_world_cfg E args))
    as [(msg & Hp' & _)|(_ & Hc & Hcfg & _)];
    [rewrite Hp in Hp'; discriminate Hp'|].
  rewrite <- after_world_eq, Hfs in Hcfg.
  destruct (andthen_traced _ _ _ _ (universe_streams_cfg E args) Hp)
    as (Hcu & _).
  fold (after_universe E args) in Hcu.
  (* the universe after the world streams *)
  destruct (andthen_traced _ _ _ _ (world_streams_uni E args) Hu)
    as (Huni & _).
  fold (after_world E args) in Huni. rewrite Hfs in Huni.
  assert (Hsw : s = final (LAMMPS.world_streams E args
                             (final (after_universe E args)))).
  { rewrite <- Hfs. unfold after_world. rewrite (andthen_ret _ _ Hu).
    reflexivity. }
  assert (Hex : Universe.existflag (uni (lmp (final (after_universe E args))))
                = Universe.existflag (uni (lmp s))).
  { rewrite Huni. reflexivity. }
  assert (Hrank : Universe.existflag (uni (lmp s)) <> 0 ->
                  world (lmp s) = split_comm (Universe.iworld (uni (lmp s))) /\
                  world_rank s = Universe.split_rank (uni (lmp s))).
  { intro He.
    assert (Hwd : world (lmp s)
                  = split_comm (Universe.iworld (uni (lmp s)))).
    { rewrite Hsw at 1. rewrite multi_world_comm.
      - rewrite Huni. reflexivity.
      - rewrite Hex. exact He. }
    split; [exact Hwd|]. unfold world_rank. rewrite Hwd. reflexivity. }
  split; [|split; [|split]].
  - (* world streams opened by rank 0 of the world only *)
    intro Hwr. apply Hworld; [exact Hp|].
    rewrite <- Hcfg. cbn [cfg c_existflag c_worlds c_me].
    destruct (Z.eq_dec (Universe.existflag (uni (lmp s))) 0) as [He|He];
      [left; exact He|right].
    destruct (Hrank He) as (_ & Hrk). rewrite Hrk in Hwr. exact Hwr.
  - (* off pool rank 0 *)
    intro Hme. rewrite Huni.
    unfold after_universe. rewrite (andthen_ret _ _ Hp).
    rewrite universe_streams_nonroot.
    + cbn [final snd lmp uni set_uni Universe.set_ulogfile
             Universe.set_uscreen Universe.ulogfile Universe.uscreen].
      split; [reflexivity|].
      change (loc (final (after_partition E args)))
        with (c_loc (cfg (final (after_partition E args)))).
      rewrite <- Hcfg. reflexivity.
    + change (Universe.me (uni (lmp (final (after_partition E args)))))
        with (c_me (cfg (final (after_partition E args)))).
      rewrite (ci_me _ _ _ Hc). exact Hme.
  - (* partitioned *)
    intro He. destruct (Hrank He) as (Hwd & Hrk).
    split; [exact Hwd|]. intro Hwr. rewrite Hrk in Hwr.
    rewrite Hsw. apply multi_world_nonroot.
    + rewrite Hex. exact He.
    + rewrite <- Huni. exact Hwr.
  - (* not partitioned *)
    intro He. rewrite Huni.
    destruct (single_world_streams E args (final (after_universe E args)))
      as (H1 & H2 & H3).
    { rewrite Hex. exact He. }
    rewrite <- Hsw in H1, H2, H3.
    split; [exact H1|]. split; [exact H2|]. split; [exact H3|].
    apply Hworld; [exact Hp|]. left.
    rewrite <- Hcfg. exact He.
Qed.


(** ** Failures to open a file *)

Lemma closed_open_strict : closed open_strict.
Proof.
  split; unfold open_strict.
  - intro c. constructor.
  - intros c e1 e2 [h|] H1 H2.
    + intros e Hin Hh. apply in_app_or in Hin. destruct Hin as [Hin|Hin].
      * rewrite Forall_forall in H1. rewrite (H1 e Hin) in Hh. discriminate Hh.
      * exact (H2 e Hin Hh).
    + apply Forall_app. split; assumption.
Qed.

#[export] Hint Resolve closed_open_strict : closed_db.

(** A stretch of program that, run from any state, stops within its
    first steps: the judgement is checked on what it computes. *)
Ltac run_directly :=
  let s := fresh "s" in
  intro s; open_state s; red_m; cases;
  (split; [reflexivity|]);
  eexists; (split; [rewrite <- ?app_assoc; reflexivity|]);
  unfold given; intros; subst; unfold open_strict;
  cbn [stopped];
  let e := fresh "e" in let Hin := fresh "Hin" in let Hh := fresh "Hh" in
  intros e Hin Hh; cbn in Hin;
  repeat (destruct Hin as [Hin|Hin]; [subst e|]);
  try contradiction;
  cbn in Hh |- *; try discriminate Hh; try reflexivity; exact I.

(** As [tr_step], but a failed [fopen] other than that of the default
    log is followed to the stop it leads to. *)
Ltac strict_step :=
  cbv beta;
  lazymatch goal with
  | |- traced _ _ (bind (bind (emit (EvFopen v_ulogfile "log.lammps" _ _)) _) _) =>
      tr_step
  | |- traced _ _ (bind (bind (emit (EvFopen _ ?p ?m (fopen_ok ?E ?p ?m))) _) _) =>
      let Hok := fresh "Hok" in
      destruct (fopen_ok E p m) eqn:Hok; [tr_step | solve [run_directly]]
  | |- traced _ _ (bind (if _ then upd_lmp (set_infile _) else _) _) =>
      apply tr_bind_if; intro
  | |- _ => tr_step
  end.

Ltac strict_leaf :=
  unfold open_strict;
  lazymatch goal with
  | |- Forall _ _ =>
      repeat constructor; unfold hard_failure; cbn [failed_open andb];
      try reflexivity
  | |- forall e, In e _ -> _ =>
      let e := fresh "e" in let Hin := fresh "Hin" in let Hh := fresh "Hh" in
      intros e Hin Hh; cbn [In] in Hin;
      repeat (destruct Hin as [Hin|Hin]; [subst e|]);
      try contradiction; try discriminate Hh; exact I
  end.

Lemma hard_failures_stop E args :
  traced cfg open_strict (from_universe E args).
Proof.
  unfold_model. repeat strict_step; try solve [strict_leaf].
  unfold open_strict. repeat constructor.
  unfold hard_failure, default_ulog. rewrite c_loc_cfg, H0.
  apply andb_false_r.
Qed.

(** The default log of the universe: a failed open leaves a warning and
    no log, and the stage returns. *)
Lemma universe_streams_log_failure E args s :
  logflag (loc s) = 0 ->
  let r := LAMMPS.universe_streams E args s in
  let e := EvFopen v_ulogfile "log.lammps" "w" false in
  In e (trace (final r)) -> ~ In e (trace s) ->
  outcome r = Ret tt /\
  In (EvWarning Pool log_warning) (trace (final r)) /\
  Universe.ulogfile (uni (lmp (final r))) = None.
Proof.
  intro Hlog. open_state s. cbn in Hlog. subst. red_m. cases;
    cbn [final outcome trace snd fst]; rewrite <- ?app_assoc;
    intros Hin Hnot; try contradiction;
    (apply in_app_or in Hin; destruct Hin as [Hin|Hin]; [contradiction|]);
    cbn [In app] in Hin;
    repeat (destruct Hin as [Hin|Hin]; [try discriminate Hin|]);
    try contradiction; try discriminate;
    (split; [reflexivity|split; [|reflexivity]]);
    rewrite ?app_assoc; apply in_or_app; right; left; reflexivity.
Qed.

Lemma from_world_no_ulog E args :
  traced (fun _ => tt)
    (each (fun _ e => opens_ulogfile e = false) always)
    (from_world E args).
Proof. tr_auto; each_leaf; try reflexivity; exact I. Qed.

Lemma quiet_not_failed l e : quiet e -> hard_failure l e = false.
Proof. destruct e; cbn; tauto. Qed.

Lemma run_after_universe E args :
  outcome (after_universe E args) = Ret tt ->
  exists evs,
    trace (final (run E args)) = trace (final (after_universe E args)) ++ evs /\
    Forall (fun e => opens_ulogfile e = false) evs.
Proof.
  intro Hu. rewrite run_from_universe.
  destruct (andthen_traced (fun _ => tt) _ _ _ (from_world_no_ulog E args) Hu)
    as (_ & evs & Ht & Hev & _).
  exists evs. split; assumption.
Qed.

Lemma run_stopped_universe E args h :
  outcome (after_universe E args) = Stop h ->
  run E args = (Stop h, final (after_universe E args)).
Proof. intro Hu. rewrite run_from_universe. apply andthen_stop, Hu. Qed.

(** C5, as amended.  When no -log flag is given and the default universe log
    ["log.lammps"] cannot be opened, a warning is reported, the universe
    streams are resolved all the same and the universe is left without a
    log.  Every other failed open (of a file named by a flag, of the input
    script, and of the per-world screen and log of a partitioned run, also
    when their names are the default ones) ends the run of the process by
    a fatal error; for the input script alone the text of that error may
    first overrun its buffer. *)
Theorem open_failures E args :
  let r := run E args in
  let l := loc (parsed E args) in
  let u := after_universe E args in
  (logflag l = 0 ->
   In (EvFopen v_ulogfile "log.lammps" "w" false) (trace (final r)) ->
   In (EvWarning Pool log_warning) (trace (final r)) /\
   outcome u = Ret tt /\
   Universe.ulogfile (uni (lmp (final u))) = None) /\
  (forall e, In e (trace (final r)) -> hard_failure l e = true ->
   (exists msg, outcome r = Stop (Fatal Process msg)) \/
   outcome r = Stop Undefined /\ is_infile_open e = true).
Proof.
  cbv zeta.
  destruct (prelude E args) as (_ & Hl & _ & _ & Hq & _).
  rewrite Forall_forall in Hq.
  destruct (run_split cfg _ E args (hard_failures_stop E args))
    as [(msg & Hp & Hr)|(Hp & _ & _ & evs & Ht & Hev)].
  - rewrite Hr. cbn [outcome final fst snd]. split.
    + intros _ Hin. apply Hq in Hin. destruct Hin.
    + intros e Hin Hh. rewrite (quiet_not_failed _ e (Hq e Hin)) in Hh.
      discriminate Hh.
  - split.
    + intros Hlog Hin.
      assert (Hnot : ~ In (EvFopen v_ulogfile "log.lammps" "w" false)
                       (trace (final (after_partition E args)))).
      { intro Hin'. apply Hq in Hin'. destruct Hin'. }
      rewrite <- Hl in Hlog.
      pose proof (universe_streams_log_failure E args _ Hlog) as Hu.
      cbv zeta in Hu.
      unfold after_universe in Hin |- *. 
      rewrite (andthen_ret _ _ Hp).
      fold (after_universe E args) in Hin.
      destruct (outcome (after_universe E args)) as [[]|h] eqn:Hou.
      * destruct (run_after_universe E args Hou) as (evs' & Ht' & Hev').
        unfold after_universe in Ht'. rewrite (andthen_ret _ _ Hp) in Ht'.
        rewrite Ht' in Hin |- *. apply in_app_or in Hin.
        destruct Hin as [Hin|Hin].
        -- destruct (Hu Hin Hnot) as (Ho & Hw & Hn).
           split; [apply in_trace_app; exact Hw|]. split; assumption.
        -- rewrite Forall_forall in Hev'. apply Hev' in Hin.
           discriminate Hin.
      * rewrite (run_stopped_universe E args h Hou) in Hin |- *.
        cbn [final snd] in Hin |- *.
        unfold after_universe in Hin |- *.
        rewrite (andthen_ret _ _ Hp) in Hin |- *.
        destruct (Hu Hin Hnot) as (Ho & Hw & Hn).
        split; [exact Hw|]. split; assumption.
    + intros e Hin Hh. rewrite Ht in Hin. apply in_app_or in Hin.
      destruct Hin as [Hin|Hin].
      * rewrite (quiet_not_failed _ e (Hq e Hin)) in Hh. discriminate Hh.
      * unfold open_strict in Hev.
        destruct (outcome (run E args)) as [[]|h]; cbn [stopped] in Hev;
          rewrite c_loc_cfg, Hl in Hev.
        -- rewrite Forall_forall in Hev. rewrite (Hev e Hin) in Hh.
           discriminate Hh.
        -- specialize (Hev e Hin Hh).
           destruct h as [[] msg| | |]; cbn in Hev; try contradiction.
           ++ left. exists msg. reflexivity.
           ++ right. split; [reflexivity|assumption].
Qed.


(** * Concrete runs *)

Ltac in_trace := vm_compute; repeat (first [left; reflexivity | right]).

(** Four processes and the bare command line: the single world of size
    4. *)
Lemma partition_consistent_witness :
  Universe.total
    (Universe.worlds
       (uni (lmp (final (run (Examples.env 0 4 [] false) Examples.bare)))))
  = comm_size (Examples.env 0 4 [] false) /\
  Universe.worlds
    (uni (lmp (final (run (Examples.env 0 4 [] false) Examples.bare))))
  = [comm_size (Examples.env 0 4 [] false)].
Proof.
  pose proof (partition_consistent_or_pool_fatal
                (Examples.env 0 4 [] false) Examples.bare) as H.
  cbv zeta in H.
  replace (outcome (run (Examples.env 0 4 [] false) Examples.bare))
    with (@Ret unit tt) in H by (vm_compute; reflexivity).
  destruct H as (H1 & _ & H3).
  split; [exact H1|]. apply H3. vm_compute. reflexivity.
Defined.

(** Pool rank 1 of two processes: in one world of size 2, and without
    partition. *)
Lemma stream_resolution_witness :
  (Forall (fun e => opens_universe e = false)
     (trace (final (run (Examples.env 1 2 [] false)
                        Examples.one_world_of_2))) /\
   Forall (fun e => opens_world e = false)
     (trace (final (run (Examples.env 1 2 [] false)
                        Examples.one_world_of_2))) /\
   Universe.ulogfile
     (uni (lmp (final (after_world (Examples.env 1 2 [] false)
                                   Examples.one_world_of_2)))) = None /\
   world (lmp (final (after_world (Examples.env 1 2 [] false)
                                  Examples.one_world_of_2)))
   = split_comm 0 /\
   screen (lmp (final (after_world (Examples.env 1 2 [] false)
                                   Examples.one_world_of_2))) = None /\
   logfile (lmp (final (after_world (Examples.env 1 2 [] false)
                                    Examples.one_world_of_2))) = None) /\
  (world (lmp (final (after_world (Examples.env 1 2 [] false)
                                  Examples.bare))) = uworld /\
   screen (lmp (final (after_world (Examples.env 1 2 [] false)
                                   Examples.bare)))
   = Universe.uscreen
       (uni (lmp (final (after_world (Examples.env 1 2 [] false)
                                     Examples.bare)))) /\
   Forall (fun e => opens_world e = false)
     (trace (final (run (Examples.env 1 2 [] false) Examples.bare)))).
Proof.
  split.
  - destruct (stream_resolution (Examples.env 1 2 [] false)
                Examples.one_world_of_2) as (H1 & H2).
    destruct (H2 (final (after_world (Examples.env 1 2 [] false)
                           Examples.one_world_of_2)))
      as (Ha & Hb & Hc & _); [vm_compute; reflexivity|].
    split; [apply H1; vm_compute; discriminate|].
    split; [apply Ha; vm_compute; discriminate|].
    split; [apply Hb; vm_compute; reflexivity|].
    destruct Hc as (Hc1 & Hc2); [vm_compute; discriminate|].
    split; [exact Hc1|]. apply Hc2. vm_compute. discriminate.
  - destruct (stream_resolution (Examples.env 1 2 [] false) Examples.bare)
      as (_ & H2).
    destruct (H2 (final (after_world (Examples.env 1 2 [] false)
                           Examples.bare)))
      as (_ & _ & _ & Hd); [vm_compute; reflexivity|].
    destruct Hd as (Hd1 & Hd2 & _ & Hd4); [vm_compute; reflexivity|].
    split; [exact Hd1|]. split; [exact Hd2|exact Hd4].
Defined.

(** C2, where the constructor does otherwise.  Pool rank 1 of two
    processes, the bare command line: the process has rank 0 neither in
    the pool nor in its world, and stream resolution leaves it standard
    output as the screen of the universe and of the world. *)
Lemma nonroot_screen_is_stdout :
  (comm_rank (Examples.env 1 2 [] false) = 1 /\
   world_rank (final (after_world (Examples.env 1 2 [] false)
                                  Examples.bare)) = 1 /\
   outcome (after_world (Examples.env 1 2 [] false) Examples.bare)
   = Ret tt /\
   Universe.uscreen
     (uni (lmp (final (after_world (Examples.env 1 2 [] false)
                                   Examples.bare)))) = Some stdout /\
   screen (lmp (final (after_world (Examples.env 1 2 [] false)
                                   Examples.bare))) = Some stdout) /\
  ~ AsStated.null_off_rank_0 (Examples.env 1 2 [] false) Examples.bare.
Proof.
  split; [vm_compute; repeat split|].
  intro H.
  destruct (H (final (after_world (Examples.env 1 2 [] false)
                        Examples.bare))) as (Hu & _);
    [vm_compute; reflexivity|vm_compute; discriminate
    |vm_compute; discriminate|].
  vm_compute in Hu. discriminate Hu.
Qed.

(** One process: the default log cannot be opened; the default log of
    world 0 cannot be opened. *)
Lemma open_failures_witness :
  (In (EvWarning Pool log_warning)
      (trace (final (run (Examples.env 0 1 ["log.lammps"]%string false)
                         Examples.bare))) /\
   outcome (after_universe (Examples.env 0 1 ["log.lammps"]%string false)
                           Examples.bare) = Ret tt /\
   Universe.ulogfile
     (uni (lmp (final (after_universe
                         (Examples.env 0 1 ["log.lammps"]%string false)
                         Examples.bare)))) = None) /\
  ((exists msg,
      outcome (run (Examples.env 0 1 ["log.lammps.0"]%string false)
                   Examples.one_world_of_1)
      = Stop (Fatal Process msg)) \/
   outcome (run (Examples.env 0 1 ["log.lammps.0"]%string false)
                Examples.one_world_of_1) = Stop Undefined /\
   is_infile_open (EvFopen v_logfile "log.lammps.0" "w" false) = true).
Proof.
  split.
  - apply (proj1 (open_failures
                    (Examples.env 0 1 ["log.lammps"]%string false)
                    Examples.bare)).
    + vm_compute. reflexivity.
    + in_trace.
  - apply (proj2 (open_failures
                    (Examples.env 0 1 ["log.lammps.0"]%string false)
                    Examples.one_world_of_1)).
    + in_trace.
    + vm_compute. reflexivity.
Defined.

(** C5, where the constructor does otherwise.  One process, one world
    declared by -partition, no -log and no -plog switch: the default log
    of world 0 cannot be opened; no warning is given, and the run ends by
    a fatal error. *)
Lemma default_world_log_is_fatal :
  (logflag (loc (parsed (Examples.env 0 1 ["log.lammps.0"]%string false)
                        Examples.one_world_of_1)) = 0 /\
   partlogflag (loc (parsed (Examples.env 0 1 ["log.lammps.0"]%string false)
                            Examples.one_world_of_1)) = 0 /\
   In (EvFopen v_logfile "log.lammps.0" "w" false)
      (trace (final (run (Examples.env 0 1 ["log.lammps.0"]%string false)
                         Examples.one_world_of_1))) /\
   outcome (run (Examples.env 0 1 ["log.lammps.0"]%string false)
                Examples.one_world_of_1)
   = Stop (Fatal Process "Cannot open logfile")) /\
  ~ AsStated.default_log_failure_is_warning
      (Examples.env 0 1 ["log.lammps.0"]%string false)
      Examples.one_world_of_1.
Proof.
  split.
  - split; [vm_compute; reflexivity|].
    split; [vm_compute; reflexivity|]. split; [in_trace|].
    vm_compute. reflexivity.
  - intro H.
    destruct (H eq_refl eq_refl v_logfile "log.lammps.0"%string)
      as (_ & Hf); [right; reflexivity|in_trace|].
    apply (Hf Process "Cannot open logfile"%string).
    vm_compute. reflexivity.
Qed.

(** One process without the accelerator package: -cuda on, no -cuda
    switch, -cuda off. *)
Lemma accelerator_directive_witness :
  outcome (run (Examples.env 0 1 [] false) Examples.cuda_on)
  = Stop (Fatal World cuda_missing) /\
  ((forall sc, outcome (run (Examples.env 0 1 [] false) Examples.bare)
               <> Stop (Fatal sc cuda_missing)) /\
   Forall (fun e => is_message e = false /\ builds_accelerated e = false)
          (trace (final (run (Examples.env 0 1 [] false) Examples.bare))) /\
   ptr (lmp (final (after_accelerator (Examples.env 0 1 [] false)
                                      Examples.bare))) cuda = None) /\
  Forall (fun e => builds cuda e = false)
         (trace (final (run (Examples.env 0 1 [] false) Examples.cuda_off))).
Proof.
  split; [|split].
  - destruct (accelerator_directive (Examples.env 0 1 [] false)
                Examples.cuda_on) as (H & _).
    destruct H as (_ & _ & H);
      [vm_compute; reflexivity|vm_compute; reflexivity|].
    apply H. vm_compute. reflexivity.
  - destruct (accelerator_directive (Examples.env 0 1 [] false)
                Examples.bare) as (_ & H & _).
    destruct H as (H1 & _ & H3); [vm_compute; reflexivity|].
    destruct H3 as (H3 & H4); [vm_compute; reflexivity|].
    split; [exact H1|]. split; [exact H3|].
    apply H4. vm_compute. reflexivity.
  - destruct (accelerator_directive (Examples.env 0 1 [] false)
                Examples.cuda_off) as (_ & _ & H).
    apply H. vm_compute. reflexivity.
Defined.

(** With the accelerator package: pool rank 1 of two processes in two
    worlds of one process, a run stopped before the choice, and pool rank
    3 of four processes without partition. *)
Lemma notice_by_world_rank_0_witness :
  filter is_message
    (trace (final (run (Examples.env 1 2 [] true) Examples.two_worlds_of_1)))
  = (if non_null
          (ptr (lmp (final (after_accelerator (Examples.env 1 2 [] true)
                                              Examples.two_worlds_of_1)))
               cuda)
        && (world_rank
              (final (after_accelerator (Examples.env 1 2 [] true)
                                        Examples.two_worlds_of_1)) =? 0)
     then [EvMessage cuda_notice] else []) /\
  filter is_message
    (trace (final (run (Examples.env 0 2 [] true) Examples.partition_no_in)))
  = [] /\
  world_rank (final (after_accelerator (Examples.env 3 4 [] true)
                                       Examples.bare))
  = comm_rank (Examples.env 3 4 [] true).
Proof.
  split; [|split].
  - destruct (notice_by_world_rank_0 (Examples.env 1 2 [] true)
                Examples.two_worlds_of_1) as (H & _).
    apply H. vm_compute. reflexivity.
  - destruct (notice_by_world_rank_0 (Examples.env 0 2 [] true)
                Examples.partition_no_in) as (_ & H & _).
    apply H. vm_compute. discriminate.
  - destruct (notice_by_world_rank_0 (Examples.env 3 4 [] true)
                Examples.bare) as (_ & _ & H).
    apply H; vm_compute; reflexivity.
Defined.

(** C7, where the constructor does otherwise.  Two processes in two
    worlds of one process, with the accelerator package: the process of
    pool rank 1 has rank 0 in its world, and gives the notice. *)
Lemma notice_off_pool_rank_0 :
  (comm_rank (Examples.env 1 2 [] true) = 1 /\
   world_rank (final (after_accelerator (Examples.env 1 2 [] true)
                                        Examples.two_worlds_of_1)) = 0 /\
   outcome (run (Examples.env 1 2 [] true) Examples.two_worlds_of_1)
   = Ret tt /\
   filter is_message
     (trace (final (run (Examples.env 1 2 [] true)
                        Examples.two_worlds_of_1)))
   = [EvMessage cuda_notice]) /\
  ~ AsStated.notice_only_on_pool_rank_0 (Examples.env 1 2 [] true)
      Examples.two_worlds_of_1.
Proof.
  split; [vm_compute; repeat split|].
  intro H. assert (H0 : comm_rank (Examples.env 1 2 [] true) = 0).
  { apply H. in_trace. }
  vm_compute in H0. discriminate H0.
Qed.

(** An MPI library whose tag integers have eight bytes, against four in
    the program. *)
Lemma datatype_mismatch_witness :
  Forall (fun e => builds_subsystem e = false /\ builds cuda e = false)
         (trace (final (run (Examples.env_mismatch 0 1) Examples.bare))) /\
  exists msg,
    In msg datatype_messages /\
    outcome (run (Examples.env_mismatch 0 1) Examples.bare)
    = Stop (Fatal World msg) /\
    filter is_fatal
      (trace (final (run (Examples.env_mismatch 0 1) Examples.bare)))
    = [EvFatal World msg].
Proof.
  destruct (datatype_mismatch_is_world_fatal (Examples.env_mismatch 0 1)
              Examples.bare) as (H1 & _ & _ & H4);
    [vm_compute; reflexivity|].
  split; [exact H1|]. apply H4. vm_compute. reflexivity.
Defined.

(** C9, where the constructor does otherwise.  The same library, one
    process: the mismatch is reported by a world-collective fatal error,
    not by a pool-wide one. *)
Lemma datatype_mismatch_not_pool_wide :
  (datatypes_ok (Examples.env_mismatch 0 1) = false /\
   outcome (run (Examples.env_mismatch 0 1) Examples.bare)
   = Stop (Fatal World
             "MPI_LMP_TAGINT and tagint in lmptype.h are not compatible")) /\
  ~ AsStated.mismatch_is_pool_fatal (Examples.env_mismatch 0 1)
      Examples.bare.
Proof.
  split; [split; vm_compute; reflexivity|].
  intro H. destruct H as (msg & Hm); [vm_compute; reflexivity|].
  vm_compute in Hm. discriminate Hm.
Qed.


(** * The help message *)

(** ** The order of [strcmp] *)

Lemma strcmp_refl a : strcmp a a = Eq.
Proof. induction a as [|c a IH]; simpl; [|rewrite N.compare_refl]; auto. Qed.

Lemma N_of_ascii_inj c d : N_of_ascii c = N_of_ascii d -> c = d.
Proof.
  intro H. rewrite <- (ascii_N_embedding c), <- (ascii_N_embedding d).
  now rewrite H.
Qed.

Lemma strcmp_eq a : forall b, strcmp a b = Eq -> a = b.
Proof.
  induction a as [|c a IH]; intros [|d b]; simpl; try discriminate; auto.
  destruct (N.compare_spec (N_of_ascii c) (N_of_ascii d)) as [He| |];
    try discriminate.
  intro H. apply N_of_ascii_inj in He. apply IH in H. congruence.
Qed.

Lemma strcmp_antisym a : forall b, strcmp b a = CompOpp (strcmp a b).
Proof.
  induction a as [|c a IH]; intros [|d b]; simpl; auto.
  rewrite (N.compare_antisym (N_of_ascii c) (N_of_ascii d)).
  destruct (N_of_ascii c ?= N_of_ascii d)%N; simpl; auto.
Qed.

Lemma strcmp_trans a : forall b c,
  strcmp a b <> Gt -> strcmp b c <> Gt -> strcmp a c <> Gt.
Proof.
  induction a as [|x a IH]; intros [|y b] [|z c]; simpl; try congruence.
  destruct (N.compare_spec (N_of_ascii x) (N_of_ascii y)) as [Hxy|Hxy|Hxy];
    destruct (N.compare_spec (N_of_ascii y) (N_of_ascii z)) as [Hyz|Hyz|Hyz];
    destruct (N.compare_spec (N_of_ascii x) (N_of_ascii z)) as [Hxz|Hxz|Hxz];
    try congruence; try lia.
  apply IH.
Qed.

Lemma cmpstringp_total a b : cmpstringp a b = Gt -> cmpstringp b a <> Gt.
Proof.
  unfold cmpstringp. intro H. rewrite (strcmp_antisym a b), H. discriminate.
Qed.

(** ** Sorting *)

Lemma insert_perm x l : Permutation (x :: l) (insert cmpstringp x l).
Proof.
  induction l as [|y l IH]; simpl; [reflexivity|].
  destruct (cmpstringp x y); try reflexivity.
  rewrite perm_swap. now apply perm_skip.
Qed.

Lemma qsort_perm l : Permutation l (qsort cmpstringp l).
Proof.
  induction l as [|x l IH]; simpl; [constructor|].
  rewrite <- insert_perm. now apply perm_skip.
Qed.

Lemma insert_ascending x l :
  ascending cmpstringp l -> ascending cmpstringp (insert cmpstringp x l).
Proof.
  unfold ascending. induction 1 as [|y l Hl IH Hy]; simpl.
  - repeat constructor.
  - destruct (cmpstringp x y) eqn:Hxy.
    + constructor; [now constructor|]. constructor; [congruence|].
      eapply Forall_impl; [|exact Hy]. intros b Hb.
      apply (strcmp_trans x y b); [unfold cmpstringp in Hxy; congruence|].
      exact Hb.
    + constructor; [now constructor|]. constructor; [congruence|].
      eapply Forall_impl; [|exact Hy]. intros b Hb.
      apply (strcmp_trans x y b); [unfold cmpstringp in Hxy; congruence|].
      exact Hb.
    + constructor; [exact IH|].
      rewrite <- (insert_perm x l). constructor; [|exact Hy].
      now apply cmpstringp_total.
Qed.

Lemma qsort_ascending l : ascending cmpstringp (qsort cmpstringp l).
Proof.
  induction l as [|x l IH]; simpl; [constructor|].
  now apply insert_ascending.
Qed.

Lemma ascending_unique l : forall l',
  ascending cmpstringp l -> ascending cmpstringp l' ->
  Permutation l l' -> l = l'.
Proof.
  unfold ascending.
  induction l as [|a l IH]; intros [|b l'] Hl Hl' Hp.
  - reflexivity.
  - apply Permutation_nil in Hp. discriminate.
  - symmetry in Hp. apply Permutation_nil in Hp. discriminate.
  - inversion Hl as [|? ? Hs Ha]; inversion Hl' as [|? ? Hs' Hb]; subst.
    assert (Hab : a = b).
    { assert (Ha' : In a (b :: l'))
        by (eapply Permutation_in; [exact Hp|now left]).
      assert (Hb' : In b (a :: l))
        by (eapply Permutation_in; [symmetry; exact Hp|now left]).
      destruct Ha' as [->|Ha']; [reflexivity|].
      destruct Hb' as [->|Hb']; [reflexivity|].
      rewrite Forall_forall in Ha, Hb.
      specialize (Ha b Hb'). specialize (Hb a Ha').
      unfold cmpstringp in Ha, Hb.
      rewrite (strcmp_antisym a b) in Hb.
      destruct (strcmp a b) eqn:Hc; simpl in Hb; try congruence.
      now apply strcmp_eq. }
    subst b. f_equal. apply IH; try assumption.
    now apply Permutation_cons_inv in Hp.
Qed.

(** X1.  The array after [qsort] is the one arrangement of its entries in the
    order of [cmpstringp]: whatever the method of the C library, the
    result is that of the insertion sort. *)
Theorem qsort_unique l l' :
  Permutation l l' -> ascending cmpstringp l' -> l' = qsort cmpstringp l.
Proof.
  intros Hp Hs. apply ascending_unique; [assumption|apply qsort_ascending|].
  rewrite <- Hp. apply qsort_perm.
Qed.

Lemma qsort_unique_witness :
  ["angle"; "atomic"; "bond"]%string
  = qsort cmpstringp ["bond"; "atomic"; "angle"]%string.
Proof.
  apply qsort_unique.
  - apply perm_trans with ["atomic"; "bond"; "angle"]%string;
      [apply perm_swap|].
    apply perm_trans with ["atomic"; "angle"; "bond"]%string;
      [apply perm_skip, perm_swap|apply perm_swap].
  - repeat constructor; vm_compute; discriminate.
Defined.

(** X2.  The columns do not depend on the order in which the styles were
    declared. *)
Theorem print_columns_permutation l l' :
  Permutation l l' -> print_columns l = print_columns l'.
Proof.
  intro Hp. unfold print_columns. f_equal.
  apply ascending_unique; [apply qsort_ascending|apply qsort_ascending|].
  rewrite <- (qsort_perm l), <- (qsort_perm l'). exact Hp.
Qed.

Lemma print_columns_permutation_witness :
  print_columns ["lj/cut"; "eam"]%string
  = print_columns ["eam"; "lj/cut"]%string.
Proof. apply print_columns_permutation. apply perm_swap. Defined.


(** ** Strings *)

Lemma length_append a b :
  String.length (a +++ b) = (String.length a + String.length b)%nat.
Proof. induction a as [|c a IH]; simpl; auto. Qed.

Lemma append_assoc a b c : (a +++ b) +++ c = a +++ (b +++ c).
Proof. induction a as [|x a IH]; simpl; [|rewrite IH]; auto. Qed.

Lemma append_nil_r a : a +++ EmptyString = a.
Proof. induction a as [|x a IH]; simpl; [|rewrite IH]; auto. Qed.

Lemma length_spaces n : String.length (spaces n) = n.
Proof. induction n; simpl; auto. Qed.

Lemma written_app a b : written (a ++ b) = written a +++ written b.
Proof.
  induction a as [|x a IH]; simpl; [reflexivity|].
  now rewrite IH, append_assoc.
Qed.

Lemma length_left_justify w s :
  String.length (left_justify w s) = Nat.max w (String.length s).
Proof. unfold left_justify. rewrite length_append, length_spaces. lia. Qed.

(** ** The fields *)

(** The cascade of lines 791-806 picks the field of the name. *)
Lemma cascade_width (n : nat) :
  Z.to_nat
    (if Z.of_nat n <? 16 then 16
     else if Z.of_nat n <? 32 then 32
     else if Z.of_nat n <? 48 then 48
     else if Z.of_nat n <? 64 then 64
     else 80)
  = Nat.min 80 (16 * (n / 16 + 1)).
Proof.
  repeat (match goal with
          | |- context [?a <? ?b] => destruct (Z.ltb_spec a b)
          end).
  - rewrite Nat.div_small by lia. lia.
  - rewrite <- (Nat.div_unique n 16 1 (n - 16)) by lia. lia.
  - rewrite <- (Nat.div_unique n 16 2 (n - 32)) by lia. lia.
  - rewrite <- (Nat.div_unique n 16 3 (n - 48)) by lia. lia.
  - assert (4 <= n / 16)%nat by (apply Nat.div_le_lower_bound; lia).
    lia.
Qed.

Lemma field_width_ge s : (16 <= field_width s)%nat.
Proof. unfold field_width. lia. Qed.

Lemma field_not_nl s : is_nl_call (field s) = false.
Proof.
  unfold is_nl_call. apply String.eqb_neq. intro H.
  apply (f_equal String.length) in H. unfold field in H.
  rewrite length_left_justify in H. pose proof (field_width_ge s).
  change (String.length nl) with 1%nat in H. lia.
Qed.

Lemma columns_fields l : forall pos,
  filter (fun c => negb (is_nl_call c)) (columns pos l)
  = map field (filter (fun s => negb (secret s)) l).
Proof.
  induction l as [|s l IH]; intro pos; simpl; [reflexivity|].
  unfold secret at 1. destruct (isupper (first_char s)); simpl; [apply IH|].
  rewrite filter_app. simpl.
  rewrite cascade_width. fold (field_width s). fold (field s).
  rewrite field_not_nl. simpl. rewrite IH.
  destruct (_ >? 80); reflexivity.
Qed.

(** X3.  Apart from its newlines, [print_columns] makes one call for each
    style that is not secret, in the order of [strcmp], and the call
    prints the name left-justified in the least field of 16, 32, 48, 64 or
    80 columns that is wider than the name, or in 80. *)
Theorem print_columns_fields styles :
  filter (fun c => negb (is_nl_call c)) (print_columns styles)
  = map field (filter (fun s => negb (secret s)) (qsort cmpstringp styles)).
Proof. apply columns_fields. Qed.


(** ** The lines of the columns *)

Lemma no_newline_app a b :
  no_newline (a +++ b) = no_newline a && no_newline b.
Proof.
  induction a as [|c a IH]; simpl; [reflexivity|].
  now rewrite IH, andb_assoc.
Qed.

Lemma no_newline_spaces n : no_newline (spaces n) = true.
Proof. induction n; simpl; auto. Qed.

Lemma lines_from_app a : forall cur b,
  no_newline a = true ->
  lines_from cur (a +++ b) = lines_from (cur +++ a) b.
Proof.
  induction a as [|c a IH]; intros cur b Ha; simpl in *.
  - now rewrite append_nil_r.
  - apply andb_prop in Ha. destruct Ha as [Hc Ha].
    apply negb_true_iff in Hc. rewrite Hc, IH by assumption.
    now rewrite append_assoc.
Qed.

Lemma lines_from_nl cur b :
  lines_from cur (nl +++ b) = cur :: lines_from EmptyString b.
Proof. reflexivity. Qed.

Lemma rtrim_spaces n : rtrim (spaces n) = EmptyString.
Proof. induction n; simpl; [|rewrite IHn]; reflexivity. Qed.

Lemma rtrim_app_spaces a n : rtrim (a +++ spaces n) = rtrim a.
Proof.
  induction a as [|c a IH]; simpl; [apply rtrim_spaces|].
  now rewrite IH.
Qed.

Lemma length_rtrim s : (String.length (rtrim s) <= String.length s)%nat.
Proof.
  induction s as [|c s IH]; simpl; [lia|].
  destruct (rtrim s); [destruct (Ascii.eqb c " ")|]; simpl in *; lia.
Qed.

Lemma at_column_line cur pos : at_column cur pos -> line_ok cur.
Proof.
  intros (_ & Hk & Hle & _ & Hp & Hr). split; [assumption|]. split; [lia|].
  assumption.
Qed.

Lemma columns_lines l :
  Forall name_ok l ->
  forall pos cur,
    at_column cur pos ->
    Forall line_ok (lines_from cur (written (columns pos l))).
Proof.
  induction 1 as [|s l [Hlen Hnl] Hl IH]; intros pos cur Hc; simpl.
  - constructor; [|constructor]. eapply at_column_line; eassumption.
  - destruct (isupper (first_char s)); [now apply IH|].
    destruct Hc as (Hcn & (k & Hk) & Hle & (kp & Hkp) & Hp & Hr).
    set (len := Z.of_nat (String.length s)).
    set (w := if len <? 16 then 16 else if len <? 32 then 32
              else if len <? 48 then 48 else if len <? 64 then 64 else 80).
    assert (Hw : (w = 16 /\ len < 16) \/ (w = 32 /\ 16 <= len < 32) \/
                 (w = 48 /\ 32 <= len < 48) \/ (w = 64 /\ 48 <= len < 64) \/
                 (w = 80 /\ 64 <= len <= 80)).
    { unfold w.
      repeat (match goal with
              | |- context [?a <? ?b] => destruct (Z.ltb_spec a b)
              end); lia. }
    clearbody w.
    assert (Hcell : String.length (left_justify (Z.to_nat w) s)
                    = Z.to_nat w).
    { rewrite length_left_justify. lia. }
    assert (Hcn' : no_newline (left_justify (Z.to_nat w) s) = true).
    { unfold left_justify. now rewrite no_newline_app, Hnl, no_newline_spaces. }
    assert (Hwn : exists j, Z.to_nat w = (16 * j)%nat)
      by (destruct Hw as [[-> _]|[[-> _]|[[-> _]|[[-> _]|[-> _]]]]];
          [exists 1%nat|exists 2%nat|exists 3%nat|exists 4%nat|exists 5%nat];
          reflexivity).
    assert (Hwz : exists j, w = 16 * j)
      by (destruct Hw as [[-> _]|[[-> _]|[[-> _]|[[-> _]|[-> _]]]]];
          [exists 1|exists 2|exists 3|exists 4|exists 5]; reflexivity).
    destruct Hwn as (jn & Hjn). destruct Hwz as (jz & Hjz).
    destruct (pos + len >? 80) eqn:Hwrap; simpl.
    + constructor.
      { split; [exists k; assumption|]. split; [lia|assumption]. }
      rewrite lines_from_app by assumption. apply IH.
      simpl. split; [assumption|]. rewrite Hcell.
      split; [exists jn; assumption|].
      split; [lia|]. split; [exists jz; assumption|].
      split; [lia|].
      unfold left_justify. rewrite rtrim_app_spaces.
      pose proof (length_rtrim s). lia.
    + rewrite Z.gtb_ltb in Hwrap. apply Z.ltb_ge in Hwrap.
      rewrite lines_from_app by assumption. apply IH.
      split; [rewrite no_newline_app, Hcn; assumption|].
      rewrite length_append, Hcell.
      split; [exists (k + jn)%nat; lia|].
      split; [lia|].
      split; [exists (kp + jz); lia|].
      split; [lia|].
      unfold left_justify. rewrite <- append_assoc, rtrim_app_spaces.
      pose proof (length_rtrim (cur +++ s)) as Hrt.
      rewrite length_append in Hrt. lia.
Qed.

Lemma name_ok_qsort l : Forall name_ok l -> Forall name_ok (qsort cmpstringp l).
Proof.
  intro H. rewrite Forall_forall in *. intros s Hs. apply H.
  eapply Permutation_in; [symmetry; apply qsort_perm|exact Hs].
Qed.

(** X4.  When no name has more than 80 characters or holds a newline, every
    line [print_columns] writes is made of whole fields of 16 columns, has
    96 characters at most, and its text, the spaces at its end apart, ends
    within 80 columns. *)
Theorem print_columns_layout styles :
  Forall name_ok styles ->
  Forall line_ok (lines_of (written (print_columns styles))).
Proof.
  intro H. apply columns_lines; [now apply name_ok_qsort|].
  split; [reflexivity|]. split; [exists 0%nat; reflexivity|].
  split; [simpl; lia|]. split; [exists 5; reflexivity|].
  split; [lia|]. simpl. lia.
Qed.

Lemma print_columns_layout_witness :
  Forall line_ok
    (lines_of (written (print_columns
       ["lj/cut"; "eam"; "lj/charmm/coul/long"; "Secret"; "born"]%string))).
Proof.
  apply print_columns_layout.
  repeat constructor; vm_compute; lia.
Defined.


(** ** The style tables *)

Lemma collect_firstn keys : forall n,
  collect n keys = firstn (nmax - n) keys.
Proof.
  induction keys as [|k keys IH]; intro n; cbn [collect].
  - now rewrite firstn_nil.
  - destruct (Nat.ltb_spec n nmax) as [Hn|Hn].
    + rewrite IH. replace (nmax - n)%nat with (S (nmax - S n)) by lia.
      reflexivity.
    + rewrite IH. replace (nmax - n)%nat with 0%nat by lia. reflexivity.
Qed.

(** X5.  Of each kind of style the first [nmax] = 500 declared are shown, the
    others are dropped before the sort; the warning is written as soon as
    500 are declared, also when none had to be dropped. *)
Theorem style_section_shown title keys :
  style_section title keys
  = [title] ++ print_columns (firstn nmax keys)
    ++ (if (nmax <=? List.length keys)%nat then [nmax_warning] else [])
    ++ [nl +++ nl].
Proof.
  unfold style_section. cbv zeta. rewrite collect_firstn, Nat.sub_0_r.
  rewrite length_firstn.
  destruct (Nat.leb_spec nmax (List.length keys)) as [Hn|Hn].
  - rewrite Nat.min_l by assumption. now rewrite Nat.eqb_refl.
  - rewrite Nat.min_r by lia.
    destruct (Nat.eqb_spec (List.length keys) nmax); [lia|reflexivity].
Qed.

(** ** The pager *)

Lemma filter_puts (p : HelpEvent -> bool) t l :
  (forall x, p (HvPut t x) = false) -> filter p (map (HvPut t) l) = [].
Proof.
  intro Hp. induction l as [|x l IH]; simpl; [reflexivity|].
  now rewrite Hp.
Qed.

Lemma puts_map t l : puts (map (HvPut t) l) = map (pair t) l.
Proof.
  unfold puts. induction l as [|x l IH]; simpl; [reflexivity|].
  now rewrite IH.
Qed.

Lemma puts_app a b : puts (a ++ b) = puts a ++ puts b.
Proof. unfold puts. apply flat_map_app. Qed.

(** X6.  The array of the style names is allocated once and freed once, but
    for a null stream, where the function returns before it writes or
    frees anything.  The pager is tried when the stream is standard
    output, and only then; it is the command of [PAGER], or [more]; the
    pipe is closed exactly when it was opened.  All the text goes to one
    place: the pipe when it was opened, the stream otherwise. *)
Theorem help_message_protocol H fp :
  let evs := help_message H fp in
  let cmd := pager_command H in
  count_help is_new_styles evs = 1%nat /\
  count_help is_delete_styles evs = (if is_null fp then 0 else 1)%nat /\
  filter is_popen evs
  = match fp with
    | Some stdout => [HvPopen cmd (popen_ok H cmd)]
    | _ => []
    end /\
  filter is_pclose evs
  = match fp with
    | Some stdout => if popen_ok H cmd then [HvPclose cmd] else []
    | _ => []
    end /\
  puts evs
  = match fp with
    | None => []
    | Some f =>
        map (pair (if FILE_is_stdout f && popen_ok H cmd
                   then to_pipe cmd else to_stream f))
            (help_text H)
    end.
Proof.
  cbv zeta. unfold help_message, count_help, pager_command.
  destruct fp as [f|]; [|repeat split].
  set (cmd := match PAGER H with Some p => p | None => "more"%string end).
  set (t := if FILE_is_stdout f && popen_ok H cmd
            then to_pipe cmd else to_stream f).
  cbn [filter is_new_styles is_delete_styles is_popen is_pclose is_null].
  rewrite !filter_app, !filter_puts by reflexivity.
  change (puts (HvNewStyles :: ?l)) with (puts l).
  rewrite !puts_app, puts_map.
  destruct f; cbn [FILE_is_stdout andb]; [destruct (popen_ok H cmd)|..];
    cbn; rewrite ?app_nil_r; repeat split; reflexivity.
Qed.


(** * More on the life cycle *)

(** Run the code, splitting on each pointer and test it reads. *)
Ltac run_cases := red_m; repeat (first [case_if | case_option]; red_m).

(** [init], whatever the state of the object. *)
Lemma init_run s :
  (outcome (LAMMPS.init s) = Ret tt <->
   Forall (fun p => ptr (lmp s) p <> None) initialization_order) /\
  (outcome (LAMMPS.init s) = Ret tt \/
   outcome (LAMMPS.init s) = Stop Undefined) /\
  lmp (final (LAMMPS.init s)) = lmp s /\
  loc (final (LAMMPS.init s)) = loc s.
Proof.
  open_state s. unfold initialization_order. run_cases.
  all: split; [split; [intro Ho; try discriminate Ho;
                       repeat constructor; congruence
                      |intro HF; try reflexivity; exfalso;
                       rewrite Forall_forall in HF;
                       match goal with
                       | Hn : _ ?p = None |- _ =>
                           apply (HF p); [cbn; tauto|exact Hn]
                       end]
              |split; [auto|split; reflexivity]].
Qed.

(** X7.  [init] calls through the eight pointers: it returns exactly when none
    of them is null, and its behaviour is undefined otherwise.  It leaves
    the object as it is, so that it can be run again. *)
Theorem init_needs_all_eight s :
  (outcome (LAMMPS.init s) = Ret tt <->
   Forall (fun p => ptr (lmp s) p <> None) initialization_order) /\
  (outcome (LAMMPS.init s) = Ret tt \/
   outcome (LAMMPS.init s) = Stop Undefined) /\
  lmp (final (LAMMPS.init s)) = lmp s /\
  loc (final (LAMMPS.init s)) = loc s.
Proof. exact (init_run s). Qed.

Lemma delete_run p s :
  LAMMPS.delete p s
  = (Ret tt, mkState (lmp s) (loc s) (trace s ++ deleted_events p s)).
Proof.
  open_state s. unfold deleted_events. red_m.
  destruct (objs p); [reflexivity|now rewrite app_nil_r].
Qed.

Lemma deleted_events_trace p l c t t' :
  deleted_events p (mkState l c t) = deleted_events p (mkState l c t').
Proof. reflexivity. Qed.

(** What [destroy] does, whatever the state it starts in. *)
Lemma destroy_run s :
  LAMMPS.destroy s
  = (Ret tt,
     mkState (set_ptr modify None (lmp s)) (loc s)
       (trace s ++ flat_map (fun p => deleted_events p s) destruction_order)).
Proof.
  unfold LAMMPS.destroy, bind.
  repeat (rewrite delete_run; cbn [lmp loc trace]).
  unfold upd_lmp. cbn [lmp loc trace flat_map destruction_order].
  rewrite <- !app_assoc, app_nil_r.
  destruct s as [l c t]. reflexivity.
Qed.

(** X8.  After [destroy] the pointer [modify] is null: [init] run then, without
    [create] in between, is undefined. *)
Theorem init_after_destroy_undefined s :
  outcome (LAMMPS.init (final (LAMMPS.destroy s))) = Stop Undefined.
Proof.
  rewrite destroy_run. cbn [final snd].
  match goal with |- outcome (LAMMPS.init ?s1) = _ =>
    destruct (init_run s1) as ([Hr _] & [Ho|Ho] & _)
  end; [|exact Ho].
  apply Hr in Ho. unfold initialization_order in Ho.
  rewrite Forall_forall in Ho. exfalso. apply (Ho modify); [cbn; tauto|].
  reflexivity.
Qed.


(** * The last stages of the constructor *)

(** Run the code; the tests of pointers against one another are
    decided. *)
Ltac red_p := red_m; cbn [Ptr_eqb negb andb orb].
(** A test met again has the value it had. *)
Ltac case_known :=
  match goal with
  | H : ?c = true |- context [if ?c then _ else _] => rewrite H
  | H : ?c = false |- context [if ?c then _ else _] => rewrite H
  | H : ?c = Some _ |- context [match ?c with Some _ => _ | None => _ end] =>
      rewrite H
  | H : ?c = None |- context [match ?c with Some _ => _ | None => _ end] =>
      rewrite H
  end.

Ltac exec :=
  red_p; repeat (first [case_known | case_if | case_option]; red_p).

Lemma accelerator_run E s :
  let r := LAMMPS.accelerator E s in
  outcome r = (if cuda_refused E (loc s)
               then Stop (Fatal World cuda_missing) else Ret tt) /\
  loc (final r) = loc s /\
  trace (final r) = trace s ++ accelerator_events E (loc s) /\
  settings (final r) = settings s /\
  forall p, ptr (lmp (final r)) p = accelerator_ptr E s p.
Proof.
  open_state s.
  unfold cuda_refused, accelerator_events, accelerator_ptr, settings,
    cuda_missing.
  exec; zb.
  all: repeat split; rewrite ?app_nil_r, <- ?app_assoc; try reflexivity.
  all: try (intros []; reflexivity).
  all: try lia.
Qed.

Lemma top_level_run E s :
  let r := LAMMPS.top_level E s in
  outcome r = (if truthy (helpflag (loc s)) then Stop Finished else Ret tt) /\
  loc (final r) = loc s /\
  trace (final r) = trace s ++ top_level_events E s /\
  settings (final r) = settings s /\
  forall p, ptr (lmp (final r)) p = top_level_ptr E s p.
Proof.
  open_state s.
  unfold top_level_events, top_events, top_level_ptr, settings,
    help_stage_events,
    package_commands, create_events, class_of.
  exec.
  all: repeat split; cbn [map app]; rewrite ?app_nil_r, <- ?app_assoc;
    try reflexivity.
  all: try (intros []; reflexivity).
Qed.


(** ** The run, stage by stage *)

Lemma andthen_cases {A} r (k : M A) :
  outcome r = Ret tt /\ andthen r k = k (final r) \/
  exists h, outcome r = Stop h /\ andthen r k = (Stop h, final r).
Proof.
  destruct r as [[[]|h] s]; [left|right; exists h]; split; reflexivity.
Qed.

Lemma switches_silent E args fuel iarg :
  traced (fun _ : State => tt) silent_stage (LAMMPS.switches E args fuel iarg).
Proof.
  apply tr_switches; unfold silent_stage.
  - apply closed_each.
  - intros. apply each_emit. reflexivity.
  - intros. apply each_fatal; [reflexivity|discriminate].
  - apply each_halt. discriminate.
  - apply each_halt. discriminate.
Qed.

Lemma check_partition_silent E :
  traced (fun _ : State => tt) silent_stage (LAMMPS.check_partition E).
Proof.
  apply tr_check_partition; unfold silent_stage.
  - apply closed_each.
  - intros. apply each_fatal; [reflexivity|discriminate].
Qed.

Lemma to_datatypes_silent E args :
  traced (fun s => (cfg s, ptr (lmp s), suffix (lmp s), suffix_enable (lmp s)))
         (each (fun _ e => silent e = true) (fun _ h => h <> Finished))
         (to_datatypes E args).
Proof.
  tr_auto. all: each_leaf. all: try reflexivity. all: discriminate.
Qed.

Lemma check_partition_suffix E :
  traced (fun s => (suffix (lmp s), suffix_enable (lmp s)))
         (each always always) (LAMMPS.check_partition E).
Proof. tr_auto. all: each_leaf. all: exact I. Qed.

Lemma startup_trace E args :
  exists evs,
    trace (parsed E args) = fundamental_events ++ evs /\
    Forall (fun e => silent e = true) evs.
Proof.
  unfold parsed, after_startup, LAMMPS.startup. rewrite bind_andthen.
  destruct (fundamental_inv E args) as (Hf & _).
  rewrite Hf. cbn [andthen].
  destruct (switches_silent E args (List.length args) 1
              (final (LAMMPS.fundamental E (blank E))))
    as (_ & evs & Ht & Hev & _).
  exists evs. split; [exact Ht|exact Hev].
Qed.

Lemma partition_trace E args :
  exists evs,
    trace (final (after_partition E args)) = fundamental_events ++ evs /\
    Forall (fun e => silent e = true) evs.
Proof.
  destruct (startup_trace E args) as (evs & Ht & Hev).
  unfold after_partition.
  destruct (andthen_cases (after_startup E args) (LAMMPS.check_partition E))
    as [(Ho & ->)|(h & Ho & ->)].
  - destruct (check_partition_silent E (final (after_startup E args)))
      as (_ & evs' & Ht' & Hev' & _).
    exists (evs ++ evs'). split.
    + rewrite Ht'. fold (parsed E args). rewrite Ht. now rewrite app_assoc.
    + apply Forall_app. split; assumption.
  - exists evs. split; assumption.
Qed.

Lemma partition_suffix E args :
  suffix (lmp (final (after_partition E args))) = suffix (lmp (parsed E args))
  /\ suffix_enable (lmp (final (after_partition E args)))
     = suffix_enable (lmp (parsed E args)).
Proof.
  unfold after_partition.
  destruct (andthen_cases (after_startup E args) (LAMMPS.check_partition E))
    as [(Ho & ->)|(h & Ho & ->)].
  - destruct (check_partition_suffix E (final (after_startup E args)))
      as (Hk & _).
    apply pair_equal_spec in Hk. exact Hk.
  - split; reflexivity.
Qed.

(** The state when the datatypes have been checked. *)
Lemma before_variant E args :
  let p := parsed E args in
  let d := after_datatypes E args in
  loc (final d) = loc p /\
  (forall q, ptr (lmp (final d)) q = fundamental_ptr q) /\
  suffix (lmp (final d)) = suffix (lmp p) /\
  suffix_enable (lmp (final d)) = suffix_enable (lmp p) /\
  (exists evs, trace (final d) = fundamental_events ++ evs /\
               Forall (fun e => silent e = true) evs) /\
  outcome d <> Stop Finished /\
  (outcome d = Ret tt -> ConfigInv E args (cfg (final d))).
Proof.
  cbv zeta.
  destruct (prelude E args) as (_ & Hl & _ & Hu & _ & Hcase).
  destruct (partition_suffix E args) as (Hs1 & Hs2).
  destruct (partition_trace E args) as (evs & Ht & Hev).
  rewrite after_datatypes_eq.
  destruct (andthen_cases (after_partition E args) (to_datatypes E args))
    as [(Ho & ->)|(h & Ho & ->)].
  - destruct (to_datatypes_silent E args (final (after_partition E args)))
      as (Hk & evs' & Ht' & Hev' & Hh).
    apply pair_equal_spec in Hk. destruct Hk as [Hk Hk4].
    apply pair_equal_spec in Hk. destruct Hk as [Hk Hk3].
    apply pair_equal_spec in Hk. destruct Hk as [Hk1 Hk2].
    split; [rewrite <- Hl; exact (f_equal c_loc Hk1)|].
    split; [intro q; rewrite Hk2; exact (un_ptr _ Hu q)|].
    split; [rewrite Hk3; exact Hs1|].
    split; [rewrite Hk4; exact Hs2|].
    split; [exists (evs ++ evs'); split;
            [rewrite Ht', Ht; now rewrite app_assoc
            |apply Forall_app; split; assumption]|].
    split.
    + intro Hf.
      match type of Hf with outcome ?r = _ =>
        destruct (outcome r) as [[]|h']; [discriminate Hf|] end.
      injection Hf as ->. exact (Hh Finished eq_refl eq_refl).
    + intros _. rewrite Hk1.
      destruct Hcase as [(msg & Hm)|(_ & Hc)]; [|exact Hc].
      rewrite Hm in Ho. discriminate Ho.
  - cbn [final snd outcome fst].
    split; [exact Hl|]. split; [exact (un_ptr _ Hu)|].
    split; [exact Hs1|]. split; [exact Hs2|].
    split; [exists evs; split; assumption|].
    split.
    + destruct Hcase as [(msg & Hm)|(Hr & _)].
      * rewrite Hm in Ho. injection Ho as <-. discriminate.
      * rewrite Hr in Ho. discriminate Ho.
    + discriminate.
Qed.


(** The last three stages, from any state in which only the fundamental
    classes are there. *)
Lemma tail_from E s :
  (forall q, ptr (lmp s) q = fundamental_ptr q) ->
  let l := loc s in
  let r := andthen (andthen (LAMMPS.accelerator E s) LAMMPS.notice)
                   (LAMMPS.top_level E) in
  outcome r = tail_outcome E l /\
  loc (final r) = l /\
  settings (final r) = settings s /\
  (exists msgs,
     Forall (fun e => silent e = true) msgs /\
     trace (final r)
     = trace s ++ accelerator_events E l
       ++ (if cuda_refused E l then []
           else msgs ++ top_events E l (cuda_active E l)
                          (suffix (lmp s)) (suffix_enable (lmp s))
                          (Universe.me (uni (lmp s))) (screen (lmp s)))) /\
  (cuda_refused E l = false ->
   forall q, ptr (lmp (final r)) q = constructed E l q).
Proof.
  intro Hp. cbv zeta.
  destruct (accelerator_run E s) as (Ho & Hal & Hat & Has & Hap).
  remember (LAMMPS.accelerator E s) as ra eqn:Hra. clear Hra.
  destruct ra as [oa sa]. cbn [outcome final fst snd] in *.
  unfold tail_outcome.
  destruct (cuda_refused E (loc s)) eqn:Href; subst oa.
  - cbn [andthen outcome final fst snd].
    split; [reflexivity|]. split; [exact Hal|]. split; [exact Has|].
    split; [|discriminate].
    exists []. split; [constructor|]. rewrite Hat, app_nil_r. reflexivity.
  - cbn [andthen]. rewrite notice_run. cbn [andthen].
    assert (Hcuda : ptr (lmp sa) cuda
                    = if cuda_active E (loc s) then Some Cuda else None).
    { rewrite Hap. unfold accelerator_ptr, cuda_active, cuda_refused in *.
      destruct (cudaflag (loc s) =? 0), (cuda_exists E),
        (cudaflag (loc s) =? 1); try reflexivity; discriminate Href. }
    match goal with |- context [LAMMPS.top_level E ?s1] =>
      destruct (top_level_run E s1) as (Hto & Htl & Htt & Hts & Htp);
      remember (LAMMPS.top_level E s1) as rt eqn:Hrt; clear Hrt
    end.
    destruct rt as [ot st]. cbn [outcome final fst snd] in *.
    unfold top_level_events, top_level_ptr, settings in *.
    cbn [lmp loc trace] in *.
    rewrite Hal in *.
    assert (Hacc : non_null (ptr (lmp sa) cuda) = cuda_active E (loc s)).
    { rewrite Hcuda. destruct (cuda_active E (loc s)); reflexivity. }
    rewrite Hacc in *.
    split; [exact Hto|]. split; [exact Htl|].
    split; [rewrite Hts; exact Has|].
    repeat (apply pair_equal_spec in Has;
            let H := fresh "Hs" in destruct Has as [Has H]).
    split.
    + exists (if cuda_active E (loc s) && (world_rank sa =? 0)
              then [EvMessage cuda_notice] else []).
      split; [destruct (_ && _); repeat constructor|].
      rewrite Htt, Hat, <- !app_assoc. do 3 f_equal.
      rewrite ?Has, ?Hs, ?Hs0, ?Hs1, ?Hs2, ?Hs3, ?Hs4. reflexivity.
    + intros _ q. rewrite Htp. unfold constructed.
      destruct q; try reflexivity; try exact Hcuda;
        rewrite Hap; unfold accelerator_ptr; rewrite Hp; reflexivity.
Qed.

(** The run once the datatypes have been checked. *)
Lemma run_tail E args :
  let l := loc (parsed E args) in
  let d := after_datatypes E args in
  let r := run E args in
  outcome d = Ret tt ->
  outcome r = tail_outcome E l /\
  loc (final r) = l /\
  settings (final r) = settings (final d) /\
  (exists msgs,
     Forall (fun e => silent e = true) msgs /\
     trace (final r)
     = trace (final d) ++ accelerator_events E l
       ++ (if cuda_refused E l then []
           else msgs ++ top_events E l (cuda_active E l)
                          (suffix (lmp (final d)))
                          (suffix_enable (lmp (final d)))
                          (Universe.me (uni (lmp (final d))))
                          (screen (lmp (final d))))) /\
  (cuda_refused E l = false ->
   forall q, ptr (lmp (final r)) q = constructed E l q).
Proof.
  cbv zeta. intro Hd.
  destruct (before_variant E args) as (Hl & Hp & _).
  rewrite run_chain. unfold after_notice, after_accelerator.
  rewrite (andthen_ret _ _ Hd). rewrite <- Hl.
  exact (tail_from E _ Hp).
Qed.


(** The events of a run: the fundamental classes, silent events, and,
    when the datatypes have been checked, the choice of the accelerator
    and the top level. *)
Lemma run_events E args :
  let p := parsed E args in
  let l := loc p in
  let r := run E args in
  exists evs msgs,
    Forall (fun e => silent e = true) evs /\
    Forall (fun e => silent e = true) msgs /\
    (outcome r = tail_outcome E l /\
     loc (final r) = l /\
     suffix (lmp (final r)) = suffix (lmp p) /\
     Universe.me (uni (lmp (final r))) = comm_rank E /\
     trace (final r)
     = fundamental_events ++ evs ++ accelerator_events E l
       ++ (if cuda_refused E l then []
           else msgs ++ top_events E l (cuda_active E l)
                          (suffix (lmp p)) (suffix_enable (lmp p))
                          (comm_rank E) (screen (lmp (final r)))) /\
     (cuda_refused E l = false ->
      forall q, ptr (lmp (final r)) q = constructed E l q)
     \/
     exists h, outcome r = Stop h /\ h <> Finished /\
               trace (final r) = fundamental_events ++ evs).
Proof.
  cbv zeta.
  destruct (before_variant E args)
    as (Hl & Hp & Hs1 & Hs2 & (evs & Ht & Hev) & Hnf & Hc).
  destruct (outcome (after_datatypes E args)) as [[]|h] eqn:Hd.
  - destruct (run_tail E args Hd)
      as (Ho & Hrl & Hrs & (msgs & Hm & Hrt) & Hrp).
    exists evs, msgs. split; [assumption|]. split; [assumption|]. left.
    specialize (Hc eq_refl).
    unfold settings in Hrs.
    repeat (apply pair_equal_spec in Hrs;
            let H := fresh "Hs" in destruct Hrs as [Hrs H]).
    split; [exact Ho|]. split; [exact Hrl|].
    split; [rewrite <- Hs1; assumption|].
    split; [rewrite Hrs; exact (ci_me _ _ _ Hc)|].
    split; [|exact Hrp].
    rewrite Hrt, Ht, Hs1, Hs2, <- Hs6.
    rewrite (ci_me _ _ _ Hc : Universe.me _ = _).
    now rewrite <- app_assoc.
  - exists evs, []. split; [assumption|]. split; [constructor|]. right.
    exists h. rewrite run_from_datatypes, (andthen_stop _ _ _ Hd).
    cbn [outcome final fst snd]. split; [reflexivity|].
    split; [congruence|exact Ht].
Qed.


(** * What the constructor leaves behind *)

Lemma silent_filter (p : Event -> bool) evs :
  (forall e, silent e = true -> p e = false) ->
  Forall (fun e => silent e = true) evs -> filter p evs = [].
Proof.
  intros Hp. induction 1 as [|e evs He _ IH]; simpl; [reflexivity|].
  now rewrite (Hp e He).
Qed.

Lemma silent_no_alloc e : silent e = true -> is_alloc e = false.
Proof. destruct e; cbn; congruence. Qed.

Lemma silent_builds q e : silent e = true -> builds q e = false.
Proof. destruct e; cbn; congruence. Qed.

Lemma silent_deletes q e : silent e = true -> deletes q e = false.
Proof. destruct e; cbn; congruence. Qed.

Lemma silent_no_subsystem e : silent e = true -> builds_subsystem e = false.
Proof. destruct e; cbn; congruence. Qed.

Lemma silent_no_help e : silent e = true -> is_help e = false.
Proof. destruct e; cbn; congruence. Qed.

Lemma silent_no_input_one e : silent e = true -> is_input_one e = false.
Proof. destruct e; cbn; congruence. Qed.

Lemma truthy_false z : truthy z = false -> z = 0.
Proof. unfold truthy. intro H. apply negb_false_iff in H. lia. Qed.

Lemma truthy_true z : truthy z = true -> z <> 0.
Proof. unfold truthy. intro H. apply negb_true_iff in H. lia. Qed.

(** X9.  When the constructor returns, [memory], [error], [universe], [input]
    and the ten top-level pointers are set, each to an object of the class
    the accelerator setting asks for; [cuda] is set exactly when the
    accelerator was not switched off and the package is there; [citeme]
    exactly when the citations were not switched off.  The help flag was
    not given, and [-cuda on] was not refused. *)
Theorem constructor_pointers E args :
  outcome (run E args) = Ret tt ->
  (forall q, ptr (lmp (final (run E args))) q
             = constructed E (loc (parsed E args)) q) /\
  helpflag (loc (parsed E args)) = 0 /\
  cuda_refused E (loc (parsed E args)) = false.
Proof.
  intro Hr.
  destruct (run_events E args)
    as (evs & msgs & _ & _ & [(Ho & _ & _ & _ & _ & Hp)|(h & Ho & _)]).
  - rewrite Ho in Hr. unfold tail_outcome in Hr.
    destruct (cuda_refused E _); [discriminate Hr|].
    destruct (truthy _) eqn:Hh; [discriminate Hr|].
    split; [exact (Hp eq_refl)|]. split; [|reflexivity].
    exact (truthy_false _ Hh).
  - rewrite Ho in Hr. discriminate Hr.
Qed.

Lemma constructor_pointers_witness :
  (forall q,
     ptr (lmp (final (run (Examples.env 0 1 [] true) Examples.bare))) q
     = constructed (Examples.env 0 1 [] true)
         (loc (parsed (Examples.env 0 1 [] true) Examples.bare)) q) /\
  helpflag (loc (parsed (Examples.env 0 1 [] true) Examples.bare)) = 0 /\
  cuda_refused (Examples.env 0 1 [] true)
    (loc (parsed (Examples.env 0 1 [] true) Examples.bare)) = false.
Proof. apply constructor_pointers. vm_compute. reflexivity. Defined.

Lemma filter_input_one (p : Event -> bool) cmds :
  (forall c, p (EvInputOne c) = false) -> filter p (map EvInputOne cmds) = [].
Proof.
  intro Hp. induction cmds as [|c cmds IH]; simpl; [reflexivity|].
  now rewrite Hp.
Qed.

Lemma filter_all_input_one cmds :
  filter is_input_one (map EvInputOne cmds) = map EvInputOne cmds.
Proof. induction cmds as [|c cmds IH]; simpl; [|rewrite IH]; reflexivity. Qed.

Section TopEvents.
Context (E : Env) (l : Locals) (acc : bool) (sfx : option string)
        (en me : Z) (scr : stream).

Local Abbreviation top := (top_events E l acc sfx en me scr).

Lemma top_events_help :
  filter is_help top
  = if truthy (helpflag l) && (me =? 0) then [EvHelp scr] else [].
Proof.
  unfold top_events, help_stage_events. rewrite !filter_app.
  rewrite filter_input_one by reflexivity.
  destruct (truthy (citeflag l)), (truthy (helpflag l)), (me =? 0);
    reflexivity.
Qed.

Lemma top_events_subsystems :
  filter builds_subsystem top
  = map (fun p => EvNew p (class_of E acc p)) construction_order.
Proof.
  unfold top_events, help_stage_events. rewrite !filter_app.
  rewrite filter_input_one by reflexivity.
  destruct (truthy (citeflag l)), (truthy (helpflag l)), (me =? 0);
    reflexivity.
Qed.

Lemma top_events_builds q :
  filter (builds q) top
  = match q with
    | memory | error | universe | cuda => []
    | citeme => if truthy (citeflag l) then [EvNew citeme CiteMe] else []
    | _ => [EvNew q (class_of E acc q)]
    end.
Proof.
  unfold top_events, help_stage_events. rewrite !filter_app.
  rewrite filter_input_one by reflexivity.
  destruct q, (truthy (citeflag l)), (truthy (helpflag l)), (me =? 0);
    reflexivity.
Qed.

Lemma top_events_deletes q : filter (deletes q) top = [].
Proof.
  unfold top_events, help_stage_events. rewrite !filter_app.
  rewrite filter_input_one by reflexivity.
  destruct q, (truthy (citeflag l)), (truthy (helpflag l)), (me =? 0);
    reflexivity.
Qed.

Lemma top_events_input_one :
  filter is_input_one top = map EvInputOne (package_commands sfx en).
Proof.
  unfold top_events, help_stage_events. rewrite !filter_app.
  rewrite filter_all_input_one.
  destruct (truthy (citeflag l)), (truthy (helpflag l)), (me =? 0);
    cbn; rewrite ?app_nil_r; reflexivity.
Qed.

End TopEvents.

Lemma accelerator_events_quiet E l (p : Event -> bool) :
  p (EvNew cuda Cuda) = false -> p (EvDelete cuda Cuda) = false ->
  p (EvFatal World cuda_missing) = false ->
  filter p (accelerator_events E l) = [].
Proof.
  intros H1 H2 H3. unfold accelerator_events.
  destruct (cudaflag l =? 0), (cuda_exists E), (cudaflag l =? 1);
    cbn; rewrite ?H1, ?H2, ?H3; reflexivity.
Qed.

(** X10.  With [-help] the constructor does not return.  When it ends the run
    with success the help flag was given, the ten top-level objects have
    all been built, in the order of construction, the citation collector
    has not, and the help message has been asked for by pool rank 0 alone,
    on the screen of its world.  Otherwise no help message is asked
    for. *)
Theorem help_ends_the_run E args :
  let l := loc (parsed E args) in
  let r := run E args in
  (helpflag l <> 0 -> outcome r <> Ret tt) /\
  (outcome r = Stop Finished ->
   helpflag l = 1 /\
   filter builds_subsystem (trace (final r))
   = map (fun p => EvNew p (class_of E (cuda_active E l) p))
         construction_order /\
   filter (builds citeme) (trace (final r)) = [] /\
   filter is_help (trace (final r))
   = if comm_rank E =? 0 then [EvHelp (screen (lmp (final r)))] else []) /\
  (outcome r <> Stop Finished -> filter is_help (trace (final r)) = []).
Proof.
  cbv zeta.
  destruct (prelude E args) as (Hs & _).
  pose proof (si_loc _ _ _ Hs) as Hli.
  destruct (run_events E args)
    as (evs & msgs & Hev & Hm &
        [(Ho & _ & _ & _ & Ht & _)|(h & Ho & Hh & Ht)]).
  - set (l := loc (parsed E args)) in *. clearbody l.
    rewrite Ho, Ht. clear Ho Ht. unfold tail_outcome.
    rewrite !filter_app.
    rewrite (silent_filter _ evs silent_no_help Hev).
    rewrite (silent_filter _ evs silent_no_subsystem Hev).
    rewrite (silent_filter _ evs (silent_builds citeme) Hev).
    rewrite !(accelerator_events_quiet E l) by reflexivity.
    cbn [fundamental_events filter builds builds_subsystem is_subsystem
         is_help Ptr_eqb app].
    destruct (cuda_refused E l).
    + split; [discriminate|]. split; [discriminate|]. reflexivity.
    + rewrite !filter_app.
      rewrite (silent_filter _ msgs silent_no_help Hm).
      rewrite (silent_filter _ msgs silent_no_subsystem Hm).
      rewrite (silent_filter _ msgs (silent_builds citeme) Hm).
      rewrite top_events_help, top_events_subsystems, top_events_builds.
      cbn [app].
      destruct (truthy (helpflag l)) eqn:Hth.
      * apply truthy_true in Hth.
        destruct (li_help _ _ Hli) as [H0|[H1 Hc]]; [contradiction|].
        split; [discriminate|]. split; [|intro Hn; now contradiction Hn].
        intros _. split; [exact H1|]. split; [reflexivity|].
        rewrite Hc. split; reflexivity.
      * apply truthy_false in Hth.
        split; [intro; contradiction|]. split; [discriminate|]. reflexivity.
  - rewrite Ho, Ht. rewrite !filter_app.
    rewrite (silent_filter _ evs silent_no_help Hev).
    split; [discriminate|].
    split; [intros [= ->]; contradiction|]. reflexivity.
Qed.

Lemma help_ends_the_run_witness :
  outcome (run (Examples.env 0 1 [] false) Examples.help) <> Ret tt /\
  (helpflag (loc (parsed (Examples.env 0 1 [] false) Examples.help)) = 1 /\
   filter is_help
     (trace (final (run (Examples.env 0 1 [] false) Examples.help)))
   = (if comm_rank (Examples.env 0 1 [] false) =? 0
      then [EvHelp (screen (lmp (final (run (Examples.env 0 1 [] false)
                                            Examples.help))))]
      else [])) /\
  filter is_help
    (trace (final (run (Examples.env 0 1 [] false) Examples.bare))) = [].
Proof.
  split; [|split].
  - apply (proj1 (help_ends_the_run (Examples.env 0 1 [] false)
                    Examples.help)).
    vm_compute. discriminate.
  - destruct (help_ends_the_run (Examples.env 0 1 [] false) Examples.help)
      as (_ & H & _).
    destruct H as (H1 & _ & _ & H4); [vm_compute; reflexivity|].
    split; [exact H1|exact H4].
  - apply (proj2 (proj2 (help_ends_the_run (Examples.env 0 1 [] false)
                           Examples.bare))).
    vm_compute. discriminate.
Defined.

(** X11.  The commands the constructor runs are those of the suffix: with
    [-suffix gpu] the one [package gpu] command, with [-suffix omp] the one
    [package omp] command, with any other suffix or none, nothing; they
    are run when the top-level objects have been built, and not in a run
    that stops before. *)
Theorem suffix_commands E args :
  let p := parsed E args in
  let r := run E args in
  (outcome r = Ret tt \/ outcome r = Stop Finished ->
   filter is_input_one (trace (final r))
   = map EvInputOne (package_commands (suffix (lmp p))
                                      (suffix_enable (lmp p)))) /\
  (outcome r <> Ret tt -> outcome r <> Stop Finished ->
   filter is_input_one (trace (final r)) = []).
Proof.
  cbv zeta.
  destruct (run_events E args)
    as (evs & msgs & Hev & Hm &
        [(Ho & _ & _ & _ & Ht & _)|(h & Ho & Hh & Ht)]).
  - rewrite Ho, Ht. clear Ho Ht. unfold tail_outcome.
    rewrite !filter_app.
    rewrite (silent_filter _ evs silent_no_input_one Hev).
    rewrite (accelerator_events_quiet E _) by reflexivity.
    cbn [fundamental_events filter is_input_one app].
    destruct (cuda_refused E _).
    + split; [intros [H|H]; discriminate H|]. reflexivity.
    + rewrite !filter_app.
      rewrite (silent_filter _ msgs silent_no_input_one Hm).
      rewrite top_events_input_one. cbn [app].
      split; [reflexivity|].
      destruct (truthy _); intros H1 H2;
        [contradiction H2|contradiction H1]; reflexivity.
  - rewrite Ho, Ht. rewrite !filter_app.
    rewrite (silent_filter _ evs silent_no_input_one Hev).
    split; [|reflexivity].
    intros [H|H]; [discriminate H|]. injection H as ->. contradiction.
Qed.

Lemma suffix_commands_witness :
  filter is_input_one
    (trace (final (run (Examples.env 0 1 [] false)
                       ["lmp"; "-suffix"; "gpu"]%string)))
  = map EvInputOne
      (package_commands
         (suffix (lmp (parsed (Examples.env 0 1 [] false)
                              ["lmp"; "-suffix"; "gpu"]%string)))
         (suffix_enable (lmp (parsed (Examples.env 0 1 [] false)
                                     ["lmp"; "-suffix"; "gpu"]%string)))) /\
  filter is_input_one
    (trace (final (run (Examples.env 0 2 [] false)
                       Examples.partition_no_in))) = [].
Proof.
  split.
  - apply (proj1 (suffix_commands (Examples.env 0 1 [] false)
                    ["lmp"; "-suffix"; "gpu"]%string)).
    left. vm_compute. reflexivity.
  - apply (proj2 (suffix_commands (Examples.env 0 2 [] false)
                    Examples.partition_no_in)); vm_compute; discriminate.
Defined.


(** * The streams *)

Lemma then_keeps {C} (proj : State -> C) (m k : M unit) s :
  (forall s', proj (final (k s')) = proj s') ->
  proj (final ((m ;; k) s)) = proj (final (m s)).
Proof.
  intro Hk. rewrite bind_andthen.
  destruct (m s) as [[[]|h] s1]; cbn [andthen final snd]; auto.
Qed.

Lemma then_cases (m k : M unit) s :
  outcome (m s) = Ret tt /\ (m ;; k) s = k (final (m s)) \/
  exists h, outcome (m s) = Stop h /\ (m ;; k) s = (Stop h, final (m s)).
Proof. rewrite bind_andthen. apply andthen_cases. Qed.

(** ** The log files are files *)

Lemma universe_streams_file E args s :
  is_file (Universe.ulogfile (uni (lmp s))) = true ->
  is_file (Universe.ulogfile
             (uni (lmp (final (LAMMPS.universe_streams E args s))))) = true.
Proof.
  intro Hf. open_state s. cbn in Hf. exec. all: try reflexivity.
  all: try assumption.
Qed.

Lemma universe_streams_world E args :
  traced (fun s => (screen (lmp s), logfile (lmp s), infile (lmp s),
                    world (lmp s)))
         (each always always) (LAMMPS.universe_streams E args).
Proof. tr_auto. all: each_leaf. all: exact I. Qed.

Lemma world_logfile_file E args u l me s :
  is_file (logfile (lmp s)) = true ->
  is_file (logfile (lmp (final (LAMMPS.world_logfile E args u l me s))))
  = true.
Proof.
  intro Hf. open_state s. cbn in Hf. destruct l. exec.
  all: try reflexivity. all: try assumption.
Qed.

Lemma world_screen_keeps E args u l me :
  traced (fun s => (logfile (lmp s), infile (lmp s)))
         (each always always) (LAMMPS.world_screen E args u l me).
Proof. tr_auto. all: each_leaf. all: exact I. Qed.

Lemma after_logfile_keeps E args l me :
  traced (fun s => logfile (lmp s)) (each always always)
         (LAMMPS.world_infile E args l me ;; LAMMPS.world_banners E me).
Proof. tr_auto. all: each_leaf. all: exact I. Qed.

Lemma world_banners_keeps E me :
  traced (fun s => infile (lmp s)) (each always always)
         (LAMMPS.world_banners E me).
Proof. tr_auto. all: each_leaf. all: exact I. Qed.

Lemma world_logfile_keeps E args u l me :
  traced (fun s => infile (lmp s)) (each always always)
         (LAMMPS.world_logfile E args u l me).
Proof. tr_auto. all: each_leaf. all: exact I. Qed.


(** ** The input script *)

Lemma world_infile_value E args l me s :
  inflag l <> 0 ->
  outcome (LAMMPS.world_infile E args l me s) = Ret tt ->
  infile (lmp (final (LAMMPS.world_infile E args l me s)))
  = input_of args l me.
Proof.
  intros Hin Ho. unfold input_of. apply Z.eqb_neq in Hin. rewrite Hin.
  revert Ho. open_state s. destruct l. exec.
  all: cbn [outcome fst]; intro Ho; try discriminate Ho; reflexivity.
Qed.

Lemma single_world_infile E args s :
  Universe.existflag (uni (lmp s)) = 0 ->
  outcome (LAMMPS.world_streams E args s) = Ret tt ->
  infile (lmp (final (LAMMPS.world_streams E args s)))
  = input_of args (loc s) (Universe.me (uni (lmp s))).
Proof.
  intros He. unfold input_of. open_state s. cbn in He. subst.
  unfold LAMMPS.world_streams.
  lazy beta iota delta [bind gets LAMMPS.the_uni lmp uni Universe.existflag].
  change (0 =? 0) with true. lazy iota.
  exec.
  all: cbn [outcome fst]; intro Ho; try discriminate Ho; try reflexivity.
Qed.

Lemma world_streams_multi E args s :
  Universe.existflag (uni (lmp s)) <> 0 ->
  LAMMPS.world_streams E args s
  = (let u := uni (lmp s) in
     let l := loc s in
     let me := Universe.split_rank u in
     LAMMPS.world_screen E args u l me ;;
     LAMMPS.world_logfile E args u l me ;;
     LAMMPS.world_infile E args l me ;;
     LAMMPS.world_banners E me)
      (mkState (set_world (split_comm (Universe.iworld (uni (lmp s))))
                          (lmp s))
               (loc s)
               (trace s ++ [EvCommSplit (Universe.iworld (uni (lmp s)))])).
Proof.
  intro He.
  assert (Hw : LAMMPS.world_streams E args s = LAMMPS.multi_world E args s).
  { unfold LAMMPS.world_streams, bind, LAMMPS.the_uni, gets.
    apply Z.eqb_neq in He. rewrite He. reflexivity. }
  rewrite Hw, multi_world_eq. cbv zeta.
  unfold bind at 1. unfold emit at 1.
  unfold bind at 1. unfold upd_lmp at 1.
  reflexivity.
Qed.

Lemma multi_world_logfile E args s :
  Universe.existflag (uni (lmp s)) <> 0 ->
  is_file (logfile (lmp s)) = true ->
  is_file (logfile (lmp (final (LAMMPS.world_streams E args s)))) = true.
Proof.
  intros He Hf. rewrite (world_streams_multi E args s He). cbv zeta.
  match goal with |- context [(_ ;; _) ?s1] => set (s1' := s1) end.
  assert (Hf1 : is_file (logfile (lmp s1')) = true) by exact Hf.
  clearbody s1'.
  match goal with |- context [(?m ;; ?k) s1'] =>
    destruct (then_cases m k s1') as [(Ho & ->)|(h & Ho & ->)] end.
  - rewrite (then_keeps (fun s => logfile (lmp s))).
    + apply world_logfile_file.
      destruct (world_screen_keeps E args (uni (lmp s)) (loc s)
                  (Universe.split_rank (uni (lmp s))) s1') as (Hk & _).
      apply pair_equal_spec in Hk. destruct Hk as [-> _]. exact Hf1.
    + intro s'. apply after_logfile_keeps.
  - cbn [final snd].
    destruct (world_screen_keeps E args (uni (lmp s)) (loc s)
                (Universe.split_rank (uni (lmp s))) s1') as (Hk & _).
    apply pair_equal_spec in Hk. destruct Hk as [-> _]. exact Hf1.
Qed.

Lemma multi_world_infile E args s :
  Universe.existflag (uni (lmp s)) <> 0 ->
  inflag (loc s) <> 0 ->
  outcome (LAMMPS.world_streams E args s) = Ret tt ->
  infile (lmp (final (LAMMPS.world_streams E args s)))
  = input_of args (loc s) (Universe.split_rank (uni (lmp s))).
Proof.
  intros He Hin. rewrite (world_streams_multi E args s He). cbv zeta.
  match goal with |- context [(_ ;; _) ?s1] => generalize s1 end.
  intro s1.
  match goal with |- context [(?m ;; ?k) s1] =>
    destruct (then_cases m k s1) as [(Ho & ->)|(h & Ho & ->)] end;
    [|intro H; discriminate H].
  match goal with |- context [(?m ;; ?k) ?s2] =>
    destruct (then_cases m k s2) as [(Ho2 & ->)|(h & Ho2 & ->)] end;
    [|intro H; discriminate H].
  match goal with |- context [(?m ;; ?k) ?s3] =>
    destruct (then_cases m k s3) as [(Ho3 & Heq)|(h & Ho3 & Heq)] end;
    rewrite Heq; [|intro H; discriminate H].
  intros _.
  destruct (world_banners_keeps E (Universe.split_rank (uni (lmp s)))
              (final (LAMMPS.world_infile E args (loc s)
                        (Universe.split_rank (uni (lmp s)))
                        (final (LAMMPS.world_logfile E args (uni (lmp s))
                                  (loc s) (Universe.split_rank (uni (lmp s)))
                                  (final (LAMMPS.world_screen E args
                                            (uni (lmp s)) (loc s)
                                            (Universe.split_rank
                                               (uni (lmp s))) s1)))))))
    as (Hk & _).
  rewrite Hk. exact (world_infile_value E args _ _ _ Hin Ho3).
Qed.

(** The world streams, in one statement. *)
Lemma world_streams_facts E args s :
  is_file (Universe.ulogfile (uni (lmp s))) = true ->
  is_file (logfile (lmp s)) = true ->
  (Universe.existflag (uni (lmp s)) <> 0 -> inflag (loc s) <> 0) ->
  let r := LAMMPS.world_streams E args s in
  uni (lmp (final r)) = uni (lmp s) /\
  is_file (logfile (lmp (final r))) = true /\
  world (lmp (final r))
  = (if Universe.existflag (uni (lmp s)) =? 0 then uworld
     else split_comm (Universe.iworld (uni (lmp s)))) /\
  (Universe.existflag (uni (lmp s)) = 0 ->
   logfile (lmp (final r)) = Universe.ulogfile (uni (lmp s)) /\
   screen (lmp (final r)) = Universe.uscreen (uni (lmp s))) /\
  (outcome r = Ret tt ->
   infile (lmp (final r)) = input_of args (loc s) (rank_to_be s)).
Proof.
  intros Hu Hf Hin. cbv zeta. unfold rank_to_be.
  destruct (world_streams_uni E args s) as (Hk & _).
  split; [exact Hk|].
  destruct (Z.eqb_spec (Universe.existflag (uni (lmp s))) 0) as [He|He].
  - destruct (single_world_streams E args s He) as (Hw & Hs & Hl).
    split; [rewrite Hl; exact Hu|]. split; [exact Hw|].
    split; [intros _; split; assumption|].
    exact (single_world_infile E args s He).
  - split; [exact (multi_world_logfile E args s He Hf)|].
    split; [exact (multi_world_comm E args s He)|].
    split; [intro H; contradiction|].
    exact (multi_world_infile E args s He (Hin He)).
Qed.


Lemma check_datatypes_settings E :
  traced settings (each always always) (LAMMPS.check_datatypes E).
Proof. tr_auto. all: each_leaf. all: exact I. Qed.

(** The streams once the datatypes have been checked. *)
Lemma streams_settled E args :
  outcome (after_datatypes E args) = Ret tt ->
  let d := final (after_datatypes E args) in
  let u := uni (lmp d) in
  is_file (Universe.ulogfile u) = true /\
  is_file (logfile (lmp d)) = true /\
  world (lmp d) = (if Universe.existflag u =? 0 then uworld
                   else split_comm (Universe.iworld u)) /\
  (Universe.existflag u = 0 ->
   logfile (lmp d) = Universe.ulogfile u /\
   screen (lmp d) = Universe.uscreen u) /\
  infile (lmp d) = input_of args (loc (parsed E args)) (world_rank d).
Proof.
  intros Hd. cbv zeta.
  destruct (prelude E args) as (_ & Hl & _ & Hu & _ & Hcase).
  revert Hd. unfold after_datatypes, after_world, after_universe.
  rewrite <- Hl.
  remember (after_partition E args) as rp eqn:Heq. clear Heq Hl.
  destruct rp as [[[]|h] p]; cbn [andthen final snd outcome fst] in *;
    [|intro H; discriminate H].
  destruct Hcase as [(msg & Hm)|(_ & Hc)]; [discriminate Hm|].
  assert (Hf0 : is_file (Universe.ulogfile (uni (lmp p))) = true)
    by (rewrite (un_ulogfile _ Hu); reflexivity).
  pose proof (universe_streams_file E args p Hf0) as Hf1.
  destruct (universe_streams_world E args p) as (Hw & _).
  destruct (universe_streams_cfg E args p) as (Hcf & _).
  destruct (LAMMPS.universe_streams E args p) as [[[]|h] u];
    cbn [andthen final snd outcome fst] in *; [|intro H; discriminate H].
  apply pair_equal_spec in Hw. destruct Hw as [Hw _].
  apply pair_equal_spec in Hw. destruct Hw as [Hw _].
  apply pair_equal_spec in Hw. destruct Hw as [_ Hlg].
  assert (Hf2 : is_file (logfile (lmp u)) = true)
    by (rewrite Hlg, (un_logfile _ Hu); reflexivity).
  assert (Hin : Universe.existflag (uni (lmp u)) <> 0 -> inflag (loc u) <> 0).
  { change (c_existflag (cfg u) <> 0 -> inflag (c_loc (cfg u)) <> 0).
    rewrite Hcf. intro He.
    destruct (ci_exist _ _ _ Hc) as [(H0 & _)|(_ & H1)];
      [contradiction|exact H1]. }
  assert (Hlu : loc u = loc p) by exact (f_equal c_loc Hcf).
  destruct (world_streams_facts E args u Hf1 Hf2 Hin)
    as (Hwu & Hwl & Hww & Hws & Hwi).
  unfold rank_to_be in Hwi.
  destruct (LAMMPS.world_streams E args u) as [[[]|h] w];
    cbn [andthen final snd outcome fst] in *; [|intro H; discriminate H].
  specialize (Hwi eq_refl).
  destruct (check_datatypes_settings E w) as (Hk & _).
  destruct (LAMMPS.check_datatypes E w) as [[[]|h] d];
    cbn [andthen final snd outcome fst] in *; [|intro H; discriminate H].
  intros _. unfold settings in Hk.
  repeat (apply pair_equal_spec in Hk;
          let H := fresh "Hs" in destruct Hk as [Hk H]).
  unfold world_rank.
  rewrite Hs1, Hs2, Hs3, Hs4, Hk, Hwu, Hwi, Hww, <- Hlu.
  split; [exact Hf1|]. split; [exact Hwl|]. split; [reflexivity|].
  split; [exact Hws|].
  destruct (Universe.existflag (uni (lmp u)) =? 0); reflexivity.
Qed.


(** * The destructor *)

Lemma skipn_length_app {A} (t x : list A) :
  skipn (List.length t) (t ++ x) = x.
Proof. induction t; simpl; auto. Qed.

Lemma seq_ret {A} (m : Destructor.D unit) (k : Destructor.D A) st st' :
  m st = (Ret tt, st') -> Destructor.seq m k st = k st'.
Proof. unfold Destructor.seq. now intros ->. Qed.

Lemma obj_delete p s log :
  Destructor.obj (LAMMPS.delete p) (s, log)
  = (Ret tt,
     (mkState (lmp s) (loc s) (trace s ++ deleted_events p s),
      log ++ map Obj (deleted_events p s))).
Proof.
  unfold Destructor.obj. cbn [fst snd]. rewrite delete_run.
  cbn [outcome final fst snd trace]. now rewrite skipn_length_app.
Qed.

Lemma obj_destroy s log :
  Destructor.obj LAMMPS.destroy (s, log)
  = (Ret tt,
     (mkState (set_ptr modify None (lmp s)) (loc s)
              (trace s ++ flat_map (fun p => deleted_events p s)
                                   destruction_order),
      log ++ map Obj (flat_map (fun p => deleted_events p s)
                               destruction_order))).
Proof.
  unfold Destructor.obj. cbn [fst snd]. rewrite destroy_run.
  cbn [outcome final fst snd trace]. now rewrite skipn_length_app.
Qed.

Lemma close_streams_run s log :
  Destructor.close_streams (s, log) = (Ret tt, (s, log ++ map Rel (closing s))).
Proof.
  unfold Destructor.close_streams, closing, Destructor.fclose_if_open,
    closed_if_open, Destructor.seq, Destructor.rel, Destructor.skip.
  cbn [fst snd].
  destruct (Universe.nworlds (uni (lmp s)) =? 1).
  - destruct (logfile (lmp s)); cbn; rewrite ?app_nil_r; reflexivity.
  - destruct (screen (lmp s)) as [h|]; [destruct (FILE_is_stdout h)|];
      destruct (logfile (lmp s)); destruct (Universe.ulogfile (uni (lmp s)));
      cbn; rewrite <- ?app_assoc, ?app_nil_r; reflexivity.
Qed.

Lemma free_world_run s log :
  Destructor.free_world (s, log) = (Ret tt, (s, log ++ map Rel (freeing s))).
Proof.
  unfold Destructor.free_world, freeing, Destructor.rel, Destructor.skip.
  cbn [fst snd].
  destruct (MPI_Comm_eqb (world (lmp s)) uworld); cbn;
    rewrite ?app_nil_r; reflexivity.
Qed.

Lemma delete_suffix_run s log :
  Destructor.delete_suffix (s, log)
  = (Ret tt, (s, log ++ [Rel (DeleteSuffix (suffix (lmp s)))])).
Proof. reflexivity. Qed.

(** The destructor, whatever the state of the object: it returns; the
    pointers but [modify] and the other members are as they were. *)
Lemma destructor_run s :
  Destructor.run s
  = (Ret tt,
     (mkState (set_ptr modify None (lmp s)) (loc s)
              (trace s ++ flat_map (fun p => deleted_events p s)
                                   deletion_order),
      map Obj (flat_map (fun p => deleted_events p s)
                        (destruction_order ++ [citeme]))
      ++ map Rel (closing s ++ freeing s)
      ++ map Obj (deleted_events cuda s)
      ++ [Rel (DeleteSuffix (suffix (lmp s)))]
      ++ map Obj (flat_map (fun p => deleted_events p s)
                           [input; universe; error; memory]))).
Proof.
  unfold Destructor.run, Destructor.destructor.
  rewrite (seq_ret _ _ _ _ (obj_destroy _ _)).
  rewrite (seq_ret _ _ _ _ (obj_delete _ _ _)).
  rewrite (seq_ret _ _ _ _ (close_streams_run _ _)).
  rewrite (seq_ret _ _ _ _ (free_world_run _ _)).
  rewrite (seq_ret _ _ _ _ (obj_delete _ _ _)).
  rewrite (seq_ret _ _ _ _ (delete_suffix_run _ _)).
  rewrite (seq_ret _ _ _ _ (obj_delete _ _ _)).
  rewrite (seq_ret _ _ _ _ (obj_delete _ _ _)).
  rewrite (seq_ret _ _ _ _ (obj_delete _ _ _)).
  rewrite obj_delete.
  destruct s as [m l t]. unfold deleted_events, closing, freeing.
  cbn [lmp loc trace fst snd set_ptr ptr Ptr_eqb uni screen logfile world
       suffix flat_map deletion_order destruction_order app].
  rewrite ?map_app, ?app_nil_r, <- ?app_assoc. reflexivity.
Qed.


(** ** The screen of a world of a partition *)

Lemma world_screen_default E args u l me s :
  me = 0 -> partscreenflag l = 0 -> screenflag l = 0 ->
  outcome (LAMMPS.world_screen E args u l me s) = Ret tt ->
  screen (lmp (final (LAMMPS.world_screen E args u l me s)))
  = Some (opened ("screen." +++ dec (Universe.iworld u))).
Proof.
  intros -> Hp Hs. destruct l. cbn in Hp, Hs. subst.
  open_state s. exec.
  all: try match goal with H : (0 =? 0) = false |- _ => discriminate H end.
  all: cbn [outcome fst]; intro Ho; try discriminate Ho; reflexivity.
Qed.

Lemma after_screen_keeps E args u l me :
  traced (fun s => screen (lmp s)) (each always always)
    (LAMMPS.world_logfile E args u l me ;;
     LAMMPS.world_infile E args l me ;;
     LAMMPS.world_banners E me).
Proof. tr_auto. all: each_leaf. all: exact I. Qed.

Lemma multi_world_screen E args s :
  Universe.existflag (uni (lmp s)) <> 0 ->
  Universe.split_rank (uni (lmp s)) = 0 ->
  partscreenflag (loc s) = 0 -> screenflag (loc s) = 0 ->
  outcome (LAMMPS.world_streams E args s) = Ret tt ->
  screen (lmp (final (LAMMPS.world_streams E args s)))
  = Some (opened ("screen." +++ dec (Universe.iworld (uni (lmp s))))).
Proof.
  intros He Hme Hp Hs. rewrite (world_streams_multi E args s He). cbv zeta.
  match goal with |- context [(_ ;; _) ?s1] => generalize s1 end.
  intro s1.
  match goal with |- context [(?m ;; ?k) s1] =>
    destruct (then_cases m k s1) as [(Ho & Heq)|(h & Ho & Heq)] end;
    rewrite Heq; [|intro H; discriminate H].
  intros _.
  match goal with |- screen (lmp (final (?k ?s2))) = _ =>
    destruct (after_screen_keeps E args (uni (lmp s)) (loc s)
                (Universe.split_rank (uni (lmp s))) s2) as (Hk & _)
  end.
  cbn beta in Hk. rewrite Hk.
  exact (world_screen_default E args _ _ _ _ Hme Hp Hs Ho).
Qed.

(** The screen file of a partition once the datatypes have been
    checked. *)
Lemma partition_screen E args :
  outcome (after_datatypes E args) = Ret tt ->
  let d := final (after_datatypes E args) in
  let u := uni (lmp d) in
  let l := loc (parsed E args) in
  Universe.existflag u <> 0 -> Universe.split_rank u = 0 ->
  partscreenflag l = 0 -> screenflag l = 0 ->
  screen (lmp d) = Some (opened ("screen." +++ dec (Universe.iworld u))).
Proof.
  intros Hd. cbv zeta.
  destruct (prelude E args) as (_ & Hl & _ & _ & _ & _).
  revert Hd. unfold after_datatypes, after_world, after_universe.
  rewrite <- Hl.
  remember (after_partition E args) as rp eqn:Heq. clear Heq Hl.
  destruct rp as [[[]|h] p]; cbn [andthen final snd outcome fst] in *;
    [|intro H; discriminate H].
  destruct (universe_streams_cfg E args p) as (Hcf & _).
  destruct (LAMMPS.universe_streams E args p) as [[[]|h] u];
    cbn [andthen final snd outcome fst] in *; [|intro H; discriminate H].
  assert (Hlu : loc u = loc p) by exact (f_equal c_loc Hcf).
  destruct (world_streams_uni E args u) as (Hwu & _).
  pose proof (multi_world_screen E args u) as Hsc.
  destruct (LAMMPS.world_streams E args u) as [[[]|h] w];
    cbn [andthen final snd outcome fst] in *; [|intro H; discriminate H].
  destruct (check_datatypes_settings E w) as (Hk & _).
  destruct (LAMMPS.check_datatypes E w) as [[[]|h] d];
    cbn [andthen final snd outcome fst] in *; [|intro H; discriminate H].
  intros _. unfold settings in Hk.
  repeat (apply pair_equal_spec in Hk;
          let H := fresh "Hs" in destruct Hk as [Hk H]).
  rewrite Hs4, Hk, Hwu, <- Hlu. intros He Hme Hp Hsf.
  exact (Hsc He Hme Hp Hsf eq_refl).
Qed.

(** ** The object a constructor that returns leaves *)

Lemma returned_datatypes E args :
  outcome (run E args) = Ret tt -> outcome (after_datatypes E args) = Ret tt.
Proof.
  intro Hr. destruct (outcome (after_datatypes E args)) as [[]|h] eqn:Hd;
    [reflexivity|].
  rewrite run_chain in Hr. unfold after_notice, after_accelerator in Hr.
  rewrite (andthen_stop _ _ _ Hd) in Hr.
  cbn [andthen outcome fst] in Hr. discriminate Hr.
Qed.

Lemma cfg_existflag s s' :
  cfg s = cfg s' ->
  Universe.existflag (uni (lmp s)) = Universe.existflag (uni (lmp s')).
Proof. intro H. exact (f_equal c_existflag H). Qed.

Lemma cfg_worlds s w :
  c_worlds (cfg s) = w -> Universe.worlds (uni (lmp s)) = w.
Proof. intro H. exact H. Qed.

Lemma cfg_exist s z :
  c_existflag (cfg s) = z -> Universe.existflag (uni (lmp s)) = z.
Proof. intro H. exact H. Qed.

Lemma returned_state E args :
  outcome (run E args) = Ret tt ->
  let p := parsed E args in
  let l := loc p in
  let r := final (run E args) in
  let u := uni (lmp r) in
  cuda_refused E l = false /\ helpflag l = 0 /\
  (forall q, ptr (lmp r) q = constructed E l q) /\
  settings r = settings (final (after_datatypes E args)) /\
  Universe.existflag u = Universe.existflag (uni (lmp p)) /\
  (Universe.existflag u = 0 -> Universe.nworlds u = 1) /\
  exists evs msgs,
    Forall (fun e => silent e = true) evs /\
    Forall (fun e => silent e = true) msgs /\
    trace r = fundamental_events ++ evs ++ accelerator_events E l
              ++ msgs ++ top_events E l (cuda_active E l)
                           (suffix (lmp p)) (suffix_enable (lmp p))
                           (comm_rank E) (screen (lmp r)).
Proof.
  intro Hr. cbv zeta.
  pose proof (returned_datatypes E args Hr) as Hd.
  destruct (run_tail E args Hd) as (Ho & _ & Hst & _ & _).
  destruct (before_variant E args) as (_ & _ & _ & _ & _ & _ & Hc).
  specialize (Hc Hd).
  destruct (run_events E args)
    as (evs & msgs & He & Hm & [(_ & _ & _ & _ & Ht & Hp)|(h & Hs & _)]);
    [|rewrite Hs in Hr; discriminate Hr].
  rewrite Ho in Hr. unfold tail_outcome in Hr.
  destruct (cuda_refused E _) eqn:Hcr; [discriminate Hr|].
  destruct (truthy _) eqn:Hh; [discriminate Hr|].
  split; [reflexivity|]. split; [exact (truthy_false _ Hh)|].
  split; [exact (Hp eq_refl)|]. split; [exact Hst|].
  assert (Hu : uni (lmp (final (run E args)))
               = uni (lmp (final (after_datatypes E args)))).
  { unfold settings in Hst.
    repeat (apply pair_equal_spec in Hst;
            let H := fresh "Hs" in destruct Hst as [Hst H]).
    exact Hst. }
  split.
  { rewrite Hu. destruct (prelude E args) as (_ & _ & Hex & _).
    rewrite <- Hex. rewrite after_datatypes_eq.
    destruct (andthen_cases (after_partition E args) (to_datatypes E args))
      as [(_ & ->)|(h & _ & ->)]; [|reflexivity].
    destruct (to_datatypes_silent E args (final (after_partition E args)))
      as (Hk & _).
    apply pair_equal_spec in Hk. destruct Hk as [Hk _].
    apply pair_equal_spec in Hk. destruct Hk as [Hk _].
    apply pair_equal_spec in Hk. destruct Hk as [Hk _].
    apply cfg_existflag. exact Hk. }
  split.
  { rewrite Hu. intro H0.
    destruct (ci_exist _ _ _ Hc) as [(_ & Hw & _)|(H1 & _)].
    - unfold Universe.nworlds. rewrite (cfg_worlds _ _ Hw). reflexivity.
    - rewrite (cfg_exist _ _ H1) in H0. discriminate H0. }
  exists evs, msgs. split; [exact He|]. split; [exact Hm|]. exact Ht.
Qed.


(** ** The log of the destructor *)

Lemma object_events_obj l : object_events (map Obj l) = l.
Proof. induction l; simpl; congruence. Qed.

Lemma object_events_rel l : object_events (map Rel l) = [].
Proof. induction l; simpl; congruence. Qed.

Lemma releases_obj l : releases (map Obj l) = [].
Proof. induction l; simpl; congruence. Qed.

Lemma releases_rel l : releases (map Rel l) = l.
Proof. induction l; simpl; congruence. Qed.

Lemma destructor_log_objects s :
  object_events (destructor_log s)
  = flat_map (fun p => deleted_events p s) deletion_order.
Proof.
  unfold destructor_log. rewrite destructor_run. cbn [snd].
  change [Rel (DeleteSuffix (suffix (lmp s)))]
    with (map Rel [DeleteSuffix (suffix (lmp s))]).
  unfold object_events. rewrite !flat_map_app.
  fold object_events.
  rewrite !object_events_obj, !object_events_rel.
  unfold deletion_order. rewrite !flat_map_app. cbn [flat_map app].
  rewrite ?app_nil_r, <- ?app_assoc. reflexivity.
Qed.

Lemma destructor_log_releases s :
  releases (destructor_log s)
  = closing s ++ freeing s ++ [DeleteSuffix (suffix (lmp s))].
Proof.
  unfold destructor_log. rewrite destructor_run. cbn [snd].
  change [Rel (DeleteSuffix (suffix (lmp s)))]
    with (map Rel [DeleteSuffix (suffix (lmp s))]).
  unfold releases. rewrite !flat_map_app.
  fold releases.
  rewrite !releases_obj, !releases_rel.
  cbn [app]. rewrite ?app_nil_r, <- ?app_assoc. reflexivity.
Qed.

Lemma destructed_trace s :
  trace (destructed s)
  = trace s ++ flat_map (fun p => deleted_events p s) deletion_order.
Proof. unfold destructed. rewrite destructor_run. reflexivity. Qed.

Lemma filter_builds_deleted q s L :
  filter (builds q) (flat_map (fun p => deleted_events p s) L) = [].
Proof.
  induction L as [|p L IH]; [reflexivity|].
  cbn [flat_map]. rewrite filter_app, IH. unfold deleted_events.
  destruct (ptr (lmp s) p); reflexivity.
Qed.

Lemma filter_deletes_deleted q p s :
  filter (deletes q) (deleted_events p s)
  = if Ptr_eqb p q then deleted_events p s else [].
Proof.
  unfold deleted_events. destruct (ptr (lmp s) p); cbn;
    destruct (Ptr_eqb p q); reflexivity.
Qed.

Lemma filter_deletes_all q s :
  filter (deletes q) (flat_map (fun p => deleted_events p s) deletion_order)
  = deleted_events q s.
Proof.
  cbn [deletion_order destruction_order app flat_map].
  rewrite !filter_app, !filter_deletes_deleted. cbn [filter].
  destruct q; cbn [Ptr_eqb app]; rewrite ?app_nil_r; reflexivity.
Qed.


(** ** The screen of a partition is null or a file *)

Lemma world_screen_file E args u l me s :
  is_file (screen (lmp s)) = true ->
  is_file (screen (lmp (final (LAMMPS.world_screen E args u l me s))))
  = true.
Proof.
  intro Hf. open_state s. cbn in Hf. destruct l. exec.
  all: try reflexivity. all: try assumption.
Qed.

Lemma multi_world_screen_file E args s :
  Universe.existflag (uni (lmp s)) <> 0 ->
  is_file (screen (lmp s)) = true ->
  is_file (screen (lmp (final (LAMMPS.world_streams E args s)))) = true.
Proof.
  intros He Hf. rewrite (world_streams_multi E args s He). cbv zeta.
  match goal with |- context [(_ ;; _) ?s1] => set (s1' := s1) end.
  assert (Hf1 : is_file (screen (lmp s1')) = true) by exact Hf.
  clearbody s1'.
  rewrite (then_keeps (fun s => screen (lmp s))).
  - apply world_screen_file. exact Hf1.
  - intro s'. apply after_screen_keeps.
Qed.

Lemma partition_screen_file E args :
  outcome (after_datatypes E args) = Ret tt ->
  let d := final (after_datatypes E args) in
  Universe.existflag (uni (lmp d)) <> 0 ->
  is_file (screen (lmp d)) = true.
Proof.
  intros Hd. cbv zeta.
  destruct (prelude E args) as (_ & _ & _ & Hu & _ & _).
  revert Hd. unfold after_datatypes, after_world, after_universe.
  remember (after_partition E args) as rp eqn:Heq. clear Heq.
  destruct rp as [[[]|h] p]; cbn [andthen final snd outcome fst] in *;
    [|intro H; discriminate H].
  destruct (universe_streams_world E args p) as (Hw & _).
  destruct (LAMMPS.universe_streams E args p) as [[[]|h] u];
    cbn [andthen final snd outcome fst] in *; [|intro H; discriminate H].
  apply pair_equal_spec in Hw. destruct Hw as [Hw _].
  apply pair_equal_spec in Hw. destruct Hw as [Hw _].
  apply pair_equal_spec in Hw. destruct Hw as [Hsc _].
  assert (Hf : is_file (screen (lmp u)) = true)
    by (rewrite Hsc, (un_screen _ Hu); reflexivity).
  destruct (world_streams_uni E args u) as (Hwu & _).
  pose proof (multi_world_screen_file E args u) as Hms.
  destruct (LAMMPS.world_streams E args u) as [[[]|h] w];
    cbn [andthen final snd outcome fst] in *; [|intro H; discriminate H].
  destruct (check_datatypes_settings E w) as (Hk & _).
  destruct (LAMMPS.check_datatypes E w) as [[[]|h] d];
    cbn [andthen final snd outcome fst] in *; [|intro H; discriminate H].
  intros _. unfold settings in Hk.
  repeat (apply pair_equal_spec in Hk;
          let H := fresh "Hs" in destruct Hk as [Hk H]).
  rewrite Hs4, Hk, Hwu. intro He. exact (Hms He Hf).
Qed.

Lemma settings_parts s s' :
  settings s = settings s' ->
  uni (lmp s) = uni (lmp s') /\ screen (lmp s) = screen (lmp s') /\
  logfile (lmp s) = logfile (lmp s') /\ infile (lmp s) = infile (lmp s') /\
  world (lmp s) = world (lmp s') /\ suffix (lmp s) = suffix (lmp s').
Proof.
  unfold settings. intro H.
  repeat (apply pair_equal_spec in H;
          let H' := fresh "Hs" in destruct H as [H H']).
  repeat split; assumption.
Qed.

(** The streams and the communicator a constructor that returns
    leaves. *)
Lemma returned_streams E args :
  outcome (run E args) = Ret tt ->
  let r := final (run E args) in
  let u := uni (lmp r) in
  is_file (Universe.ulogfile u) = true /\
  is_file (logfile (lmp r)) = true /\
  world (lmp r) = (if Universe.existflag u =? 0 then uworld
                   else split_comm (Universe.iworld u)) /\
  (Universe.existflag u = 0 ->
   logfile (lmp r) = Universe.ulogfile u /\
   screen (lmp r) = Universe.uscreen u) /\
  infile (lmp r) = input_of args (loc (parsed E args)) (world_rank r) /\
  (Universe.existflag u <> 0 -> is_file (screen (lmp r)) = true) /\
  (Universe.existflag u <> 0 -> Universe.split_rank u = 0 ->
   partscreenflag (loc (parsed E args)) = 0 ->
   screenflag (loc (parsed E args)) = 0 ->
   screen (lmp r) = Some (opened ("screen." +++ dec (Universe.iworld u)))).
Proof.
  intro Hr. cbv zeta.
  pose proof (returned_datatypes E args Hr) as Hd.
  destruct (returned_state E args Hr) as (_ & _ & _ & Hst & _).
  apply settings_parts in Hst.
  destruct Hst as (Hu & Hsc & Hlg & Hin & Hw & _).
  unfold world_rank. rewrite Hu, Hsc, Hlg, Hin, Hw.
  destruct (streams_settled E args Hd) as (H1 & H2 & H3 & H4 & H5).
  split; [exact H1|]. split; [exact H2|]. split; [exact H3|].
  split; [exact H4|]. split; [exact H5|].
  split; [exact (partition_screen_file E args Hd)|].
  exact (partition_screen E args Hd).
Qed.


(** * The object from the constructor to the destructor *)

(** X12.  When the constructor returns, the input of the process follows from
    its rank in its world: rank 0 holds the file named after [-in], opened
    for reading, or standard input when there is no [-in]; every other
    rank holds no input. *)
Theorem input_script E args :
  outcome (run E args) = Ret tt ->
  infile (lmp (final (run E args)))
  = input_of args (loc (parsed E args)) (world_rank (final (run E args))).
Proof.
  intro Hr.
  destruct (returned_streams E args Hr) as (_ & _ & _ & _ & Hi & _).
  exact Hi.
Qed.

Lemma input_script_witness :
  infile (lmp (final (run (Examples.env 0 2 [] false)
                          Examples.one_world_of_2)))
  = input_of Examples.one_world_of_2
      (loc (parsed (Examples.env 0 2 [] false) Examples.one_world_of_2))
      (world_rank (final (run (Examples.env 0 2 [] false)
                              Examples.one_world_of_2))).
Proof. apply input_script. vm_compute. reflexivity. Defined.

(** X13.  The destructor run on the object of a constructor that returned
    does return, and deletes in this order: the ten top-level objects in
    the order of [destroy], the citation collector if there is one, the
    accelerator context if there is one, then [input], [universe],
    [error] and [memory]; each object of the class it was built with. *)
Theorem destructor_order E args :
  outcome (run E args) = Ret tt ->
  fst (Destructor.run (final (run E args))) = Ret tt /\
  object_events (destructor_log (final (run E args)))
  = flat_map (deletion E (loc (parsed E args))) deletion_order.
Proof.
  intro Hr.
  destruct (returned_state E args Hr) as (_ & _ & Hp & _).
  split; [rewrite destructor_run; reflexivity|].
  rewrite destructor_log_objects. apply flat_map_ext. intro p.
  unfold deleted_events, deletion. rewrite Hp. reflexivity.
Qed.

Lemma destructor_order_witness :
  fst (Destructor.run (final (run (Examples.env 0 1 [] true)
                                  Examples.bare))) = Ret tt /\
  object_events
    (destructor_log (final (run (Examples.env 0 1 [] true) Examples.bare)))
  = flat_map
      (deletion (Examples.env 0 1 [] true)
         (loc (parsed (Examples.env 0 1 [] true) Examples.bare)))
      deletion_order.
Proof. apply destructor_order. vm_compute. reflexivity. Defined.

(** X14.  From the first statement of a constructor that returns to the last
    of the destructor, every pointer sees as many [new] as [delete], and
    one of each at most: no object is left, none is deleted twice, none
    is deleted that was not built. *)
Theorem object_lifetimes E args q :
  outcome (run E args) = Ret tt ->
  List.length (filter (builds q)
                 (trace (destructed (final (run E args)))))
  = List.length (filter (deletes q)
                   (trace (destructed (final (run E args))))) /\
  (List.length (filter (builds q)
                  (trace (destructed (final (run E args))))) <= 1)%nat.
Proof.
  intro Hr. rewrite destructed_trace.
  destruct (returned_state E args Hr)
    as (Hcr & _ & Hp & _ & _ & _ & evs & msgs & Hev & Hm & Ht).
  rewrite !filter_app, filter_builds_deleted, filter_deletes_all.
  unfold deleted_events. rewrite Hp, Ht. clear Ht Hp Hr.
  revert Hcr. generalize (loc (parsed E args)). intros l Hcr.
  rewrite !filter_app.
  rewrite (silent_filter _ evs (silent_builds q) Hev).
  rewrite (silent_filter _ evs (silent_deletes q) Hev).
  rewrite (silent_filter _ msgs (silent_builds q) Hm).
  rewrite (silent_filter _ msgs (silent_deletes q) Hm).
  rewrite top_events_builds, top_events_deletes.
  unfold accelerator_events, constructed, cuda_active, cuda_refused in *.
  destruct q, (cudaflag l =? 0), (cuda_exists E), (cudaflag l =? 1),
    (truthy (citeflag l));
    cbn in Hcr |- *; try discriminate Hcr; split; solve [reflexivity | lia].
Qed.

Lemma object_lifetimes_witness :
  List.length
    (filter (builds cuda)
       (trace (destructed (final (run (Examples.env 0 1 [] false)
                                      Examples.bare)))))
  = List.length
      (filter (deletes cuda)
         (trace (destructed (final (run (Examples.env 0 1 [] false)
                                        Examples.bare))))) /\
  (List.length
     (filter (builds cuda)
        (trace (destructed (final (run (Examples.env 0 1 [] false)
                                       Examples.bare))))) <= 1)%nat.
Proof. apply object_lifetimes. vm_compute. reflexivity. Defined.

Lemma closing_files s v f :
  is_file (logfile (lmp s)) = true ->
  is_file (Universe.ulogfile (uni (lmp s))) = true ->
  (Universe.nworlds (uni (lmp s)) <> 1 -> is_file (screen (lmp s)) = true) ->
  In (Fclose v f) (closing s) -> exists path, f = opened path.
Proof.
  unfold closing, closed_if_open. intros Hl Hu Hs.
  destruct (Z.eqb_spec (Universe.nworlds (uni (lmp s))) 1) as [H1|H1].
  - destruct (logfile (lmp s)) as [[| |path]|]; try discriminate Hl;
      cbn; intro H;
      repeat (destruct H as [H|H];
              [injection H as <- <-; eexists; reflexivity|]);
      destruct H.
  - specialize (Hs H1).
    destruct (screen (lmp s)) as [[| |p1]|]; try discriminate Hs;
      destruct (logfile (lmp s)) as [[| |p2]|]; try discriminate Hl;
      destruct (Universe.ulogfile (uni (lmp s))) as [[| |p3]|];
      try discriminate Hu; cbn; intro H;
      repeat (destruct H as [H|H];
              [injection H as <- <-; eexists; reflexivity|]);
      destruct H.
Qed.

(** X15.  The destructor closes no standard stream: whatever it closes after
    a constructor that returned is a file that [fopen] gave. *)
Theorem destructor_spares_standard_streams E args v f :
  outcome (run E args) = Ret tt ->
  In (Fclose v f) (releases (destructor_log (final (run E args)))) ->
  exists path, f = opened path.
Proof.
  intros Hr. rewrite destructor_log_releases.
  destruct (returned_streams E args Hr) as (Hu & Hl & _ & _ & _ & Hs & _).
  destruct (returned_state E args Hr) as (_ & _ & _ & _ & _ & Hn & _).
  intro Hin. apply in_app_or in Hin. destruct Hin as [Hin|Hin].
  - apply (closing_files _ v f Hl Hu); [|exact Hin].
    intro H1. apply Hs. intro H0. exact (H1 (Hn H0)).
  - apply in_app_or in Hin. destruct Hin as [Hin|Hin].
    + unfold freeing in Hin.
      destruct (MPI_Comm_eqb _ _); [destruct Hin|].
      destruct Hin as [Hin|[]]. discriminate Hin.
    + destruct Hin as [Hin|[]]. discriminate Hin.
Qed.

Lemma destructor_spares_standard_streams_witness :
  In (Fclose v_logfile (opened "log.lammps"))
     (releases (destructor_log (final (run (Examples.env 0 1 [] false)
                                           Examples.bare)))) /\
  exists path, opened "log.lammps" = opened path.
Proof.
  split; [vm_compute; left; reflexivity|].
  apply (destructor_spares_standard_streams (Examples.env 0 1 [] false)
           Examples.bare v_logfile (opened "log.lammps")).
  - vm_compute. reflexivity.
  - vm_compute. left. reflexivity.
Defined.

Lemma comm_free_closing s : filter is_comm_free (closing s) = [].
Proof.
  unfold closing, closed_if_open.
  destruct (Universe.nworlds (uni (lmp s)) =? 1).
  - destruct (logfile (lmp s)); reflexivity.
  - destruct (screen (lmp s)) as [h|]; [destruct (FILE_is_stdout h)|];
      destruct (logfile (lmp s)); destruct (Universe.ulogfile (uni (lmp s)));
      reflexivity.
Qed.

(** X16.  The destructor frees the communicator of the world exactly when the
    constructor split it off: with [-partition] the one communicator of
    the split, once; without, none, the world being the universe. *)
Theorem world_communicator_freed E args :
  outcome (run E args) = Ret tt ->
  filter is_comm_free (releases (destructor_log (final (run E args))))
  = if Universe.existflag (uni (lmp (final (run E args)))) =? 0 then []
    else [CommFree
            (split_comm (Universe.iworld (uni (lmp (final (run E args))))))].
Proof.
  intros Hr. rewrite destructor_log_releases.
  destruct (returned_streams E args Hr) as (_ & _ & Hw & _).
  rewrite !filter_app, comm_free_closing. unfold freeing. rewrite Hw.
  destruct (Universe.existflag _ =? 0); reflexivity.
Qed.

Lemma world_communicator_freed_witness :
  filter is_comm_free
    (releases (destructor_log (final (run (Examples.env 0 2 [] false)
                                          Examples.one_world_of_2))))
  = if Universe.existflag
         (uni (lmp (final (run (Examples.env 0 2 [] false)
                               Examples.one_world_of_2)))) =? 0
    then []
    else [CommFree
            (split_comm
               (Universe.iworld
                  (uni (lmp (final (run (Examples.env 0 2 [] false)
                                        Examples.one_world_of_2))))))].
Proof. apply world_communicator_freed. vm_compute. reflexivity. Defined.

(** X17.  Without [-partition] the world shares the streams of the universe,
    and the destructor closes one of them at most: the log, once, under
    the name [logfile].  It does not close the screen, so that a file
    that [-screen] opened stays open; it frees no communicator. *)
Theorem no_partition_closes_log_only E args :
  outcome (run E args) = Ret tt ->
  Universe.existflag (uni (lmp (final (run E args)))) = 0 ->
  logfile (lmp (final (run E args)))
  = Universe.ulogfile (uni (lmp (final (run E args)))) /\
  screen (lmp (final (run E args)))
  = Universe.uscreen (uni (lmp (final (run E args)))) /\
  releases (destructor_log (final (run E args)))
  = closed_if_open v_logfile (logfile (lmp (final (run E args))))
    ++ [DeleteSuffix (suffix (lmp (final (run E args))))].
Proof.
  intros Hr He. rewrite destructor_log_releases.
  destruct (returned_streams E args Hr) as (_ & _ & Hw & Hs & _).
  destruct (returned_state E args Hr) as (_ & _ & _ & _ & _ & Hn & _).
  destruct (Hs He) as (Hl & Hsc). split; [exact Hl|]. split; [exact Hsc|].
  unfold closing, freeing. rewrite Hw, (Hn He), He. reflexivity.
Qed.

Lemma no_partition_closes_log_only_witness :
  logfile (lmp (final (run (Examples.env 0 1 [] false)
                           ["lmp"; "-screen"; "out.txt"]%string)))
  = Universe.ulogfile
      (uni (lmp (final (run (Examples.env 0 1 [] false)
                            ["lmp"; "-screen"; "out.txt"]%string)))) /\
  screen (lmp (final (run (Examples.env 0 1 [] false)
                          ["lmp"; "-screen"; "out.txt"]%string)))
  = Universe.uscreen
      (uni (lmp (final (run (Examples.env 0 1 [] false)
                            ["lmp"; "-screen"; "out.txt"]%string)))) /\
  releases
    (destructor_log (final (run (Examples.env 0 1 [] false)
                                ["lmp"; "-screen"; "out.txt"]%string)))
  = closed_if_open v_logfile
      (logfile (lmp (final (run (Examples.env 0 1 [] false)
                                ["lmp"; "-screen"; "out.txt"]%string))))
    ++ [DeleteSuffix
          (suffix (lmp (final (run (Examples.env 0 1 [] false)
                                   ["lmp"; "-screen"; "out.txt"]%string))))].
Proof.
  apply no_partition_closes_log_only; vm_compute; reflexivity.
Defined.

(** X18.  With [-partition] and one world, rank 0 of the world holds by
    default the screen file [screen.N] that [fopen] gave, N the number of
    the world, and the destructor does not close it: of the streams it
    closes the log of the world alone. *)
Theorem one_partition_screen_left_open E args :
  outcome (run E args) = Ret tt ->
  Universe.existflag (uni (lmp (final (run E args)))) <> 0 ->
  Universe.nworlds (uni (lmp (final (run E args)))) = 1 ->
  world_rank (final (run E args)) = 0 ->
  partscreenflag (loc (parsed E args)) = 0 ->
  screenflag (loc (parsed E args)) = 0 ->
  screen (lmp (final (run E args)))
  = Some (opened ("screen." +++
                  dec (Universe.iworld (uni (lmp (final (run E args))))))) /\
  filter is_fclose (releases (destructor_log (final (run E args))))
  = closed_if_open v_logfile (logfile (lmp (final (run E args)))).
Proof.
  intros Hr He Hn Hme Hp Hs. rewrite destructor_log_releases.
  destruct (returned_streams E args Hr) as (_ & _ & Hw & _ & _ & _ & Hsc).
  assert (He' := He). apply Z.eqb_neq in He'. rewrite He' in Hw.
  unfold world_rank in Hme. rewrite Hw in Hme.
  split; [exact (Hsc He Hme Hp Hs)|].
  unfold closing, freeing, closed_if_open. rewrite Hn, Hw.
  destruct (logfile _); reflexivity.
Qed.

Lemma one_partition_screen_left_open_witness :
  screen (lmp (final (run (Examples.env 0 2 [] false)
                          Examples.one_world_of_2)))
  = Some (opened ("screen." +++
                  dec (Universe.iworld
                         (uni (lmp (final (run (Examples.env 0 2 [] false)
                                               Examples.one_world_of_2)))))))
  /\
  filter is_fclose
    (releases (destructor_log (final (run (Examples.env 0 2 [] false)
                                          Examples.one_world_of_2))))
  = closed_if_open v_logfile
      (logfile (lmp (final (run (Examples.env 0 2 [] false)
                                Examples.one_world_of_2)))).
Proof.
  apply one_partition_screen_left_open; vm_compute;
    solve [reflexivity | discriminate].
Defined.


(** * The input script that cannot be opened *)

Lemma single_world_bad_script E args s :
  Universe.existflag (uni (lmp s)) = 0 ->
  Universe.me (uni (lmp s)) = 0 ->
  0 < inflag (loc s) < LAMMPS.narg args ->
  fopen_ok E (nth (Z.to_nat (inflag (loc s))) args EmptyString) "r" = false ->
  outcome (LAMMPS.world_streams E args s)
  = if (String.length (nth (Z.to_nat (inflag (loc s))) args EmptyString)
        <? 103)%nat
    then Stop (Fatal Process
                 ("Cannot open input script "
                  +++ nth (Z.to_nat (inflag (loc s))) args EmptyString))
    else Stop Undefined.
Proof.
  intros He Hme Hin Hfo.
  destruct s as [[[me np ex ws iw us ul] scr lg inf w sfx en p]
                 [i sf lf psf plf cf ctf hf] t].
  cbn in He, Hme, Hin, Hfo. subst.
  assert (Harg : (0 <=? i) && (i <? LAMMPS.narg args) = true)
    by (apply andb_true_intro; split; [apply Z.leb_le|apply Z.ltb_lt]; lia).
  assert (H0 : (i =? 0) = false) by (apply Z.eqb_neq; lia).
  assert (H00 : (0 =? 0) = true) by reflexivity.
  red_p. repeat (first [case_known | progress lazy zeta]; red_p).
  rewrite length_append.
  change (String.length "Cannot open input script ") with 25%nat.
  set (n := String.length (nth (Z.to_nat i) args EmptyString)).
  destruct (Nat.ltb_spec n 103) as [Hlt|Hge].
  - assert (Ht : (Z.of_nat (25 + n) <? 128) = true) by (apply Z.ltb_lt; lia).
    rewrite Ht. reflexivity.
  - assert (Ht : (Z.of_nat (25 + n) <? 128) = false)
      by (apply Z.ltb_ge; lia).
    rewrite Ht. reflexivity.
Qed.

(** X19.  Without [-partition], on rank 0, an input script named after [-in]
    that cannot be opened ends the run: by the fatal error that names the
    script when the name has 102 characters at most; a longer name overruns
    the 128 bytes the text of the error is written to, and the run is
    undefined. *)
Theorem unopenable_script E args :
  outcome (after_universe E args) = Ret tt ->
  Universe.existflag (uni (lmp (parsed E args))) = 0 ->
  comm_rank E = 0 ->
  inflag (loc (parsed E args)) <> 0 ->
  fopen_ok E (nth (Z.to_nat (inflag (loc (parsed E args)))) args EmptyString)
           "r" = false ->
  outcome (run E args)
  = if (String.length
          (nth (Z.to_nat (inflag (loc (parsed E args)))) args EmptyString)
        <? 103)%nat
    then Stop (Fatal Process
                 ("Cannot open input script "
                  +++ nth (Z.to_nat (inflag (loc (parsed E args)))) args
                          EmptyString))
    else Stop Undefined.
Proof.
  intros Hu He Hme Hin Hfo.
  destruct (prelude E args) as (_ & Hl & Hex & _ & _ & Hcase).
  rewrite run_from_universe, (andthen_ret _ _ Hu).
  unfold from_world. rewrite bind_andthen.
  revert Hu. unfold after_universe.
  rewrite <- Hl in Hin, Hfo |- *. rewrite <- Hex in He.
  remember (after_partition E args) as rp eqn:Heq. clear Heq Hl Hex.
  destruct rp as [[[]|h] p]; cbn [andthen final snd outcome fst] in *;
    [|intro H; discriminate H].
  destruct Hcase as [(msg & Hm)|(_ & Hc)]; [discriminate Hm|].
  destruct (universe_streams_cfg E args p) as (Hcf & _).
  destruct (LAMMPS.universe_streams E args p) as [[[]|h] u];
    cbn [andthen final snd outcome fst] in *; [|intro H; discriminate H].
  intros _.
  assert (Hlu : loc u = loc p) by exact (f_equal c_loc Hcf).
  assert (Heu : Universe.existflag (uni (lmp u)) = 0)
    by (rewrite <- He; exact (f_equal c_existflag Hcf)).
  assert (Hmu : Universe.me (uni (lmp u)) = 0).
  { rewrite <- Hme, <- (ci_me _ _ _ Hc). exact (f_equal c_me Hcf). }
  assert (Hrange : 0 < inflag (loc u) < LAMMPS.narg args).
  { rewrite Hlu. destruct (li_in _ _ (ci_loc _ _ _ Hc)) as [H0|H1];
      [contradiction|exact H1]. }
  rewrite <- Hlu in Hfo |- *.
  pose proof (single_world_bad_script E args u Heu Hmu Hrange Hfo) as Hw.
  destruct (LAMMPS.world_streams E args u) as [[[]|h] w];
    cbn [andthen final snd outcome fst] in *.
  - destruct (_ <? _)%nat; discriminate Hw.
  - exact Hw.
Qed.

Lemma unopenable_script_witness :
  outcome (run (Examples.env 0 1 ["in.x"%string] false)
               ["lmp"; "-in"; "in.x"]%string)
  = if (String.length
          (nth (Z.to_nat
                  (inflag (loc (parsed (Examples.env 0 1 ["in.x"%string] false)
                                       ["lmp"; "-in"; "in.x"]%string))))
               ["lmp"; "-in"; "in.x"]%string EmptyString)
        <? 103)%nat
    then Stop (Fatal Process
                 ("Cannot open input script "
                  +++ nth (Z.to_nat
                             (inflag
                                (loc (parsed
                                        (Examples.env 0 1 ["in.x"%string]
                                                      false)
                                        ["lmp"; "-in"; "in.x"]%string))))
                          ["lmp"; "-in"; "in.x"]%string EmptyString))
    else Stop Undefined.
Proof.
  apply unopenable_script; vm_compute; solve [reflexivity | discriminate].
Defined.


(** * The command line *)

Section StartupHalts.
Context (E : Env) (args : list string).

Local Abbreviation R :=
  (each (fun (_ : unit) (_ : Event) => True) (fun _ h => startup_halt h)).
Local Abbreviation proj := (fun _ : State => tt).

Ltac halt_leaf :=
  try match goal with c : unit |- _ => destruct c end;
  each_leaf; try exact I; unfold startup_halt; tauto.

Lemma halts_parse_switch iarg :
  traced proj R (LAMMPS.parse_switch E args iarg).
Proof.
  unfold LAMMPS.parse_switch. unfold_model.
  repeat first
    [ apply tr_partition_words; apply closed_each
    | tr_step ].
  all: halt_leaf.
Qed.

Lemma halts_switches fuel : forall iarg,
  traced proj R (LAMMPS.switches E args fuel iarg).
Proof.
  induction fuel as [|fuel IH]; intro iarg; cbn.
  - destruct (iarg <? LAMMPS.narg args).
    + apply tr_halt. intros []. halt_leaf.
    + apply tr_ret; apply closed_each.
  - destruct (iarg <? LAMMPS.narg args).
    + apply tr_bind; [apply closed_each|apply halts_parse_switch
                     |intro; apply IH].
    + apply tr_ret; apply closed_each.
Qed.

Lemma halts_startup :
  forall h, outcome (after_startup E args) = Stop h -> startup_halt h.
Proof.
  intros h Hh. unfold after_startup, LAMMPS.startup in *.
  rewrite bind_andthen in Hh.
  destruct (fundamental_inv E args) as (Hf & _).
  rewrite Hf in Hh. cbn [andthen] in Hh.
  destruct (halts_switches (List.length args) 1
              (final (LAMMPS.fundamental E (blank E))))
    as (_ & evs & _ & _ & Hr).
  apply Hr. rewrite Hh. reflexivity.
Qed.
End StartupHalts.


(** X20.  The switch loop ends for every command line, and reads no word past
    the last: it returns or stops the pool, with one of two messages.
    Each flag it leaves is 0 or the index of a word of the command line
    after the first, so that the reads of [arg[flag]] that follow are
    within bounds. *)
Theorem switch_loop_safe E args :
  (outcome (after_startup E args) = Ret tt \/
   outcome (after_startup E args) = Stop (Fatal Pool invalid_argument) \/
   outcome (after_startup E args)
   = Stop (Fatal Pool reorder_after_partition)) /\
  Forall (flag_ok args)
    [inflag (loc (parsed E args)); screenflag (loc (parsed E args));
     logflag (loc (parsed E args)); partscreenflag (loc (parsed E args));
     partlogflag (loc (parsed E args))].
Proof.
  destruct (startup_inv E args) as (Hi & Ho).
  split.
  - destruct Ho as [Hr|(msg & Hm)]; [left; exact Hr|right].
    destruct (halts_startup E args _ Hm) as [H|[H|[H|H]]];
      try discriminate H; injection H as ->; rewrite Hm; auto.
  - destruct (si_loc _ _ _ Hi).
    repeat (apply Forall_cons; [assumption|]). apply Forall_nil.
Qed.

Lemma check_partition_unpartitioned E args s :
  StartupInv E args s ->
  Universe.existflag (uni (lmp s)) = 0 ->
  outcome (LAMMPS.check_partition E s) = unpartitioned_outcome (loc s).
Proof.
  intros [Hl Hex ? ? [] ?] He.
  destruct Hex as [(_ & Hw)|H1]; [|rewrite H1 in He; discriminate He].
  open_state s. cbn in *. subst. red_m.
  unfold Universe.add_world, Universe.consistent, unpartitioned_outcome.
  red_m. cbn [app Universe.total fold_right].
  change (0 =? 0) with true. cbn [andb negb].
  repeat case_if.
  all: cbv beta iota zeta; cbn [andb negb] in *.
  all: zb.
  all: cbn [app Universe.total fold_right] in *.
  all: try lia.
  all: try discriminate.
  all: reflexivity.
Qed.

(** X21.  Without [-partition] the switches [-pscreen] and [-plog] stop the
    pool, each with its own message, [-pscreen] first; without them the
    partition checks return. *)
Theorem partition_streams_need_partition E args :
  outcome (after_startup E args) = Ret tt ->
  Universe.existflag (uni (lmp (parsed E args))) = 0 ->
  (partscreenflag (loc (parsed E args)) <> 0 ->
   outcome (run E args)
   = Stop (Fatal Pool "Can only use -pscreen with multiple partitions")) /\
  (partscreenflag (loc (parsed E args)) = 0 ->
   partlogflag (loc (parsed E args)) <> 0 ->
   outcome (run E args)
   = Stop (Fatal Pool "Can only use -plog with multiple partitions")) /\
  (partscreenflag (loc (parsed E args)) = 0 ->
   partlogflag (loc (parsed E args)) = 0 ->
   outcome (after_partition E args) = Ret tt).
Proof.
  intros Hs He.
  destruct (startup_inv E args) as (Hi & _).
  pose proof (check_partition_unpartitioned E args _ Hi He) as Hc.
  assert (Hp : outcome (after_partition E args)
               = unpartitioned_outcome (loc (parsed E args))).
  { unfold after_partition. rewrite (andthen_ret _ _ Hs). exact Hc. }
  unfold unpartitioned_outcome, truthy in Hp.
  split; [|split].
  - intro H1. apply Z.eqb_neq in H1. rewrite H1 in Hp. cbn [negb] in Hp.
    rewrite run_from_partition, (andthen_stop _ _ _ Hp). reflexivity.
  - intros H0 H1. apply Z.eqb_neq in H1. rewrite H0, H1 in Hp.
    cbn [negb] in Hp.
    rewrite run_from_partition, (andthen_stop _ _ _ Hp). reflexivity.
  - intros H0 H1. rewrite H0, H1 in Hp. exact Hp.
Qed.

Lemma partition_streams_need_partition_witness :
  outcome (run (Examples.env 0 1 [] false)
               ["lmp"; "-pscreen"; "out"]%string)
  = Stop (Fatal Pool "Can only use -pscreen with multiple partitions").
Proof.
  destruct (partition_streams_need_partition (Examples.env 0 1 [] false)
              ["lmp"; "-pscreen"; "out"]%string) as (H & _).
  - vm_compute. reflexivity.
  - vm_compute. reflexivity.
  - apply H. vm_compute. discriminate.
Defined.


(** * The help flag and the logs *)

Lemma world_logfile_default E args u l me s :
  me = 0 -> partlogflag l = 0 -> logflag l = 0 ->
  outcome (LAMMPS.world_logfile E args u l me s) = Ret tt ->
  In (EvFopen v_logfile ("log.lammps." +++ dec (Universe.iworld u)) "w" true)
     (trace (final (LAMMPS.world_logfile E args u l me s))).
Proof.
  intros -> Hp Hl. destruct l. cbn in Hp, Hl. subst.
  open_state s. exec.
  all: try match goal with H : (0 =? 0) = false |- _ => discriminate H end.
  all: cbn [outcome fst]; intro Ho; try discriminate Ho.
  all: apply in_or_app; right; left; reflexivity.
Qed.

Lemma after_logfile_grows E args l me :
  traced (fun _ : State => tt) (each always always)
         (LAMMPS.world_infile E args l me ;; LAMMPS.world_banners E me).
Proof. tr_auto. all: each_leaf. all: exact I. Qed.

Lemma multi_world_log E args s :
  Universe.existflag (uni (lmp s)) <> 0 ->
  Universe.split_rank (uni (lmp s)) = 0 ->
  partlogflag (loc s) = 0 -> logflag (loc s) = 0 ->
  outcome (LAMMPS.world_streams E args s) = Ret tt ->
  In (EvFopen v_logfile
        ("log.lammps." +++ dec (Universe.iworld (uni (lmp s)))) "w" true)
     (trace (final (LAMMPS.world_streams E args s))).
Proof.
  intros He Hme Hp Hl. rewrite (world_streams_multi E args s He). cbv zeta.
  match goal with |- context [(_ ;; _) ?s1] => generalize s1 end.
  intro s1.
  match goal with |- context [(?m ;; ?k) s1] =>
    destruct (then_cases m k s1) as [(Ho & ->)|(h & Ho & ->)] end;
    [|intro H; discriminate H].
  match goal with |- context [(?m ;; ?k) ?s2] =>
    destruct (then_cases m k s2) as [(Ho2 & Heq)|(h & Ho2 & Heq)] end;
    rewrite Heq; [|intro H; discriminate H].
  intros _.
  match goal with |- In _ (trace (final (?k ?s3))) =>
    destruct (after_logfile_grows E args (loc s)
                (Universe.split_rank (uni (lmp s))) s3) as (_ & evs & Ht & _)
  end.
  rewrite Ht. apply in_trace_app.
  exact (world_logfile_default E args _ _ _ _ Hme Hp Hl Ho2).
Qed.

(** The default log of a world once the datatypes have been checked. *)
Lemma partition_log E args :
  outcome (after_datatypes E args) = Ret tt ->
  let d := final (after_datatypes E args) in
  let u := uni (lmp d) in
  let l := loc (parsed E args) in
  Universe.existflag u <> 0 -> Universe.split_rank u = 0 ->
  partlogflag l = 0 -> logflag l = 0 ->
  In (EvFopen v_logfile ("log.lammps." +++ dec (Universe.iworld u)) "w" true)
     (trace d).
Proof.
  intros Hd. cbv zeta.
  destruct (prelude E args) as (_ & Hl & _ & _ & _ & _).
  revert Hd. unfold after_datatypes, after_world, after_universe.
  rewrite <- Hl.
  remember (after_partition E args) as rp eqn:Heq. clear Heq Hl.
  destruct rp as [[[]|h] p]; cbn [andthen final snd outcome fst] in *;
    [|intro H; discriminate H].
  destruct (universe_streams_cfg E args p) as (Hcf & _).
  destruct (LAMMPS.universe_streams E args p) as [[[]|h] u];
    cbn [andthen final snd outcome fst] in *; [|intro H; discriminate H].
  assert (Hlu : loc u = loc p) by exact (f_equal c_loc Hcf).
  destruct (world_streams_uni E args u) as (Hwu & _).
  pose proof (multi_world_log E args u) as Hlog.
  destruct (LAMMPS.world_streams E args u) as [[[]|h] w];
    cbn [andthen final snd outcome fst] in *; [|intro H; discriminate H].
  destruct (check_datatypes_settings E w) as (Hk & evs & Ht & _).
  destruct (LAMMPS.check_datatypes E w) as [[[]|h] d];
    cbn [andthen final snd outcome fst] in *; [|intro H; discriminate H].
  intros _. apply settings_parts in Hk. destruct Hk as (Hk & _).
  rewrite Hk, Hwu, <- Hlu, Ht. intros He Hme Hp Hlg.
  apply in_trace_app. exact (Hlog He Hme Hp Hlg eq_refl).
Qed.

(** A run that returns or ends with success has passed the checks of the
    datatypes. *)
Lemma ended_datatypes E args :
  outcome (run E args) = Ret tt \/ outcome (run E args) = Stop Finished ->
  outcome (after_datatypes E args) = Ret tt.
Proof.
  intro Hr.
  destruct (before_variant E args) as (_ & _ & _ & _ & _ & Hnf & _).
  destruct (outcome (after_datatypes E args)) as [[]|h] eqn:Hd;
    [reflexivity|].
  rewrite run_chain in Hr. unfold after_notice, after_accelerator in Hr.
  rewrite (andthen_stop _ _ _ Hd) in Hr.
  cbn [andthen outcome fst] in Hr.
  destruct Hr as [Hr|Hr]; [discriminate Hr|].
  injection Hr as ->. exfalso. apply Hnf. reflexivity.
Qed.

(** The default log of a world in a run that returns or ends with
    success, with or without -help. *)
Lemma ended_world_log E args :
  outcome (run E args) = Ret tt \/ outcome (run E args) = Stop Finished ->
  Universe.existflag (uni (lmp (final (run E args)))) <> 0 ->
  world_rank (final (run E args)) = 0 ->
  logflag (loc (parsed E args)) = 0 ->
  partlogflag (loc (parsed E args)) = 0 ->
  In (EvFopen v_logfile
        ("log.lammps." +++
         dec (Universe.iworld (uni (lmp (final (run E args)))))) "w" true)
     (trace (final (run E args))).
Proof.
  intros Hr.
  pose proof (ended_datatypes E args Hr) as Hd.
  destruct (run_tail E args Hd) as (_ & _ & Hst & (msgs & _ & Ht) & _).
  apply settings_parts in Hst. destruct Hst as (Hu & _ & _ & _ & Hw & _).
  destruct (streams_settled E args Hd) as (_ & _ & Hwd & _).
  unfold world_rank. rewrite Hw, Hu, Hwd, Ht.
  intros He Hme Hlg Hp.
  assert (He' := He). apply Z.eqb_neq in He'. rewrite He' in Hme.
  apply in_trace_app.
  exact (partition_log E args Hd He Hme Hp Hlg).
Qed.

(** The help flag, the log of the pool and the citation collector. *)
Lemma help_pool_log E args :
  let r := run E args in
  let l := loc (parsed E args) in
  (helpflag l <> 0 -> logflag l = 0 ->
   Forall (fun e => opens_ulogfile e = false) (trace (final r))) /\
  (helpflag l = 0 -> logflag l = 0 -> comm_rank E = 0 ->
   In (EvFopen v_ulogfile "log.lammps" "w" (fopen_ok E "log.lammps" "w"))
      (trace (final r)) \/
   (exists msg, outcome r = Stop (Fatal Pool msg)) \/
   outcome r = Stop (Fatal Process "Cannot open universe screen file")) /\
  (helpflag l <> 0 ->
   citeflag l = 0 /\
   Forall (fun e => builds citeme e = false) (trace (final r))).
Proof.
  cbv zeta.
  destruct (prelude E args) as (Hs & Hl & _ & _ & Hq & _).
  pose proof (si_loc _ _ _ Hs) as Hli.
  destruct (run_split cfg _ E args (help_events E args))
    as [(msg & Hp & Hr)|(Hp & Hc & Hcfg & evs & Ht & Hev & _)].
  - rewrite Hr. cbn [outcome final fst snd]. split; [|split].
    + intros _ _. eapply Forall_impl; [|exact Hq]. intro; apply quiet_no_ulog.
    + intros _ _ _. right. left. exists msg. reflexivity.
    + intro Hh. split.
      * destruct (li_help _ _ Hli) as [|[]]; [contradiction|assumption].
      * eapply Forall_impl; [|exact Hq]. intro; apply quiet_no_citeme.
  - rewrite c_loc_cfg, Hl in Hev. rewrite Ht.
    rewrite Forall_forall in Hev.
    split; [|split].
    + intros Hh Hlg. apply Forall_app. split.
      * eapply Forall_impl; [|exact Hq]. intro; apply quiet_no_ulog.
      * apply Forall_forall. intros e He. apply (Hev e He); assumption.
    + intros Hh Hlg Hme. rewrite <- Ht.
      rewrite run_from_universe.
      destruct (universe_streams_default_log E args
                  (final (after_partition E args))) as [Hu|(Hu & Hin)].
      * rewrite Hl. assumption.
      * rewrite <- Hme. exact (ci_me _ _ _ Hc).
      * rewrite Hl. assumption.
      * rewrite Hl. assumption.
      * right. right. unfold after_universe.
        rewrite (andthen_ret _ _ Hp).
        rewrite (andthen_stop _ _ _ Hu). reflexivity.
      * left. unfold after_universe. rewrite (andthen_ret _ _ Hp).
        destruct (from_world_grows E args _ Hu) as (evs' & Ht').
        rewrite Ht'. apply in_trace_app. exact Hin.
    + intros Hh.
      assert (Hcite : citeflag (loc (parsed E args)) = 0).
      { destruct (li_help _ _ Hli) as [|[]]; [contradiction|assumption]. }
      split; [assumption|]. apply Forall_app. split.
      * eapply Forall_impl; [|exact Hq]. intro; apply quiet_no_citeme.
      * apply Forall_forall. intros e He. apply (Hev e He); assumption.
Qed.

(** C10, as amended.  With the -help flag and no -log flag, no process
    ever opens the log of the pool; without -help (and without -log) pool
    rank 0 opens ["log.lammps"], unless the run was stopped before by a
    pool-wide fatal error or by the failure to open the universe screen
    file; with -help the citation flag is off and the citation collector
    is never built.  The help flag does not keep the logs of the worlds
    closed: in a run with -partition and neither -log nor -plog that
    returns or ends with success, as a run with -help does, rank 0 of each
    world has opened its default log ["log.lammps.N"], N the number of the
    world. *)
Theorem help_skips_default_log E args :
  let r := run E args in
  let l := loc (parsed E args) in
  (helpflag l <> 0 -> logflag l = 0 ->
   Forall (fun e => opens_ulogfile e = false) (trace (final r))) /\
  (helpflag l = 0 -> logflag l = 0 -> comm_rank E = 0 ->
   In (EvFopen v_ulogfile "log.lammps" "w" (fopen_ok E "log.lammps" "w"))
      (trace (final r)) \/
   (exists msg, outcome r = Stop (Fatal Pool msg)) \/
   outcome r = Stop (Fatal Process "Cannot open universe screen file")) /\
  (helpflag l <> 0 ->
   citeflag l = 0 /\
   Forall (fun e => builds citeme e = false) (trace (final r))) /\
  (outcome r = Ret tt \/ outcome r = Stop Finished ->
   Universe.existflag (uni (lmp (final r))) <> 0 ->
   world_rank (final r) = 0 ->
   logflag l = 0 -> partlogflag l = 0 ->
   In (EvFopen v_logfile
         ("log.lammps." +++ dec (Universe.iworld (uni (lmp (final r)))))
         "w" true)
      (trace (final r))).
Proof.
  cbv zeta. destruct (help_pool_log E args) as (H1 & H2 & H3).
  split; [exact H1|]. split; [exact H2|]. split; [exact H3|].
  exact (ended_world_log E args).
Qed.

(** One process: with -help, and the bare command line.  Two processes
    in two worlds of one process, with -help: the process of pool rank 1,
    rank 0 of world 1. *)
Lemma help_skips_default_log_witness :
  (Forall (fun e => opens_ulogfile e = false)
          (trace (final (run (Examples.env 0 1 [] false) Examples.help))) /\
   citeflag (loc (parsed (Examples.env 0 1 [] false) Examples.help)) = 0 /\
   Forall (fun e => builds citeme e = false)
          (trace (final (run (Examples.env 0 1 [] false) Examples.help)))) /\
  (In (EvFopen v_ulogfile "log.lammps" "w"
         (fopen_ok (Examples.env 0 1 [] false) "log.lammps" "w"))
      (trace (final (run (Examples.env 0 1 [] false) Examples.bare))) \/
   (exists msg,
      outcome (run (Examples.env 0 1 [] false) Examples.bare)
      = Stop (Fatal Pool msg)) \/
   outcome (run (Examples.env 0 1 [] false) Examples.bare)
   = Stop (Fatal Process "Cannot open universe screen file")) /\
  In (EvFopen v_logfile
        ("log.lammps." +++
         dec (Universe.iworld
                (uni (lmp (final (run (Examples.env 1 2 [] false)
                                      Examples.help_two_worlds_of_1))))))
        "w" true)
     (trace (final (run (Examples.env 1 2 [] false)
                        Examples.help_two_worlds_of_1))).
Proof.
  split; [|split].
  - destruct (help_skips_default_log (Examples.env 0 1 [] false)
                Examples.help) as (H1 & _ & H3 & _).
    split; [apply H1; vm_compute; [discriminate|reflexivity]|].
    apply H3. vm_compute. discriminate.
  - destruct (help_skips_default_log (Examples.env 0 1 [] false)
                Examples.bare) as (_ & H2 & _).
    apply H2; vm_compute; reflexivity.
  - destruct (help_skips_default_log (Examples.env 1 2 [] false)
                Examples.help_two_worlds_of_1) as (_ & _ & _ & H4).
    apply H4.
    + right. vm_compute. reflexivity.
    + vm_compute. discriminate.
    + vm_compute. reflexivity.
    + vm_compute. reflexivity.
    + vm_compute. reflexivity.
Defined.

(** C10, where the constructor does otherwise.  Two processes in two
    worlds of one process, with -help and neither -log nor -plog: the
    process of pool rank 1 opens the default log of its world,
    ["log.lammps.1"], and the process of pool rank 0 that of world 0; the
    log of the pool is not opened. *)
Lemma help_opens_world_log :
  (helpflag (loc (parsed (Examples.env 1 2 [] false)
                         Examples.help_two_worlds_of_1)) = 1 /\
   logflag (loc (parsed (Examples.env 1 2 [] false)
                        Examples.help_two_worlds_of_1)) = 0 /\
   partlogflag (loc (parsed (Examples.env 1 2 [] false)
                            Examples.help_two_worlds_of_1)) = 0 /\
   outcome (run (Examples.env 1 2 [] false) Examples.help_two_worlds_of_1)
   = Stop Finished /\
   filter is_fopen
     (trace (final (run (Examples.env 1 2 [] false)
                        Examples.help_two_worlds_of_1)))
   = [EvFopen v_screen "screen.1" "w" true;
      EvFopen v_logfile "log.lammps.1" "w" true;
      EvFopen v_infile "in.x" "r" true] /\
   filter is_fopen
     (trace (final (run (Examples.env 0 2 [] false)
                        Examples.help_two_worlds_of_1)))
   = [EvFopen v_screen "screen.0" "w" true;
      EvFopen v_logfile "log.lammps.0" "w" true;
      EvFopen v_infile "in.x" "r" true]) /\
  ~ AsStated.help_opens_no_default_log (Examples.env 1 2 [] false)
      Examples.help_two_worlds_of_1.
Proof.
  split; [vm_compute; repeat split|].
  intro H.
  apply (H ltac:(vm_compute; discriminate) eq_refl eq_refl
           v_logfile "log.lammps.1"%string true).
  - right. reflexivity.
  - in_trace.
Qed.
